(** * notion2tg: the renderer and the sync reconciler of [bot.py]

    A shallow embedding of [src/bot.py]: the MarkdownV2 renderer
    ([escape_markdown_v2], [escape_telegram_nicknames],
    [NotionHandler._parse_rich_text], [NotionHandler.parse_block]), the
    mapping store kept in a Notion database
    ([NotionHandler.update_sync_database],
    [NotionHandler.get_sync_db_mapping]) and one pass of the reconciler
    ([TelegramBot.sync], [TelegramBot.create_post],
    [TelegramBot.cleanup_posts]).

    Python strings are [string]s of the bytes of their UTF-8 encoding, the
    dictionary [self.pinned] is
    an association list in insertion order, exceptions are [option] or
    explicit result types, and the two remote services are oracles that
    answer each call from the history of the calls made so far. *)

From Stdlib Require Import ZArith Lia List Bool Ascii String DecimalString DecimalPos.
#[local] Set Warnings "-register-all,-notation-for-abbreviation".
Import ListNotations.
Open Scope string_scope.

(** ** Python string primitives *)

Module Py.

Definition LF : string := String (ascii_of_nat 10) EmptyString.
Definition backslash : ascii := ascii_of_nat 92.

(** The white space of [str.isspace] that is one byte long: TAB..CR,
    FS..US and the space. *)
Definition isspace (c : ascii) : bool :=
  let n := nat_of_ascii c in
  ((9 <=? n) && (n <=? 13) || (28 <=? n) && (n <=? 32))%nat.

Definition byte_is (c : ascii) (n : nat) : bool := Nat.eqb (nat_of_ascii c) n.

(** The white space of [str.isspace] beyond the ASCII range, as the bytes
    of its UTF-8 encoding: U+0085 and U+00A0 in two bytes; U+1680,
    U+2000..U+200A, U+2028, U+2029, U+202F, U+205F and U+3000 in three. *)
Definition space2 (c d : ascii) : bool :=
  byte_is c 194 && (byte_is d 133 || byte_is d 160).

Definition space3 (c d e : ascii) : bool :=
  let n := nat_of_ascii e in
  byte_is c 225 && byte_is d 154 && byte_is e 128
  || byte_is c 226 && byte_is d 128
     && ((128 <=? n) && (n <=? 138) || byte_is e 168 || byte_is e 169
         || byte_is e 175)%nat
  || byte_is c 226 && byte_is d 129 && byte_is e 159
  || byte_is c 227 && byte_is d 128 && byte_is e 128.

(** The number of bytes of the white-space character [s] begins with, 0
    when it begins with none. *)
Definition space_width (s : string) : nat :=
  match s with
  | String c r =>
      if isspace c then 1
      else
        match r with
        | String d r' =>
            if space2 c d then 2
            else
              match r' with
              | String e _ => if space3 c d e then 3 else 0
              | EmptyString => 0
              end
        | EmptyString => 0
        end
  | EmptyString => 0
  end.

(** [s.lstrip()]: the white-space characters at the start are dropped;
    [skip] counts the bytes of the character under way that are still to
    be dropped. *)
Fixpoint lstrip_from (skip : nat) (s : string) : string :=
  match s with
  | EmptyString => EmptyString
  | String c r =>
      match skip with
      | S k => lstrip_from k r
      | O =>
          match space_width s with
          | O => s
          | S k => lstrip_from k r
          end
      end
  end.

Definition lstrip (s : string) : string := lstrip_from 0 s.

(** [s.rstrip()]: the string is cut where what is left is white space
    only. *)
Fixpoint rstrip (s : string) : string :=
  match s with
  | EmptyString => EmptyString
  | String c r =>
      match lstrip s with
      | EmptyString => EmptyString
      | _ => String c (rstrip r)
      end
  end.

(** [s.strip()] *)
Definition strip (s : string) : string := rstrip (lstrip s).

(** [sep.join(parts)] *)
Fixpoint join (sep : string) (parts : list string) : string :=
  match parts with
  | [] => EmptyString
  | [p] => p
  | p :: ps => p ++ sep ++ join sep ps
  end.

(** [s.startswith(tuple(prefixes))] *)
Definition startswith_any (prefixes : list string) (s : string) : bool :=
  existsb (fun p => String.prefix p s) prefixes.

(** [s.replace(old, EmptyString)] for a non-empty [old]: occurrences are removed
    left to right without overlap; [skip] counts the characters of the
    occurrence under way that are still to be dropped. *)
Fixpoint remove_from (old : string) (skip : nat) (s : string) : string :=
  match s with
  | EmptyString => EmptyString
  | String c r =>
      match skip with
      | S k => remove_from old k r
      | O =>
          if String.prefix old s
          then remove_from old (String.length old - 1) r
          else String c (remove_from old 0 r)
      end
  end.

Definition remove (old s : string) : string :=
  match old with
  | EmptyString => s
  | _ => remove_from old 0 s
  end.

(** Python truthiness of a string. *)
Definition nonempty (s : string) : bool :=
  match s with EmptyString => false | _ => true end.

(** [str(n)] / the f-string rendering of an [int]. *)
Definition str_of_int (n : Z) : string := NilZero.string_of_int (Z.to_int n).

Definition isdigit (c : ascii) : bool :=
  let n := nat_of_ascii c in ((48 <=? n) && (n <=? 57))%nat.

Fixpoint all_digits (s : string) : bool :=
  match s with
  | EmptyString => true
  | String c r => isdigit c && all_digits r
  end.

(** [int(s)] on a non-empty string of ASCII digits. *)
Definition int_of_digits (s : string) : option Z :=
  option_map Z.of_uint (NilEmpty.uint_of_string s).

End Py.

(** ** Module-level helpers of [bot.py] *)

Definition SKIP_TITLE_PREFIXES : list string := ["[DRAFT]"; "[TG_SYNC]"].

(** The character class built from [chars] in [escape_markdown_v2]. *)
Definition markdown_chars : string := "_*[]()~`>#+-=|{}.!".

Definition is_markdown_char (c : ascii) : bool :=
  existsb (Ascii.eqb c) (list_ascii_of_string markdown_chars).

(** [escape_markdown_v2]: every character of the class is replaced by a
    backslash followed by itself. *)
Fixpoint escape_markdown_v2 (text : string) : string :=
  match text with
  | EmptyString => EmptyString
  | String c r =>
      if is_markdown_char c
      then String Py.backslash (String c (escape_markdown_v2 r))
      else String c (escape_markdown_v2 r)
  end.

(** The class [[a-zA-Z0-9_]] of [escape_telegram_nicknames]. *)
Definition is_handle_char (c : ascii) : bool :=
  let n := nat_of_ascii c in
  ((97 <=? n) && (n <=? 122) || (65 <=? n) && (n <=? 90)
   || (48 <=? n) && (n <=? 57) || (n =? 95))%nat.

Definition is_at (c : ascii) : bool := Ascii.eqb c "@"%char.
Definition is_underscore (c : ascii) : bool := Ascii.eqb c "_"%char.

(** [re.sub] with the pattern [@([a-zA-Z0-9_]+)] as one left-to-right scan.
    [in_handle] holds while the scan stands just after an [@] or inside the
    greedy run of handle characters that follows one: those are the
    characters of group 1, and the replacement writes each underscore of
    the group as backslash-underscore.  An [@] is written unchanged
    whether or not a handle follows, and it ends any handle before it,
    since [@] is not in the class. *)
Fixpoint nicknames_scan (in_handle : bool) (text : string) : string :=
  match text with
  | EmptyString => EmptyString
  | String c r =>
      if is_at c then String c (nicknames_scan true r)
      else if in_handle && is_handle_char c then
        if is_underscore c
        then String Py.backslash (String c (nicknames_scan true r))
        else String c (nicknames_scan true r)
      else String c (nicknames_scan false r)
  end.

Definition escape_telegram_nicknames (text : string) : string :=
  nicknames_scan false text.

(** ** Notion content: rich text and blocks *)

Record Annotations := {
  bold : bool;
  italic : bool;
  strikethrough : bool;
  code : bool;
  underline : bool
}.

(** One element of a [rich_text] array. [href] is [None] for a JSON null
    or a missing key. *)
Record Segment := {
  plain_text : string;
  href : option string;
  annotations : Annotations
}.

Definition RichText := list Segment.

(** A fetched block. The children of a toggle and the rows of a table are
    fetched by a further call to the Notion API, which is [None] when that
    call raises; the rows of a table are [None] as well when a child has no
    [table_row] payload. The icon of a callout is [None] for a JSON null. *)
Inductive Block :=
| BParagraph (rich_text : RichText)
| BHeading (rich_text : RichText)
| BBulletedListItem (rich_text : RichText)
| BNumberedListItem (rich_text : RichText)
| BToggle (rich_text : RichText) (children : option (list Block))
| BQuote (rich_text : RichText)
| BCallout (icon_emoji : option string) (rich_text : RichText)
| BCode (rich_text : RichText) (language : string)
| BDivider
| BImage (url : string)
| BTable (rows : option (list (list RichText)))
| BTableRow (cells : list RichText)
| BUnsupported (type : string).

(** ** The renderer of [NotionHandler] *)

Module NotionHandler.

Definition esc (escape : bool) (text : string) : string :=
  if escape then escape_markdown_v2 text else text.

(** The body of the loop of [_parse_rich_text] for one segment. *)
Definition parse_segment (escape : bool) (segment : Segment) : string :=
  let text := plain_text segment in
  let a := annotations segment in
  let text :=
    if bold a then "*" ++ esc escape text ++ "*"
    else if italic a then "_" ++ esc escape text ++ "_"
    else if strikethrough a then "~" ++ esc escape text ++ "~"
    else if code a then "`" ++ esc escape text ++ "`"
    else if underline a then "__" ++ esc escape text ++ "__"
    else esc escape text in
  let text := if escape then escape_telegram_nicknames text else text in
  match href segment with
  | Some h => if Py.nonempty h then "[" ++ text ++ "](" ++ h ++ ")" else text
  | None => text
  end.

Definition _parse_rich_text (rich_text : RichText) (escape : bool) : string :=
  String.concat EmptyString (map (parse_segment escape) rich_text).

Definition _parse_table_row (cells : list RichText) : string :=
  Py.join " | " (map (fun cell => _parse_rich_text cell false) cells).

(** [_parse_table]: [None] when it raises. The f-string it returns has no
    placeholder, so the joined rows are computed and dropped. *)
Definition _parse_table (rows : option (list (list RichText))) : option string :=
  match rows with
  | None => None
  | Some rows =>
      let lines := map _parse_table_row rows in
      let table_text := Py.join Py.LF lines in
      Some ("``````" ++ Py.LF ++ Py.LF)
  end.

(** [parse_block]; an exception inside the [try] yields the empty string. *)
Fixpoint parse_block (block : Block) : string :=
  match block with
  | BParagraph rt => _parse_rich_text rt true ++ Py.LF ++ Py.LF
  | BHeading rt => "*" ++ _parse_rich_text rt true ++ "*" ++ Py.LF ++ Py.LF
  | BBulletedListItem rt => "\- " ++ _parse_rich_text rt true ++ Py.LF
  | BNumberedListItem rt => "1\. " ++ _parse_rich_text rt true ++ Py.LF
  | BToggle rt fetched =>
      let summary := _parse_rich_text rt true in
      match fetched with
      | None => EmptyString
      | Some children =>
          let content :=
            Py.strip (String.concat EmptyString (map parse_block children)) in
          if Py.nonempty content
          then "*" ++ summary ++ "*" ++ Py.LF ++ "||" ++ content ++ "||"
               ++ Py.LF ++ Py.LF
          else "||" ++ summary ++ "||" ++ Py.LF ++ Py.LF
      end
  | BQuote rt => "> " ++ _parse_rich_text rt true ++ Py.LF ++ Py.LF
  | BCallout icon rt =>
      match icon with
      | None => EmptyString
      | Some emoji => emoji ++ " " ++ _parse_rich_text rt true ++ Py.LF ++ Py.LF
      end
  | BCode rt language =>
      let text := _parse_rich_text rt true in
      let lang := language in
      "``````" ++ Py.LF ++ Py.LF
  | BDivider => "------" ++ Py.LF ++ Py.LF
  | BImage url => "![](" ++ url ++ ")" ++ Py.LF ++ Py.LF
  | BTable rows =>
      match _parse_table rows with
      | Some s => s
      | None => EmptyString
      end
  | BTableRow cells => _parse_table_row cells
  | BUnsupported _ => EmptyString
  end.

(** [get_page_content]: the blocks of the page are [None] when a Notion
    call of the function raises. Only non-empty fragments are kept. *)
Definition get_page_content (blocks : option (list Block)) : string :=
  match blocks with
  | None => EmptyString
  | Some blocks =>
      let lines := filter Py.nonempty (map parse_block blocks) in
      Py.strip (String.concat EmptyString lines)
  end.

End NotionHandler.

(** ** Dictionaries

    A Python [dict] with string keys, in insertion order: assigning to a
    key that is present keeps its place, a new key goes last. *)

Module Dict.
Section Dict.
Context {V : Type}.

Definition t := list (string * V).

Fixpoint get (k : string) (d : t) : option V :=
  match d with
  | [] => None
  | (k', v) :: r => if String.eqb k' k then Some v else get k r
  end.

Fixpoint set (k : string) (v : V) (d : t) : t :=
  match d with
  | [] => [(k, v)]
  | (k', v') :: r =>
      if String.eqb k' k then (k, v) :: r else (k', v') :: set k v r
  end.

Definition del (k : string) (d : t) : t :=
  filter (fun kv => negb (String.eqb (fst kv) k)) d.

Definition keys (d : t) : list string := map fst d.

End Dict.
Arguments t : clear implicits.
End Dict.

(** Membership in a Python [set] of strings. *)
Definition set_mem (k : string) (s : list string) : bool :=
  existsb (String.eqb k) s.

(** ** Data of the reconciler *)

(** The values a timestamp field takes: [None], a string, an integer
    ([True] and [False] are the integers 1 and 0). These are the values of
    [last_edited_time] of a page and of [last_edited] of an entry: the
    API gives a string or nothing. *)
Inductive PyTime :=
| TNone
| TStr (s : string)
| TInt (n : Z).

(** A [float]: not a number, an infinity, or the finite value [m * 2^e]. *)
Inductive PyFloat :=
| FNaN
| FInf (negative : bool)
| FFinite (m e : Z).

(** [bool(x)] of a float: zero is false, every other float is true. *)
Definition float_truthy (f : PyFloat) : bool :=
  match f with
  | FFinite m _ => negb (Z.eqb m 0)
  | _ => true
  end.

(** [int(x)] of a float truncates towards zero; it raises [ValueError]
    for NaN and [OverflowError] for an infinity ([None]). *)
Definition int_of_float (f : PyFloat) : option Z :=
  match f with
  | FNaN => None
  | FInf _ => None
  | FFinite m e =>
      Some (if Z.leb 0 e then m * 2 ^ e else Z.quot m (2 ^ (- e)))%Z
  end.

(** An argument of [_to_timestamp]: a value of a timestamp field, a
    float, or an object of any other type, given by its truth value and
    by what [int(date_parser.parse(dt).timestamp())] makes of it ([None]
    when that raises, as it does for an object that is neither a string
    nor a stream of characters). *)
Inductive PyValue :=
| VTime (t : PyTime)
| VFloat (f : PyFloat)
| VOther (truthy : bool) (parsed : option Z).

(** A value of [self.pinned]. [message_id] is [None] for the empty string
    the source stores when there is no message; [entry_title] is absent in
    the entries written by [sync] and [create_post]. *)
Record Entry := {
  message_id : option Z;
  last_edited : PyTime;
  entry_title : option string
}.

(** Truthiness of [tg_post_id]: the empty string and 0 are false. *)
Definition truthy_id (m : option Z) : option Z :=
  match m with
  | Some n => if Z.eqb n 0 then None else Some n
  | None => None
  end.

(** A page as [get_first_level_pages] returns it. [title_texts] holds the
    [plain_text] of the elements of the title array ([[EmptyString]] when
    the property is missing, [[]] for an untitled page); [page_blocks] is
    what [get_page_content] fetches for it. *)
Record Page := {
  page_id : string;
  title_texts : list string;
  last_edited_time : PyTime;
  page_blocks : option (list Block)
}.

(** A tuple of [sync_data]. *)
Record SyncTuple := {
  st_title : string;
  st_notion_url : string;
  st_tg_url : string;
  st_dt : PyTime
}.

(** *** The destination (Telegram) *)

Inductive TgCall :=
| send_message (text : string)
| edit_message_text (message_id : Z) (text : string)
| pin_chat_message (message_id : Z)
| unpin_chat_message (message_id : option Z)
| delete_message (message_id : option Z).

(** What a call does: it raises, or it returns; [send_message] returns the
    message, of which the code reads [message_id]. *)
Inductive TgResult :=
| Raised
| Returned (message_id : Z).

(** The log of the calls made, each with the page it was made for. *)
Record TgEvent := {
  ev_page : string;
  ev_call : TgCall;
  ev_result : TgResult
}.

(** *** The mapping store (a Notion database)

    A row of the database with the four properties the code writes. Rows
    are identified by their position, and the database holds no more rows
    than one result page of [databases.query]. *)
Record Row := {
  row_title : string;
  row_href : option string;
  row_telegram : option string;
  row_updated : PyTime;
  row_page_title : string;
  row_archived : bool
}.

(** The [properties] argument of [pages.update] and [pages.create]. *)
Record Props := {
  p_title : string;
  p_link : string;
  p_telegram : option string;
  p_updated : PyTime
}.

(** The calls of the store functions. [get_or_create_sync_database] finds
    the database under the root page (or creates it); here the database
    is the list of rows of the state, and the call can only raise or
    return. *)
Inductive StoreCall :=
| get_or_create_sync_database
| databases_query
| pages_update (row_id : nat) (props : Props)
| pages_create (props : Props)
| pages_archive (row_id : nat).

Record State := {
  pinned : Dict.t Entry;
  db : list Row;
  tg_log : list TgEvent;
  notion_log : list StoreCall
}.

Definition with_pinned (p : Dict.t Entry) (s : State) : State :=
  {| pinned := p; db := db s; tg_log := tg_log s; notion_log := notion_log s |}.

Definition with_db (d : list Row) (s : State) : State :=
  {| pinned := pinned s; db := d; tg_log := tg_log s; notion_log := notion_log s |}.

(** Effect of the write calls on the rows. *)
Definition write_row (p : Props) (archived : bool) : Row :=
  {| row_title := p_title p;
     row_href := Some (p_link p);
     row_telegram := p_telegram p;
     row_updated := p_updated p;
     row_page_title := p_title p;
     row_archived := archived |}.

Definition archive_row (r : Row) : Row :=
  {| row_title := row_title r;
     row_href := row_href r;
     row_telegram := row_telegram r;
     row_updated := row_updated r;
     row_page_title := row_page_title r;
     row_archived := true |}.

Fixpoint update_nth {A : Type} (i : nat) (f : A -> A) (l : list A) : list A :=
  match l, i with
  | [], _ => []
  | x :: r, O => f x :: r
  | x :: r, S k => x :: update_nth k f r
  end.

Definition apply_store_call (c : StoreCall) (rows : list Row) : list Row :=
  match c with
  | get_or_create_sync_database => rows
  | databases_query => rows
  | pages_update i p => update_nth i (fun r => write_row p (row_archived r)) rows
  | pages_create p => rows ++ [write_row p false]
  | pages_archive i => update_nth i archive_row rows
  end.

(** The rows [databases.query] returns: those not archived, with their
    identifiers. *)
Fixpoint active_from (i : nat) (rows : list Row) : list (nat * Row) :=
  match rows with
  | [] => []
  | r :: rest =>
      if row_archived r then active_from (S i) rest
      else (i, r) :: active_from (S i) rest
  end.

Definition query_results (rows : list Row) : list (nat * Row) :=
  active_from 0 rows.

(** ** Regular expressions of the store code *)

Definition is_hex (c : ascii) : bool :=
  let n := nat_of_ascii c in
  ((48 <=? n) && (n <=? 57) || (97 <=? n) && (n <=? 102))%nat.

(** [[0-9a-f]{n}] matched at the start of [s]. *)
Fixpoint hex_run (n : nat) (s : string) : option string :=
  match n with
  | O => Some EmptyString
  | S k =>
      match s with
      | EmptyString => None
      | String c r =>
          if is_hex c then option_map (String c) (hex_run k r) else None
      end
  end.

(** [re.search] with [([0-9a-f]{32})]: group 1 of the leftmost match. *)
Fixpoint search_hex32 (s : string) : option string :=
  match hex_run 32 s with
  | Some m => Some m
  | None =>
      match s with
      | EmptyString => None
      | String _ r => search_hex32 r
      end
  end.

(** [\d+$] matched at the start of [s]: digits up to the end of the
    string, or up to a newline that ends it. *)
Fixpoint digits_to_end (s : string) : option string :=
  match s with
  | EmptyString => None
  | String c r =>
      if Py.isdigit c then
        if orb (String.eqb r EmptyString) (String.eqb r Py.LF)
        then Some (String c EmptyString)
        else option_map (String c) (digits_to_end r)
      else None
  end.

(** [re.search] with [/(\d+)$]: group 1 of the leftmost match. *)
Fixpoint search_message_id (s : string) : option string :=
  match s with
  | EmptyString => None
  | String c r =>
      if Ascii.eqb c "/"%char then
        match digits_to_end r with
        | Some d => Some d
        | None => search_message_id r
        end
      else search_message_id r
  end.

(** The page identifier both store functions read off a row: group 1 of
    the search in the link of the title, when there is a link. [None]
    stands for the empty [page_id], for which the row is passed over. *)
Definition row_key (r : Row) : option string :=
  match row_href r with
  | Some link => if Py.nonempty link then search_hex32 link else None
  | None => None
  end.

(** The page identifier of a tuple in [update_sync_database]: group 1, or
    the empty string. *)
Definition data_key (notion_url : string) : string :=
  match search_hex32 notion_url with
  | Some m => m
  | None => EmptyString
  end.

(** ** The store functions and the reconciler

    The environment of one run: the chat, the date parser of [dateutil]
    ([None] when it raises), and the two services. *)

Section Reconciler.

Variable TELEGRAM_CHAT_ID : string.
Variable date_parse : string -> option Z.
Variable bot : list TgEvent -> TgCall -> TgResult.
Variable notion : list StoreCall -> StoreCall -> bool.

(** *** Calls *)

(** An awaited call of a method of [self.bot], made for [page]. *)
Definition tg_call (page : string) (c : TgCall) (s : State) : TgResult * State :=
  let r := bot (tg_log s) c in
  (r, {| pinned := pinned s;
         db := db s;
         tg_log := tg_log s ++ [{| ev_page := page; ev_call := c; ev_result := r |}];
         notion_log := notion_log s |}).

(** Code that may raise while it threads the state: [None] is the
    exception, which the callers of the store functions do not catch. *)
Definition M (A : Type) : Type := State -> option A * State.

Definition ret {A : Type} (a : A) : M A := fun s => (Some a, s).

Definition bind {A B : Type} (m : M A) (f : A -> M B) : M B :=
  fun s =>
    match m s with
    | (Some a, s') => f a s'
    | (None, s') => (None, s')
    end.

Notation "x <- m ;; k" := (bind m (fun x => k))
  (at level 61, m at next level, right associativity).

(** A call of the Notion client on the database. *)
Definition store_call (c : StoreCall) : M unit :=
  fun s =>
    let ok := notion (notion_log s) c in
    ((if ok then Some tt else None),
     {| pinned := pinned s;
        db := if ok then apply_store_call c (db s) else db s;
        tg_log := tg_log s;
        notion_log := notion_log s ++ [c] |}).

Definition read_rows : M (list (nat * Row)) :=
  fun s => (Some (query_results (db s)), s).

(** *** [NotionHandler.update_sync_database] *)

(** The dictionary [existing_rows]: page identifier to row identifier and
    title. *)
Definition existing_rows (results : list (nat * Row)) : Dict.t (nat * string) :=
  fold_left
    (fun d ir =>
       match row_key (snd ir) with
       | Some k => Dict.set k (fst ir, row_title (snd ir)) d
       | None => d
       end)
    results [].

Definition props_of (t : SyncTuple) : Props :=
  {| p_title := st_title t;
     p_link := st_notion_url t;
     p_telegram := if Py.nonempty (st_tg_url t) then Some (st_tg_url t) else None;
     p_updated := st_dt t |}.

(** The loop over [sync_data]; it returns [page_ids_in_data]. *)
Fixpoint upsert_rows (existing : Dict.t (nat * string)) (data : list SyncTuple)
    (page_ids_in_data : list string) : M (list string) :=
  match data with
  | [] => ret page_ids_in_data
  | t :: rest =>
      let page_id := data_key (st_notion_url t) in
      let c :=
        match Dict.get page_id existing with
        | Some row_info => pages_update (fst row_info) (props_of t)
        | None => pages_create (props_of t)
        end in
      _ <- store_call c ;;
      upsert_rows existing rest (page_id :: page_ids_in_data)
  end.

(** The loop over [existing_rows.items()]. *)
Fixpoint archive_rows (page_ids_in_data : list string)
    (items : list (string * (nat * string))) : M unit :=
  match items with
  | [] => ret tt
  | (page_id, row_info) :: rest =>
      if set_mem page_id page_ids_in_data then
        archive_rows page_ids_in_data rest
      else
        _ <- store_call (pages_archive (fst row_info)) ;;
        archive_rows page_ids_in_data rest
  end.

Definition update_sync_database (sync_data : list SyncTuple) : M unit :=
  match sync_data with
  | [] => ret tt
  | _ =>
      _ <- store_call get_or_create_sync_database ;;
      _ <- store_call databases_query ;;
      results <- read_rows ;;
      let existing := existing_rows results in
      page_ids_in_data <- upsert_rows existing sync_data [] ;;
      archive_rows page_ids_in_data existing
  end.

(** *** [NotionHandler.get_sync_db_mapping] *)

Definition message_id_of_url (tg_url : option string) : option Z :=
  match tg_url with
  | Some u =>
      if Py.nonempty u then
        match search_message_id u with
        | Some digits => Py.int_of_digits digits
        | None => None
        end
      else None
  | None => None
  end.

Definition entry_of_row (r : Row) : Entry :=
  {| message_id := message_id_of_url (row_telegram r);
     last_edited := row_updated r;
     entry_title := Some (row_title r) |}.

Definition mapping_of (results : list (nat * Row)) : Dict.t Entry :=
  fold_left
    (fun d ir =>
       match row_key (snd ir) with
       | Some k => Dict.set k (entry_of_row (snd ir)) d
       | None => d
       end)
    results [].

Definition get_sync_db_mapping : M (Dict.t Entry) :=
  _ <- store_call get_or_create_sync_database ;;
  _ <- store_call databases_query ;;
  results <- read_rows ;;
  ret (mapping_of results).

(** *** [TelegramBot] *)

Definition _normalize_page_id (page_id : string) : string :=
  Py.remove "-" page_id.

(** [_to_timestamp]; [None] when it raises. The test [not dt] comes
    first; [int(dt)] of an integer or a float stands outside the [try],
    so what it raises leaves the function; whatever the parser or
    [timestamp()] raises is caught and gives 0. *)
Definition _to_timestamp (dt : PyValue) : option Z :=
  match dt with
  | VTime TNone => Some 0%Z
  | VTime (TStr s) =>
      if Py.nonempty s then
        match date_parse s with
        | Some ts => Some ts
        | None => Some 0%Z
        end
      else Some 0%Z
  | VTime (TInt n) => Some n
  | VFloat f => if float_truthy f then int_of_float f else Some 0%Z
  | VOther truthy parsed =>
      if truthy then
        match parsed with
        | Some ts => Some ts
        | None => Some 0%Z
        end
      else Some 0%Z
  end.

(** [self.pinned.get(page_id, {}).get(key, ...)] for the two keys read. *)
Definition pinned_message_id (page_id : string) (s : State) : option Z :=
  match Dict.get page_id (pinned s) with
  | Some e => message_id e
  | None => None
  end.

Definition pinned_last_edited (page_id : string) (s : State) : PyTime :=
  match Dict.get page_id (pinned s) with
  | Some e => last_edited e
  | None => TNone
  end.

(** The f-string of [tg_url], guarded by the truth of [tg_post_id]. *)
Definition tg_url_of (tg_post_id : option Z) : string :=
  match truthy_id tg_post_id with
  | Some n =>
      "https://t.me/c/" ++ Py.remove "-100" TELEGRAM_CHAT_ID ++ "/"
      ++ Py.str_of_int n
  | None => EmptyString
  end.

Definition notion_url_of (page_id : string) : string :=
  "https://www.notion.so/" ++ page_id.

(** [create_post]: every exception is caught inside; writing the error
    file of [_log_message_context] is taken to succeed. *)
Definition create_post (page_id text : string) (last_edited : PyTime)
    (s : State) : State :=
  match tg_call page_id (send_message text) s with
  | (Raised, s1) => s1
  | (Returned msg_id, s1) =>
      match tg_call page_id (pin_chat_message msg_id) s1 with
      | (Raised, s2) => s2
      | (Returned _, s2) =>
          with_pinned
            (Dict.set page_id
               {| message_id := Some msg_id;
                  last_edited := last_edited;
                  entry_title := None |}
               (pinned s2))
            s2
      end
  end.

Definition message_of (title content : string) : string :=
  if Py.nonempty content
  then "*" ++ escape_markdown_v2 title ++ "*" ++ Py.LF ++ Py.LF ++ content
  else "*" ++ escape_markdown_v2 title ++ "*".

(** The branch [if need_update] of [sync], up to the new [tg_post_id]. *)
Definition push_page (page_id message : string) (last_edited : PyTime)
    (s : State) : State :=
  match truthy_id (pinned_message_id page_id s) with
  | Some tg_post_id =>
      match tg_call page_id (edit_message_text tg_post_id message) s with
      | (Raised, s1) => create_post page_id message last_edited s1
      | (Returned _, s1) =>
          match tg_call page_id (pin_chat_message tg_post_id) s1 with
          | (Raised, s2) => create_post page_id message last_edited s2
          | (Returned _, s2) =>
              with_pinned
                (Dict.set page_id
                   {| message_id := Some tg_post_id;
                      last_edited := last_edited;
                      entry_title := None |}
                   (pinned s2))
                s2
          end
      end
  | None => create_post page_id message last_edited s
  end.

(** The state of the loop of [sync]. *)
Definition Loop : Type := State * list string * list SyncTuple.

(** One iteration of the loop over [pages]. An untitled page raises at the
    subscript [[0]] and is logged by the handler of the iteration, and so
    is what [_to_timestamp] raises. *)
Definition sync_page (acc : Loop) (page : Page) : Loop :=
  let '(s, current_page_ids, sync_data) := acc in
  let pid := _normalize_page_id (page_id page) in
  let current_page_ids := (current_page_ids ++ [pid])%list in
  match title_texts page with
  | [] => (s, current_page_ids, sync_data)
  | title :: _ =>
      if Py.startswith_any SKIP_TITLE_PREFIXES (Py.strip title) then
        (s, current_page_ids, sync_data)
      else
        let last_edited := last_edited_time page in
        let tg_post_id := pinned_message_id pid s in
        let tg_url := tg_url_of tg_post_id in
        let prev_last_edited := pinned_last_edited pid s in
        match _to_timestamp (VTime last_edited),
              _to_timestamp (VTime prev_last_edited) with
        | Some last_edited_ts, Some prev_last_edited_ts =>
            let need_update := negb (Z.eqb last_edited_ts prev_last_edited_ts) in
            if need_update then
              let content := NotionHandler.get_page_content (page_blocks page) in
              let message := message_of title content in
              let s' := push_page pid message last_edited s in
              let tg_url := tg_url_of (pinned_message_id pid s') in
              (s', current_page_ids,
               (sync_data ++ [{| st_title := title;
                                 st_notion_url := notion_url_of pid;
                                 st_tg_url := tg_url;
                                 st_dt := last_edited |}])%list)
            else
              (s, current_page_ids,
               (sync_data ++ [{| st_title := title;
                                 st_notion_url := notion_url_of pid;
                                 st_tg_url := tg_url;
                                 st_dt := last_edited |}])%list)
        | _, _ => (s, current_page_ids, sync_data)
        end
  end.

(** One iteration of the loop of [cleanup_posts]. [cleanup_posts] is a
    plain [def], and it writes [self.bot.unpin_chat_message(...)] and
    [self.bot.delete_message(...)] without [await] (lines 411 and 418):
    each of the two expressions builds a coroutine object that is never
    run. Nothing is sent to the destination, nothing can raise and neither
    handler can fire; what the iteration does is [del self.pinned[page_id]].
    A key the loop no longer finds raises [KeyError] at line 409, caught
    by the outer handler. *)
Definition cleanup_one (current_ids : list string) (s : State)
    (page_id : string) : State :=
  if set_mem page_id current_ids then s
  else
    match Dict.get page_id (pinned s) with
    | None => s
    | Some _ => with_pinned (Dict.del page_id (pinned s)) s
    end.

Definition cleanup_posts (current_ids : list string) (s : State) : State :=
  fold_left (cleanup_one current_ids) (Dict.keys (pinned s)) s.

(** The loop of [sync] over the pages [get_first_level_pages] returned. *)
Definition sync_loop (pages : list Page) (s : State) : Loop :=
  fold_left sync_page pages (s, [], []).

(** What follows the cleanup: persist and reload when there is data. An
    exception of either store function reaches the handler of the pass,
    and [self.pinned] keeps its value. *)
Definition persist (sync_data : list SyncTuple) (s : State) : State :=
  match sync_data with
  | [] => s
  | _ =>
      match update_sync_database sync_data s with
      | (None, s1) => s1
      | (Some _, s1) =>
          match get_sync_db_mapping s1 with
          | (None, s2) => s2
          | (Some mapping, s2) => with_pinned mapping s2
          end
      end
  end.

(** One pass: [TelegramBot.sync]. *)
Definition sync (pages : list Page) (s : State) : State :=
  let '(s1, current_page_ids, sync_data) := sync_loop pages s in
  persist sync_data (cleanup_posts current_page_ids s1).

End Reconciler.

(** ** Style precedence, as the specification words it

    The styles in the order bold, italic, strikethrough, code, underline;
    a run takes the first style of the list whose flag is set. *)

Inductive Style := Bold | Italic | Strikethrough | CodeSpan | Underline.

Definition style_flag (st : Style) (a : Annotations) : bool :=
  match st with
  | Bold => bold a
  | Italic => italic a
  | Strikethrough => strikethrough a
  | CodeSpan => code a
  | Underline => underline a
  end.

Definition style_precedence : list Style :=
  [Bold; Italic; Strikethrough; CodeSpan; Underline].

Definition chosen_style (a : Annotations) : option Style :=
  find (fun st => style_flag st a) style_precedence.

Definition style_marker (st : option Style) : string :=
  match st with
  | Some Bold => "*"
  | Some Italic => "_"
  | Some Strikethrough => "~"
  | Some CodeSpan => "`"
  | Some Underline => "__"
  | None => EmptyString
  end.

(** The link construct around a rendered run. *)
Definition with_link (h : option string) (text : string) : string :=
  match h with
  | Some target =>
      if Py.nonempty target then "[" ++ text ++ "](" ++ target ++ ")" else text
  | None => text
  end.

(** ** The effect of the store functions on the rows

    What [update_sync_database] does to the rows when no call raises: the
    call of each tuple, then the archive calls. *)

Definition tuple_key (t : SyncTuple) : string := data_key (st_notion_url t).

Definition call_for (existing : Dict.t (nat * string)) (t : SyncTuple) : StoreCall :=
  match Dict.get (tuple_key t) existing with
  | Some row_info => pages_update (fst row_info) (props_of t)
  | None => pages_create (props_of t)
  end.

Definition upsert_db (existing : Dict.t (nat * string)) (data : list SyncTuple)
    (rows : list Row) : list Row :=
  fold_left (fun d t => apply_store_call (call_for existing t) d) data rows.

Definition archive_targets (page_ids_in_data : list string)
    (items : list (string * (nat * string))) : list nat :=
  map (fun it => fst (snd it))
    (filter (fun it => negb (set_mem (fst it) page_ids_in_data)) items).

Definition archive_db (page_ids_in_data : list string)
    (items : list (string * (nat * string))) (rows : list Row) : list Row :=
  fold_left (fun d i => update_nth i archive_row d)
    (archive_targets page_ids_in_data items) rows.

Definition data_keys (data : list SyncTuple) : list string :=
  rev (map tuple_key data).

Definition updated_db (data : list SyncTuple) (rows : list Row) : list Row :=
  let existing := existing_rows (query_results rows) in
  archive_db (data_keys data) existing (upsert_db existing data rows).

(** The calls [update_sync_database] makes when none raises. *)
Definition update_calls (data : list SyncTuple) (rows : list Row) : list StoreCall :=
  let existing := existing_rows (query_results rows) in
  ([get_or_create_sync_database; databases_query]
   ++ map (call_for existing) data
   ++ map pages_archive (archive_targets (data_keys data) existing))%list.

(** A row holds what a tuple says. *)
Definition row_matches (t : SyncTuple) (r : Row) : Prop :=
  row_telegram r = p_telegram (props_of t)
  /\ row_updated r = st_dt t
  /\ row_title r = st_title t.

(** One step of the loops that index the rows of a query by page
    identifier: [existing_rows] and [mapping_of] are this fold, each with
    its own value [g]. *)
Definition index_step {V : Type} (g : nat * Row -> V) (d : Dict.t V)
    (ir : nat * Row) : Dict.t V :=
  match row_key (snd ir) with
  | Some k => Dict.set k (g ir) d
  | None => d
  end.

(** The destination log and [self.pinned] are out of reach of the store
    functions. *)
Definition same_bot (s s' : State) : Prop :=
  pinned s' = pinned s /\ tg_log s' = tg_log s.

(** What the calls of the tuples keep of the rows [rows0] they started
    from, [done] being the tuples gone through: the rows of [rows0] keep
    their page identifier and their archived flag, and a row that was not
    in [rows0] is not archived and has the identifier of a tuple gone
    through. *)
Definition upsert_inv (rows0 : list Row) (done : list SyncTuple)
    (rows : list Row) : Prop :=
  (forall i r0, nth_error rows0 i = Some r0 ->
     exists r, nth_error rows i = Some r
               /\ row_key r = row_key r0
               /\ row_archived r = row_archived r0)
  /\ (forall i r, nth_error rows i = Some r -> nth_error rows0 i = None ->
        row_archived r = false
        /\ forall k, row_key r = Some k -> In k (map tuple_key done)).

(** ** Reading the logs of a pass *)

(** The events made for one page. *)
Definition events_for (page : string) (evs : list TgEvent) : list TgEvent :=
  filter (fun e => String.eqb (ev_page e) page) evs.





(** [touches P s s']: from [s] to [s'] only events of pages in [P] were
    logged and only the entries of pages in [P] changed; the store is as
    it was. *)
Definition touches (P : string -> Prop) (s s' : State) : Prop :=
  db s' = db s
  /\ notion_log s' = notion_log s
  /\ (exists evs, tg_log s' = (tg_log s ++ evs)%list
                  /\ Forall (fun e => P (ev_page e)) evs)
  /\ (forall k, ~ P k -> Dict.get k (pinned s') = Dict.get k (pinned s)).

(** The calls that post or pin a message, against those of the cleanup. *)
Definition posting (e : TgEvent) : bool :=
  match ev_call e with
  | send_message _ | edit_message_text _ _ | pin_chat_message _ => true
  | unpin_chat_message _ | delete_message _ => false
  end.

(** From [s] to [s'] the destination log grew by events that satisfy [Q]. *)
Definition logs_only (Q : TgEvent -> Prop) (s s' : State) : Prop :=
  exists evs, tg_log s' = (tg_log s ++ evs)%list /\ Forall Q evs.

(** ** Conditions on the inputs *)

(** A normalized Notion identifier: 32 lowercase hexadecimal digits. *)
Definition hex32 (s : string) : Prop := hex_run 32 s = Some s.

(** The iteration of [sync] for a page stops before the comparison: the
    page has no title element, or its title has an exclusion prefix. *)
Definition skipped (page : Page) : bool :=
  match title_texts page with
  | [] => true
  | title :: _ => Py.startswith_any SKIP_TITLE_PREFIXES (Py.strip title)
  end.

(** At most one row that is not archived for a page identifier. *)
Definition unique_keys (rows : list Row) : Prop :=
  forall (i j : nat) (ri rj : Row) (k : string),
    nth_error rows i = Some ri -> nth_error rows j = Some rj ->
    row_archived ri = false -> row_archived rj = false ->
    row_key ri = Some k -> row_key rj = Some k -> i = j.

(** The tuple the loop of [sync] appends for a page it does not skip,
    up to the destination reference. *)
Definition tuple_for (page : Page) (t : SyncTuple) : Prop :=
  st_notion_url t = notion_url_of (_normalize_page_id (page_id page))
  /\ st_dt t = last_edited_time page
  /\ exists rest, title_texts page = st_title t :: rest.

(** The page identifiers of a listing, normalized. *)
Definition listed_ids (pages : list Page) : list string :=
  map (fun q => _normalize_page_id (page_id q)) pages.

(** The iteration for [q] has nothing to push: [q] is skipped, or its
    timestamp and the stored one are the same number. *)
Definition unchanged_page (date_parse : string -> option Z) (s : State)
    (q : Page) : Prop :=
  skipped q = true
  \/ _to_timestamp date_parse (VTime (last_edited_time q))
     = _to_timestamp date_parse
         (VTime (pinned_last_edited (_normalize_page_id (page_id q)) s)).

(** With tuples of distinct, non-empty page identifiers: every tuple gone
    through has a live row that holds what it says, and the rows keep one
    live row per page. *)
Definition upsert_inv2 (done : list SyncTuple) (rows : list Row) : Prop :=
  (forall t, In t done ->
     exists i r, nth_error rows i = Some r /\ row_archived r = false
                 /\ row_key r = Some (tuple_key t) /\ row_matches t r)
  /\ unique_keys rows.

(** ** Sample inputs *)


Definition bold_italic_run : Segment :=
  {| plain_text := "a_b";
     href := None;
     annotations :=
       {| bold := true; italic := true; strikethrough := false;
          code := false; underline := false |} |}.

Definition plain_run (text : string) : Segment :=
  {| plain_text := text;
     href := None;
     annotations :=
       {| bold := false; italic := false; strikethrough := false;
          code := false; underline := false |} |}.

(** The page of the scenario: titled Hello, one paragraph World. *)
Definition hello_page (id : string) (edited : PyTime) : Page :=
  {| page_id := id;
     title_texts := ["Hello"];
     last_edited_time := edited;
     page_blocks := Some [BParagraph [plain_run "World"]] |}.

Definition hello_message : string := "*Hello*" ++ Py.LF ++ Py.LF ++ "World".

(** The runs of the bot below: the chat, a parser that knows two dates,
    a store that answers every call, and the destinations of the runs. *)
Definition sample_chat : string := "-1001234".

Definition sample_parse (s : string) : option Z :=
  if String.eqb s "2024-05-01T10:00:00.000Z" then Some 1714557600%Z
  else if String.eqb s "2024-05-02T10:00:00.000Z" then Some 1714644000%Z
  else None.

Definition store_up (h : list StoreCall) (c : StoreCall) : bool := true.

(** The destination refuses every call. *)
Definition bot_down (h : list TgEvent) (c : TgCall) : TgResult := Raised.

(** The destination refuses the first call it gets and takes every call
    after it. *)
Definition bot_down_then_up (h : list TgEvent) (c : TgCall) : TgResult :=
  match h with
  | [] => Raised
  | _ => Returned 10
  end.

(** The destination takes every call; a message gets the next number. *)
Definition bot_up (h : list TgEvent) (c : TgCall) : TgResult :=
  Returned (Z.of_nat (10 + List.length h)).

Definition id_a : string := "0123456789abcdef0123456789abcdef".
Definition id_b : string := "aaaaaaaaaaaaaaaaaaaaaaaaaaaaaaaa".

Definition first_edit : PyTime := TStr "2024-05-01T10:00:00.000Z".
Definition second_edit : PyTime := TStr "2024-05-02T10:00:00.000Z".

Definition empty_state : State :=
  {| pinned := []; db := []; tg_log := []; notion_log := [] |}.

(** Page A as Notion lists it, with the hyphens of its identifier. *)
Definition page_a (edited : PyTime) : Page :=
  hello_page "01234567-89ab-cdef-0123-456789abcdef" edited.

Definition page_b (title : string) : Page :=
  {| page_id := id_b;
     title_texts := [title];
     last_edited_time := first_edit;
     page_blocks := Some [] |}.

(** Pages A and B synced at [first_edit] as messages 7 and 8, the store
    holding their two rows. *)
Definition row_of (title id : string) (message : Z) : Row :=
  {| row_title := title;
     row_href := Some (notion_url_of id);
     row_telegram := Some (tg_url_of sample_chat (Some message));
     row_updated := first_edit;
     row_page_title := title;
     row_archived := false |}.

Definition synced_state : State :=
  {| pinned :=
       [ (id_a, {| message_id := Some 7%Z; last_edited := first_edit;
                   entry_title := Some "Hello" |});
         (id_b, {| message_id := Some 8%Z; last_edited := first_edit;
                   entry_title := Some "Bee" |}) ];
     db := [row_of "Hello" id_a 7; row_of "Bee" id_b 8];
     tg_log := [];
     notion_log := [] |}.

(** The destination refuses every edit and takes every other call. *)
Definition bot_edit_fails (h : list TgEvent) (c : TgCall) : TgResult :=
  match c with
  | edit_message_text _ _ => Raised
  | _ => Returned 42
  end.

(** A page whose timestamp the parser rejects. *)
Definition undated_page : Page :=
  {| page_id := id_b;
     title_texts := ["Bee"];
     last_edited_time := TStr "soon";
     page_blocks := Some [] |}.

(** ** Classes of characters of the renderer *)

(** A character of a handle other than the underscore. *)
Definition is_alnum (c : ascii) : bool :=
  is_handle_char c && negb (is_underscore c).

(** ** More readings of the logs *)

Definition is_send (e : TgEvent) : bool :=
  match ev_call e with send_message _ => true | _ => false end.

(** ** [extract_notion_page_id] *)

(** The class [[0-9a-f]] under [re.I]. *)
Definition is_hex_i (c : ascii) : bool :=
  let n := nat_of_ascii c in
  (is_hex c || (65 <=? n) && (n <=? 70))%nat.

(** [cls{n}] matched at the start of [s]: the match and what follows it. *)
Fixpoint class_run (cls : ascii -> bool) (n : nat) (s : string)
    : option (string * string) :=
  match n with
  | O => Some (EmptyString, s)
  | S k =>
      match s with
      | EmptyString => None
      | String c r =>
          if cls c then
            match class_run cls k r with
            | Some (m, rest) => Some (String c m, rest)
            | None => None
            end
          else None
      end
  end.

(** Runs of the class of the lengths [lens], a hyphen between two runs,
    matched at the start of [s]. *)
Fixpoint hyphenated (cls : ascii -> bool) (lens : list nat) (s : string)
    : option string :=
  match lens with
  | [] => Some EmptyString
  | [n] => option_map fst (class_run cls n s)
  | n :: more =>
      match class_run cls n s with
      | Some (m, String c r) =>
          if Ascii.eqb c "-"%char
          then option_map (fun m' => m ++ String c m') (hyphenated cls more r)
          else None
      | _ => None
      end
  end.

(** The pattern of [extract_notion_page_id] matched at the start of [s]:
    the first alternative, then the second. *)
Definition page_id_at (s : string) : option string :=
  match class_run is_hex_i 32 s with
  | Some (m, _) => Some m
  | None => hyphenated is_hex_i [8; 4; 4; 4; 12]%nat s
  end.

(** [re.search]: group 1 of the leftmost match. *)
Fixpoint search_page_id (s : string) : option string :=
  match page_id_at s with
  | Some m => Some m
  | None =>
      match s with
      | EmptyString => None
      | String _ r => search_page_id r
      end
  end.

Definition extract_notion_page_id (url : string) : string :=
  match search_page_id url with
  | Some m => Py.remove "-" m
  | None => EmptyString
  end.

(** Every character of [s] is in the class. *)
Definition all_chars (cls : ascii -> bool) (s : string) : bool :=
  forallb cls (list_ascii_of_string s).

(** An identifier as the Notion API writes it: lowercase hexadecimal
    digits in groups of 8, 4, 4, 4 and 12 with hyphens between. *)
Definition uuid_shaped (u : string) : Prop :=
  hyphenated is_hex [8; 4; 4; 4; 12]%nat u = Some u.

(** ** Listing the pages: [NotionHandler.get_first_level_pages] *)

(** A block under the root page, of which the function reads the type and
    the identifier. *)
Record Child := {
  child_id : string;
  child_type : string
}.

(** One answer of [blocks.children.list]: the results and [next_cursor]. *)
Definition Listing : Type := list Child * option string.

(** Truthiness of [cursor]: [None] and the empty string end the loop. *)
Definition truthy_cursor (c : option string) : option string :=
  match c with
  | Some x => if Py.nonempty x then Some x else None
  | None => None
  end.

(** What a loop bounded by a number of iterations has done: it returned,
    it raised, or it is still running. *)
Inductive Outcome (A : Type) :=
| Returns (a : A)
| Raises
| Running.
Arguments Returns {A} a.
Arguments Raises {A}.
Arguments Running {A}.

Section ListingCalls.

(** The two calls of the Notion client, each answered from the history of
    the calls of its kind made so far; [None] when the call raises. *)
Variable children_list : list (option string) -> option string -> option Listing.
Variable pages_retrieve : list string -> string -> option Page.

(** The [while True] loop, [fuel] bounding its iterations; [asked] holds
    the cursors of the calls made. *)
Fixpoint fetch_children (fuel : nat) (asked : list (option string))
    (cursor : option string) (all_children : list Child)
    : Outcome (list Child) :=
  match fuel with
  | O => Running
  | S k =>
      match children_list asked cursor with
      | None => Raises
      | Some (results, next_cursor) =>
          let all_children := (all_children ++ results)%list in
          match truthy_cursor next_cursor with
          | Some c => fetch_children k (asked ++ [cursor])%list (Some c) all_children
          | None => Returns all_children
          end
      end
  end.

Definition is_child_page (b : Child) : bool :=
  String.eqb (child_type b) "child_page".

(** The list comprehension: one [pages.retrieve] for each child page, in
    order; [None] when one of them raises. *)
Fixpoint retrieve_pages (retrieved : list string) (children : list Child)
    : option (list Page) :=
  match children with
  | [] => Some []
  | b :: rest =>
      if is_child_page b then
        match pages_retrieve retrieved (child_id b) with
        | Some p =>
            option_map (cons p)
              (retrieve_pages (retrieved ++ [child_id b])%list rest)
        | None => None
        end
      else retrieve_pages retrieved rest
  end.

(** [get_first_level_pages]: both handlers return the empty list. [None]
    when the loop has not ended within [fuel] iterations. *)
Definition get_first_level_pages (fuel : nat) : option (list Page) :=
  match fetch_children fuel [] None [] with
  | Running => None
  | Raises => Some []
  | Returns all_children =>
      match retrieve_pages [] all_children with
      | Some pages => Some pages
      | None => Some []
      end
  end.

(** The answers of [blocks.children.list] along the cursors: [chain] holds
    the answers of the successive calls, each but the last with a cursor
    that is followed, the last with none. *)
Fixpoint answers_chain (asked : list (option string)) (cursor : option string)
    (chain : list Listing) : Prop :=
  match chain with
  | [] => False
  | answer :: rest =>
      children_list asked cursor = Some answer
      /\ match rest with
         | [] => truthy_cursor (snd answer) = None
         | _ =>
             exists c, truthy_cursor (snd answer) = Some c
                       /\ answers_chain (asked ++ [cursor])%list (Some c) rest
         end
  end.

End ListingCalls.

(** [TelegramBot.sync] from its first line: the pass over the pages
    [get_first_level_pages] returns. *)
Definition sync_listed
    (children_list : list (option string) -> option string -> option Listing)
    (pages_retrieve : list string -> string -> option Page)
    (TELEGRAM_CHAT_ID : string) (date_parse : string -> option Z)
    (bot : list TgEvent -> TgCall -> TgResult)
    (notion : list StoreCall -> StoreCall -> bool)
    (fuel : nat) (s : State) : option State :=
  option_map (fun pages => sync TELEGRAM_CHAT_ID date_parse bot notion pages s)
    (get_first_level_pages children_list pages_retrieve fuel).

(** ** The error context: [TelegramBot._get_error_context] *)

Module ErrorContext.

(** An index of a slice, as Python clips it to the length [len]. *)
Definition clip (len i : Z) : Z :=
  if (i <? 0)%Z then Z.max 0 (i + len) else Z.min i len.

(** [b[start:stop]] *)
Definition slice (b : string) (start stop : Z) : string :=
  let len := Z.of_nat (String.length b) in
  let i := clip len start in
  let j := clip len stop in
  substring (Z.to_nat i) (Z.to_nat (j - i)) b.

(** [c * n] for a character: empty when [n] is not positive. *)
Definition repeat_char (c : ascii) (n : Z) : string :=
  string_of_list_ascii (repeat c (Z.to_nat n)).

(** The UTF-8 encoding of the marker character U+25BC. *)
Definition arrow : string :=
  string_of_list_ascii [ascii_of_nat 226; ascii_of_nat 150; ascii_of_nat 188].

Definition context_start (error_pos : Z) : Z := Z.max 0 (error_pos - 50).

Definition context_end (encoded : string) (error_pos : Z) : Z :=
  Z.min (Z.of_nat (String.length encoded)) (error_pos + 50).

Definition snippet_bytes (encoded : string) (error_pos : Z) : string :=
  slice encoded (context_start error_pos) (context_end encoded error_pos).

Definition marker (error_pos : Z) : string :=
  repeat_char " "%char (error_pos - context_start error_pos) ++ arrow.

Section Decode.

(** [bytes.decode] with [errors] set to replace, on the bytes of the
    snippet. *)
Variable decode : string -> string.

(** [_get_error_context]; strings are their UTF-8 bytes, so [encoded] is
    [text]. *)
Definition _get_error_context (text : string) (error_pos : Z) : string :=
  let encoded := text in
  "Error position: " ++ Py.str_of_int error_pos
  ++ " (total bytes: " ++ Py.str_of_int (Z.of_nat (String.length encoded)) ++ ")"
  ++ Py.LF ++ "Context:" ++ Py.LF ++ decode (snippet_bytes encoded error_pos)
  ++ Py.LF ++ marker error_pos.

End Decode.

End ErrorContext.

(** ** More sample inputs *)

(** An italic run that ends with a handle. *)
Definition italic_handle_run : Segment :=
  {| plain_text := "ask @bob";
     href := None;
     annotations :=
       {| bold := false; italic := true; strikethrough := false;
          code := false; underline := false |} |}.

(** A bold run that ends with a backslash. *)
Definition bold_backslash_run : Segment :=
  {| plain_text := String "a" (String Py.backslash EmptyString);
     href := None;
     annotations :=
       {| bold := true; italic := false; strikethrough := false;
          code := false; underline := false |} |}.


(** The destination takes every edit and refuses every pin of message 7. *)
Definition bot_pin_fails (h : list TgEvent) (c : TgCall) : TgResult :=
  match c with
  | pin_chat_message 7 => Raised
  | _ => Returned 42
  end.

(** A root page of three blocks listed in two answers, and the retrieval
    of its pages. *)
Definition two_answers (asked : list (option string)) (cursor : option string)
    : option Listing :=
  match cursor with
  | None =>
      Some ([ {| child_id := "01234567-89ab-cdef-0123-456789abcdef";
                 child_type := "child_page" |};
              {| child_id := "d"; child_type := "child_database" |} ],
            Some "next")
  | Some _ => Some ([ {| child_id := id_b; child_type := "child_page" |} ], None)
  end.

Definition retrieve_up (retrieved : list string) (id : string) : option Page :=
  if String.eqb id id_b then Some (page_b "Bee") else Some (page_a first_edit).

(** The listing raises at its first call. *)
Definition listing_down (asked : list (option string)) (cursor : option string)
    : option Listing := None.

(** The store refuses every call. *)
Definition store_down (h : list StoreCall) (c : StoreCall) : bool := false.

(** * Properties *)

(** Unfolding the functions of the reconciler by name, for the proofs inside
    sections that abbreviate them. *)
Ltac unfold_cleanup_one := unfold cleanup_one.
Ltac unfold_cleanup_one_in H := unfold cleanup_one in H.
Ltac unfold_get_sync_db_mapping := unfold get_sync_db_mapping.
Ltac unfold_get_sync_db_mapping_in H := unfold get_sync_db_mapping in H.
Ltac unfold_store_call := unfold store_call.
Ltac unfold_store_call_in H := unfold store_call in H.
Ltac unfold_sync := unfold sync.
Ltac unfold_sync_in H := unfold sync in H.
Ltac unfold_sync_loop := unfold sync_loop.
Ltac unfold_sync_page := unfold sync_page.
Ltac unfold_sync_page_in H := unfold sync_page in H.
Ltac unfold_update_sync_database := unfold update_sync_database.
Ltac unfold_update_sync_database_in H := unfold update_sync_database in H.



(** ** Strings *)

Lemma append_assoc (a b c : string) : (a ++ b) ++ c = a ++ (b ++ c).
Proof. induction a as [|x a IH]; simpl; [reflexivity | now rewrite IH]. Qed.

Lemma append_empty_r (a : string) : a ++ EmptyString = a.
Proof. induction a as [|x a IH]; simpl; [reflexivity | now rewrite IH]. Qed.

(** ** The escaping pass *)

Lemma markdown_char_cases (c : ascii) :
  is_markdown_char c = true ->
  In c (list_ascii_of_string markdown_chars).
Proof.
  unfold is_markdown_char. intros H.
  apply existsb_exists in H. destruct H as [x [Hin Heq]].
  apply Ascii.eqb_eq in Heq. now subst.
Qed.

Lemma markdown_char_not_at (c : ascii) :
  is_markdown_char c = true -> is_at c = false.
Proof.
  intros H. apply markdown_char_cases in H. simpl in H.
  repeat (destruct H as [H | H]; [subst; reflexivity |]). contradiction.
Qed.

Lemma underscore_is_markdown_char (c : ascii) :
  is_underscore c = true -> is_markdown_char c = true.
Proof.
  unfold is_underscore. intros H. apply Ascii.eqb_eq in H. now subst.
Qed.

Lemma escape_markdown_v2_app (a b : string) :
  escape_markdown_v2 (a ++ b) = escape_markdown_v2 a ++ escape_markdown_v2 b.
Proof.
  induction a as [|x a IH]; simpl; [reflexivity |].
  destruct (is_markdown_char x); simpl; now rewrite IH.
Qed.

(** The nickname pass leaves escaped text as it is: an underscore of the
    escaped text always follows a backslash, which ends any handle. *)
Lemma nicknames_scan_escaped (t tail : string) :
  forall h, exists h',
    nicknames_scan h (escape_markdown_v2 t ++ tail)
    = escape_markdown_v2 t ++ nicknames_scan h' tail.
Proof.
  induction t as [|c t IH]; intros h; simpl.
  - now exists h.
  - destruct (is_markdown_char c) eqn:Hm.
    + simpl. rewrite (markdown_char_not_at c Hm).
      destruct (IH false) as [h' Hh']. exists h'.
      replace (is_at Py.backslash) with false by reflexivity.
      replace (is_handle_char Py.backslash) with false by reflexivity.
      rewrite andb_false_r. simpl. now rewrite Hh'.
    + simpl. destruct (is_at c).
      * destruct (IH true) as [h' Hh']. exists h'. now rewrite Hh'.
      * destruct (h && is_handle_char c).
        -- destruct (is_underscore c) eqn:Hu.
           ++ apply underscore_is_markdown_char in Hu. congruence.
           ++ destruct (IH true) as [h' Hh']. exists h'. now rewrite Hh'.
        -- destruct (IH false) as [h' Hh']. exists h'. now rewrite Hh'.
Qed.

Lemma nicknames_scan_marker (st : option Style) (rest : string) :
  nicknames_scan false (style_marker st ++ rest)
  = style_marker st ++ nicknames_scan false rest.
Proof. destruct st as [[]|]; reflexivity. Qed.

Lemma nicknames_scan_bold_close (h : bool) : nicknames_scan h "*" = "*".
Proof. destruct h; reflexivity. Qed.

Module RendererFacts.
Import NotionHandler.

(** The chain of [if]/[elif] of [_parse_rich_text] picks the marker of the
    first set flag in the order of [style_precedence]. *)
Lemma parse_segment_shape (escape : bool) (seg : Segment) :
  parse_segment escape seg
  = with_link (href seg)
      (let m := style_marker (chosen_style (annotations seg)) in
       let styled := m ++ esc escape (plain_text seg) ++ m in
       if escape then escape_telegram_nicknames styled else styled).
Proof.
  unfold parse_segment, with_link, chosen_style, style_precedence. simpl.
  destruct (annotations seg) as [b i s c u]; simpl.
  destruct b; [reflexivity|]. destruct i; [reflexivity|].
  destruct s; [reflexivity|]. destruct c; [reflexivity|].
  destruct u; [reflexivity|].
  simpl. now rewrite append_empty_r.
Qed.


End RendererFacts.

(** ** Claims on the renderer *)

Module RendererClaims.
Import NotionHandler RendererFacts.

(** C3: the fragment [parse_block] returns for a code block is the bare
    fence, six backquotes and a blank line, whatever the rich text and the
    language of the block: both are read, neither is written, so two code
    blocks with different text render alike. *)
Theorem C3_code_block_is_bare_fence :
  forall (rt rt' : RichText) (language language' : string),
    parse_block (BCode rt language) = "``````" ++ Py.LF ++ Py.LF
    /\ parse_block (BCode rt language) = parse_block (BCode rt' language').
Proof. intros. split; reflexivity. Qed.



(** C8: a run is wrapped in the marker of one style, the first of bold,
    italic, strikethrough, code, underline whose flag is set, or in none
    when no flag is set; a run flagged bold and italic renders between two
    asterisks and nothing else, the nickname pass leaving it as it is. *)
Theorem C8_style_precedence :
  (forall (escape : bool) (seg : Segment),
      parse_segment escape seg
      = with_link (href seg)
          (let m := style_marker (chosen_style (annotations seg)) in
           let styled := m ++ esc escape (plain_text seg) ++ m in
           if escape then escape_telegram_nicknames styled else styled))
  /\ (forall seg : Segment,
         bold (annotations seg) = true ->
         italic (annotations seg) = true ->
         parse_segment true seg
         = with_link (href seg)
             ("*" ++ escape_markdown_v2 (plain_text seg) ++ "*")
         /\ parse_segment false seg
            = with_link (href seg) ("*" ++ plain_text seg ++ "*")).
Proof.
  split.
  - exact parse_segment_shape.
  - intros seg Hb _. rewrite !parse_segment_shape. cbv zeta.
    unfold chosen_style, style_precedence. simpl. rewrite Hb. simpl.
    split; [|reflexivity].
    unfold escape_telegram_nicknames.
    change (String "*" (escape_markdown_v2 (plain_text seg) ++ "*"))
      with ("*" ++ escape_markdown_v2 (plain_text seg) ++ "*").
    change (nicknames_scan false ("*" ++ escape_markdown_v2 (plain_text seg) ++ "*"))
      with (String "*" (nicknames_scan false
                          (escape_markdown_v2 (plain_text seg) ++ "*"))).
    destruct (nicknames_scan_escaped (plain_text seg) "*" false) as [h' Hscan].
    now rewrite Hscan, nicknames_scan_bold_close.
Qed.

Lemma C8_style_precedence_witness :
  parse_segment true bold_italic_run
  = with_link None ("*" ++ escape_markdown_v2 "a_b" ++ "*")
  /\ parse_segment false bold_italic_run
     = with_link None ("*" ++ "a_b" ++ "*").
Proof.
  apply (proj2 C8_style_precedence bold_italic_run); reflexivity.
Defined.

End RendererClaims.

(** ** Dictionaries *)

Module DictFacts.
Section DictFacts.
Context {V : Type}.
Implicit Types (d : Dict.t V) (k : string) (v : V).

Lemma get_set_same k v d : Dict.get k (Dict.set k v d) = Some v.
Proof.
  induction d as [|[k' v'] d IH]; simpl.
  - now rewrite String.eqb_refl.
  - destruct (String.eqb k' k) eqn:E; simpl.
    + now rewrite String.eqb_refl.
    + now rewrite E.
Qed.

Lemma get_set_other k k' v d :
  k <> k' -> Dict.get k (Dict.set k' v d) = Dict.get k d.
Proof.
  intros Hne. induction d as [|[k2 v2] d IH]; simpl.
  - destruct (String.eqb_spec k' k); [congruence | reflexivity].
  - destruct (String.eqb_spec k2 k'); simpl.
    + subst k2. destruct (String.eqb_spec k' k); [congruence | reflexivity].
    + destruct (String.eqb_spec k2 k); [reflexivity | exact IH].
Qed.

Lemma get_del_same k d : Dict.get k (Dict.del k d) = None.
Proof.
  unfold Dict.del. induction d as [|[k' v'] d IH]; simpl; [reflexivity|].
  destruct (String.eqb k' k) eqn:E; simpl; [exact IH | now rewrite E].
Qed.

Lemma get_del_other k k' d :
  k <> k' -> Dict.get k (Dict.del k' d) = Dict.get k d.
Proof.
  intros Hne. unfold Dict.del. induction d as [|[k2 v2] d IH]; simpl; [reflexivity|].
  destruct (String.eqb_spec k2 k'); simpl.
  - subst k2. destruct (String.eqb_spec k' k); [congruence | exact IH].
  - destruct (String.eqb_spec k2 k); [reflexivity | exact IH].
Qed.

Lemma in_keys_get k d :
  In k (Dict.keys d) <-> exists v, Dict.get k d = Some v.
Proof.
  unfold Dict.keys. induction d as [|[k' v'] d IH]; simpl.
  - split; [contradiction | intros [v H]; discriminate].
  - destruct (String.eqb_spec k' k).
    + split; [intros _; now exists v' | intros _; now left].
    + rewrite <- IH. split; [intros [H|H]; [congruence | exact H] | now right].
Qed.

Lemma not_in_keys_get k d : ~ In k (Dict.keys d) <-> Dict.get k d = None.
Proof.
  rewrite in_keys_get. destruct (Dict.get k d) as [v|].
  - split; [intros H; exfalso; apply H; now exists v | discriminate].
  - split; [reflexivity | intros _ [v H]; discriminate].
Qed.

Lemma in_keys_set k k' v d :
  In k (Dict.keys (Dict.set k' v d)) <-> k = k' \/ In k (Dict.keys d).
Proof.
  rewrite !in_keys_get. destruct (String.eqb_spec k k') as [->|Hne].
  - rewrite get_set_same. split; [now left | intros _; now exists v].
  - rewrite get_set_other by exact Hne.
    split; [now right | intros [H|H]; [congruence | exact H]].
Qed.

Lemma keys_set_nodup k v d :
  NoDup (Dict.keys d) -> NoDup (Dict.keys (Dict.set k v d)).
Proof.
  unfold Dict.keys. induction d as [|[k' v'] d IH]; simpl; intros Hnd.
  - constructor; [intros [] | constructor].
  - inversion Hnd as [|? ? Hnotin Hnd']; subst.
    destruct (String.eqb_spec k' k); simpl.
    + subst k'. now constructor.
    + constructor; [|now apply IH].
      intros Hin. apply Hnotin.
      apply (in_keys_set k' k v d) in Hin. destruct Hin as [H|H]; [congruence | exact H].
Qed.

Lemma in_get_nodup k v d :
  NoDup (Dict.keys d) -> (In (k, v) d <-> Dict.get k d = Some v).
Proof.
  unfold Dict.keys. induction d as [|[k' v'] d IH]; simpl; intros Hnd.
  - split; [contradiction | discriminate].
  - inversion Hnd as [|? ? Hnotin Hnd']; subst.
    destruct (String.eqb_spec k' k).
    + subst k'. split.
      * intros [H|H]; [congruence|]. exfalso. apply Hnotin.
        apply in_map_iff. now exists (k, v).
      * intros H. left. congruence.
    + rewrite <- (IH Hnd'). split; [intros [H|H]; [congruence | exact H] | now right].
Qed.

End DictFacts.
End DictFacts.

Lemma set_mem_in (k : string) (l : list string) : set_mem k l = true <-> In k l.
Proof.
  unfold set_mem. rewrite existsb_exists. split.
  - intros [x [Hin Heq]]. apply String.eqb_eq in Heq. now subst.
  - intros Hin. exists k. split; [exact Hin | apply String.eqb_refl].
Qed.

Lemma set_mem_not_in (k : string) (l : list string) : set_mem k l = false <-> ~ In k l.
Proof.
  rewrite <- set_mem_in. destruct (set_mem k l); split; congruence.
Qed.

(** ** The destination side of a pass *)

Section DestinationFacts.

Variable TELEGRAM_CHAT_ID : string.
Variable date_parse : string -> option Z.
Variable bot : list TgEvent -> TgCall -> TgResult.

Lemma touches_refl P s : touches P s s.
Proof.
  repeat split; try reflexivity.
  exists []. now rewrite app_nil_r.
Qed.

Lemma touches_trans P s1 s2 s3 :
  touches P s1 s2 -> touches P s2 s3 -> touches P s1 s3.
Proof.
  intros (Hd & Hn & (e1 & Hl1 & Hf1) & Hg1) (Hd' & Hn' & (e2 & Hl2 & Hf2) & Hg2).
  repeat split; try congruence.
  - exists (e1 ++ e2)%list. split.
    + now rewrite Hl2, Hl1, app_assoc.
    + apply Forall_app. now split.
  - intros k Hk. now rewrite Hg2, Hg1.
Qed.

Lemma touches_weaken (P Q : string -> Prop) s s' :
  (forall k, P k -> Q k) -> touches P s s' -> touches Q s s'.
Proof.
  intros HPQ (Hd & Hn & (e & Hl & Hf) & Hg).
  repeat split; try assumption.
  - exists e. split; [exact Hl|]. eapply Forall_impl; [|exact Hf]. intros a. apply HPQ.
  - intros k Hk. apply Hg. intros HP. apply Hk. now apply HPQ.
Qed.

Lemma tg_call_touches page c s :
  touches (eq page) s (snd (tg_call bot page c s)).
Proof.
  unfold tg_call. simpl. repeat split; try reflexivity.
  eexists. split; [reflexivity|]. constructor; [reflexivity | constructor].
Qed.

Lemma with_pinned_set_touches page e s :
  touches (eq page) s (with_pinned (Dict.set page e (pinned s)) s).
Proof.
  repeat split; simpl; try reflexivity.
  - exists []. now rewrite app_nil_r.
  - intros k Hk. apply DictFacts.get_set_other. congruence.
Qed.

Lemma with_pinned_del_touches page s :
  touches (eq page) s (with_pinned (Dict.del page (pinned s)) s).
Proof.
  repeat split; simpl; try reflexivity.
  - exists []. now rewrite app_nil_r.
  - intros k Hk. apply DictFacts.get_del_other. congruence.
Qed.

Lemma create_post_touches page text le s :
  touches (eq page) s (create_post bot page text le s).
Proof.
  unfold create_post.
  pose proof (tg_call_touches page (send_message text) s) as H1.
  destruct (tg_call bot page (send_message text) s) as [[|mid] s1]; simpl in H1;
    [exact H1|].
  pose proof (tg_call_touches page (pin_chat_message mid) s1) as H2.
  destruct (tg_call bot page (pin_chat_message mid) s1) as [[|x] s2]; simpl in H2.
  - eapply touches_trans; eassumption.
  - eapply touches_trans; [exact H1|]. eapply touches_trans; [exact H2|].
    apply with_pinned_set_touches.
Qed.

Lemma push_page_touches page message le s :
  touches (eq page) s (push_page bot page message le s).
Proof.
  unfold push_page.
  destruct (truthy_id (pinned_message_id page s)) as [old|];
    [|apply create_post_touches].
  pose proof (tg_call_touches page (edit_message_text old message) s) as H1.
  destruct (tg_call bot page (edit_message_text old message) s) as [[|x] s1];
    simpl in H1.
  - eapply touches_trans; [exact H1 | apply create_post_touches].
  - pose proof (tg_call_touches page (pin_chat_message old) s1) as H2.
    destruct (tg_call bot page (pin_chat_message old) s1) as [[|y] s2]; simpl in H2.
    + eapply touches_trans; [exact H1|]. eapply touches_trans; [exact H2|].
      apply create_post_touches.
    + eapply touches_trans; [exact H1|]. eapply touches_trans; [exact H2|].
      apply with_pinned_set_touches.
Qed.

End DestinationFacts.

Lemma events_for_app page a b :
  events_for page (a ++ b) = (events_for page a ++ events_for page b)%list.
Proof. apply filter_app. Qed.

Lemma events_for_none (P : string -> Prop) page evs :
  Forall (fun e => P (ev_page e)) evs -> ~ P page -> events_for page evs = [].
Proof.
  intros Hf Hn. unfold events_for. induction Hf as [|e evs He Hf IH]; simpl.
  - reflexivity.
  - destruct (String.eqb_spec (ev_page e) page) as [Heq|Hne].
    + exfalso. apply Hn. now rewrite <- Heq.
    + exact IH.
Qed.


Lemma touches_false_log s s' : touches (fun _ => False) s s' -> tg_log s' = tg_log s.
Proof.
  intros (_ & _ & (evs & Hl & Hf) & _).
  destruct evs as [|e evs]; [now rewrite app_nil_r in Hl|].
  inversion Hf; contradiction.
Qed.

(** On the values of a timestamp field [_to_timestamp] does not raise. *)
Lemma to_timestamp_time (date_parse : string -> option Z) (t : PyTime) :
  exists n, _to_timestamp date_parse (VTime t) = Some n.
Proof.
  destruct t as [|str|n]; cbn [_to_timestamp]; [now exists 0%Z | | now exists n].
  destruct (Py.nonempty str); [|now exists 0%Z].
  destruct (date_parse str) as [n|]; [now exists n | now exists 0%Z].
Qed.

(** Name the numbers of the timestamps in the goal. *)
Ltac timestamps :=
  repeat match goal with
         | |- context [_to_timestamp ?dp (VTime ?t)] =>
             let n := fresh "n" in
             let E := fresh "Ets" in
             destruct (to_timestamp_time dp t) as [n E]; rewrite ?E in *
         end.

Section LoopFacts.

Variable TELEGRAM_CHAT_ID : string.
Variable date_parse : string -> option Z.
Variable bot : list TgEvent -> TgCall -> TgResult.

Local Notation sync_page := (sync_page TELEGRAM_CHAT_ID date_parse bot).
Local Notation sync_loop := (sync_loop TELEGRAM_CHAT_ID date_parse bot).
Local Notation ts t := (_to_timestamp date_parse (VTime t)).
Local Notation norm q := (_normalize_page_id (page_id q)).

Lemma sync_page_state s ids data q :
  touches (eq (norm q)) s (fst (fst (sync_page (s, ids, data) q))).
Proof.
  unfold_sync_page.
  destruct (title_texts q) as [|title rest]; [apply touches_refl|].
  destruct (Py.startswith_any _ _); [apply touches_refl|].
  timestamps.
  destruct (negb _); [|apply touches_refl].
  simpl. apply push_page_touches.
Qed.

Lemma sync_page_ids s ids data q :
  snd (fst (sync_page (s, ids, data) q)) = (ids ++ [norm q])%list.
Proof.
  unfold_sync_page.
  destruct (title_texts q) as [|title rest]; [reflexivity|].
  destruct (Py.startswith_any _ _); [reflexivity|].
  timestamps.
  destruct (negb _); reflexivity.
Qed.

Lemma sync_page_unchanged s ids data q :
  unchanged_page date_parse s q -> fst (fst (sync_page (s, ids, data) q)) = s.
Proof.
  unfold unchanged_page, skipped. unfold_sync_page. intros H.
  destruct (title_texts q) as [|title rest]; [reflexivity|].
  destruct (Py.startswith_any _ _); [reflexivity|].
  destruct H as [H|H]; [discriminate|].
  rewrite H. timestamps.
  rewrite Z.eqb_refl. reflexivity.
Qed.

(** The iteration of a page that is not skipped and whose timestamps
    differ: its push, and the tuple with the link of the message the
    entry then holds. *)
Lemma sync_page_changed s ids data q title rest :
  title_texts q = title :: rest ->
  skipped q = false ->
  ts (last_edited_time q) <> ts (pinned_last_edited (norm q) s) ->
  sync_page (s, ids, data) q
  = (push_page bot (norm q)
       (message_of title (NotionHandler.get_page_content (page_blocks q)))
       (last_edited_time q) s,
     (ids ++ [norm q])%list,
     (data
      ++ [ {| st_title := title;
              st_notion_url := notion_url_of (norm q);
              st_tg_url :=
                tg_url_of TELEGRAM_CHAT_ID
                  (pinned_message_id (norm q)
                     (push_page bot (norm q)
                        (message_of title
                           (NotionHandler.get_page_content (page_blocks q)))
                        (last_edited_time q) s));
              st_dt := last_edited_time q |} ])%list).
Proof.
  intros Htitle Hsk Hts. unfold skipped in Hsk. rewrite Htitle in Hsk.
  unfold_sync_page. rewrite Htitle, Hsk.
  timestamps.
  destruct (Z.eqb_spec n n0) as [->|_]; [contradiction|].
  reflexivity.
Qed.

Lemma sync_page_data s ids data q :
  exists new,
    snd (sync_page (s, ids, data) q) = (data ++ new)%list
    /\ ((skipped q = true /\ new = [])
        \/ (skipped q = false
            /\ exists t, new = [t] /\ tuple_for q t
               /\ st_tg_url t
                  = tg_url_of TELEGRAM_CHAT_ID
                      (pinned_message_id (norm q)
                         (fst (fst (sync_page (s, ids, data) q)))))).
Proof.
  unfold skipped, tuple_for. unfold_sync_page.
  destruct (title_texts q) as [|title rest].
  - exists []. split; [now rewrite app_nil_r | now left].
  - destruct (Py.startswith_any _ _).
    + exists []. split; [now rewrite app_nil_r | now left].
    + timestamps.
      destruct (negb _); simpl;
        (eexists; split; [reflexivity|]; right; split; [reflexivity|];
         eexists; split; [reflexivity|]; simpl;
         split; [split; [reflexivity | split; [reflexivity | now exists rest]]
                | reflexivity]).
Qed.

End LoopFacts.

Section PassFacts.

Variable TELEGRAM_CHAT_ID : string.
Variable date_parse : string -> option Z.
Variable bot : list TgEvent -> TgCall -> TgResult.

Local Notation sync_page := (sync_page TELEGRAM_CHAT_ID date_parse bot).
Local Notation sync_loop := (sync_loop TELEGRAM_CHAT_ID date_parse bot).
Local Notation norm q := (_normalize_page_id (page_id q)).

Lemma unchanged_page_frame (P : string -> Prop) s s' q :
  touches P s s' -> ~ P (norm q) ->
  unchanged_page date_parse s q -> unchanged_page date_parse s' q.
Proof.
  intros (_ & _ & _ & Hg) Hn [H|H]; [now left | right].
  unfold pinned_last_edited in *. now rewrite (Hg _ Hn).
Qed.

(** The loop touches the pages of [P] only, when every page outside [P]
    has nothing to push. *)
Lemma fold_sync_page_touches (P : string -> Prop) :
  (forall k, P k \/ ~ P k) ->
  forall pages s ids data,
    (forall q, In q pages -> P (norm q) \/ unchanged_page date_parse s q) ->
    touches P s (fst (fst (fold_left sync_page pages (s, ids, data)))).
Proof.
  intros Hdec pages. induction pages as [|q pages IH]; intros s ids data Hq; cbn [fold_left].
  - apply touches_refl.
  - destruct (sync_page (s, ids, data) q) as [[s1 ids1] data1] eqn:E.
    assert (Hs1 : touches P s s1).
    { pose proof (sync_page_state TELEGRAM_CHAT_ID date_parse bot s ids data q) as Ht.
      rewrite E in Ht. simpl in Ht.
      destruct (Hdec (norm q)) as [HP|HnP].
      - eapply touches_weaken; [|exact Ht]. intros k <-. exact HP.
      - destruct (Hq q (or_introl eq_refl)) as [HP|Hu]; [contradiction|].
        pose proof (sync_page_unchanged TELEGRAM_CHAT_ID date_parse bot s ids data q Hu) as Hs.
        rewrite E in Hs. simpl in Hs. subst s1. apply touches_refl. }
    eapply touches_trans; [exact Hs1|]. apply IH.
    intros q' Hin. destruct (Hdec (norm q')) as [HP|HnP]; [now left|].
    destruct (Hq q' (or_intror Hin)) as [HP|Hu]; [now left | right].
    eapply unchanged_page_frame; eassumption.
Qed.

Lemma fold_sync_page_ids pages :
  forall s ids data,
    snd (fst (fold_left sync_page pages (s, ids, data)))
    = (ids ++ listed_ids pages)%list.
Proof.
  induction pages as [|q pages IH]; intros s ids data; cbn [fold_left].
  - now rewrite app_nil_r.
  - pose proof (sync_page_ids TELEGRAM_CHAT_ID date_parse bot s ids data q) as Hi.
    destruct (sync_page (s, ids, data) q) as [[s1 ids1] data1]. simpl in Hi.
    rewrite IH, Hi, <- app_assoc. reflexivity.
Qed.

Lemma fold_sync_page_data pages :
  forall s ids data,
    exists new,
      snd (fold_left sync_page pages (s, ids, data)) = (data ++ new)%list
      /\ Forall2 tuple_for (filter (fun q => negb (skipped q)) pages) new.
Proof.
  induction pages as [|q pages IH]; intros s ids data; cbn [fold_left].
  - exists []. split; [now rewrite app_nil_r | constructor].
  - destruct (sync_page_data TELEGRAM_CHAT_ID date_parse bot s ids data q)
      as [new1 [Hd Hcase]].
    destruct (sync_page (s, ids, data) q) as [[s1 ids1] data1]. simpl in Hd.
    destruct (IH s1 ids1 data1) as [new2 [Hd2 Hf2]].
    exists (new1 ++ new2)%list. split.
    + now rewrite Hd2, Hd, app_assoc.
    + cbn [filter]. destruct Hcase as [[Hs ->] | [Hs [t [-> [Ht _]]]]]; rewrite Hs; simpl.
      * exact Hf2.
      * now constructor.
Qed.

Lemma in_listed_ids_dec pages k : In k (listed_ids pages) \/ ~ In k (listed_ids pages).
Proof. destruct (in_dec string_dec k (listed_ids pages)); [now left | now right]. Qed.

Lemma sync_loop_touches pages s :
  touches (fun k => In k (listed_ids pages)) s (fst (fst (sync_loop pages s))).
Proof.
  unfold_sync_loop. apply fold_sync_page_touches.
  - intros k. apply in_listed_ids_dec.
  - intros q Hin. left. unfold listed_ids. apply in_map_iff. now exists q.
Qed.

Lemma sync_loop_ids pages s :
  snd (fst (sync_loop pages s)) = listed_ids pages.
Proof. unfold_sync_loop. now rewrite fold_sync_page_ids. Qed.

Lemma sync_loop_data pages s :
  Forall2 tuple_for (filter (fun q => negb (skipped q)) pages)
    (snd (sync_loop pages s)).
Proof.
  unfold_sync_loop.
  destruct (fold_sync_page_data pages s [] []) as [new [Hd Hf]].
  now rewrite Hd.
Qed.

(** *** The cleanup *)

Lemma cleanup_one_touches ids s k :
  touches (fun x => x = k /\ ~ In k ids) s (cleanup_one ids s k).
Proof.
  unfold_cleanup_one.
  destruct (set_mem k ids) eqn:Hm; [apply touches_refl|].
  apply set_mem_not_in in Hm.
  destruct (Dict.get k (pinned s)) as [e|]; [|apply touches_refl].
  eapply touches_weaken with (P := eq k); [intros x <-; now split|].
  apply with_pinned_del_touches.
Qed.

Lemma fold_cleanup_touches ids ks :
  forall s, touches (fun x => ~ In x ids) s (fold_left (cleanup_one ids) ks s).
Proof.
  induction ks as [|k ks IH]; intros s; simpl; [apply touches_refl|].
  eapply touches_trans; [|apply IH].
  eapply touches_weaken; [|apply cleanup_one_touches].
  intros x [-> H]. exact H.
Qed.

(** The cleanup makes no destination call. *)
Lemma cleanup_one_log ids s k : tg_log (cleanup_one ids s k) = tg_log s.
Proof.
  unfold_cleanup_one. destruct (set_mem k ids); [reflexivity|].
  now destruct (Dict.get k (pinned s)).
Qed.

Lemma fold_cleanup_log ids ks :
  forall s, tg_log (fold_left (cleanup_one ids) ks s) = tg_log s.
Proof.
  induction ks as [|k ks IH]; intros s; cbn [fold_left]; [reflexivity|].
  now rewrite IH, cleanup_one_log.
Qed.

(** The entry the cleanup leaves for a page [X] that is not listed, by
    whether the loop comes across [X]. *)
Lemma fold_cleanup_entry ids X :
  ~ In X ids ->
  forall ks s,
    Dict.get X (pinned (fold_left (cleanup_one ids) ks s))
    = if set_mem X ks then None else Dict.get X (pinned s).
Proof.
  intros HX ks. induction ks as [|k ks IH]; intros s; cbn [fold_left].
  - reflexivity.
  - change (set_mem X (k :: ks)) with (String.eqb X k || set_mem X ks).
    rewrite IH.
    destruct (String.eqb_spec X k) as [<-|Hne]; cbn [orb].
    + (* the loop is at X *)
      assert (Hnone : Dict.get X (pinned (cleanup_one ids s X)) = None).
      { unfold_cleanup_one. rewrite (proj2 (set_mem_not_in X ids) HX).
        destruct (Dict.get X (pinned s)) eqn:Hget; [|exact Hget].
        simpl. apply DictFacts.get_del_same. }
      rewrite Hnone. now destruct (set_mem X ks).
    + (* the loop is at another page *)
      pose proof (cleanup_one_touches ids s k) as (_ & _ & _ & Hg1).
      rewrite Hg1 by (intros [H _]; congruence). reflexivity.
Qed.

End PassFacts.

(** ** The store functions *)

Section StoreFacts.

Variable notion : list StoreCall -> StoreCall -> bool.

Local Notation store_call := (store_call notion).
Local Notation upsert_rows := (upsert_rows notion).
Local Notation archive_rows := (archive_rows notion).
Local Notation update_sync_database := (update_sync_database notion).
Local Notation get_sync_db_mapping := (get_sync_db_mapping notion).

Lemma same_bot_refl s : same_bot s s.
Proof. now split. Qed.

Lemma same_bot_trans s1 s2 s3 : same_bot s1 s2 -> same_bot s2 s3 -> same_bot s1 s3.
Proof. intros [A B] [C D]. split; congruence. Qed.

Lemma store_call_frame c s : same_bot s (snd (store_call c s)).
Proof. now split. Qed.

Lemma store_call_some c s u s' :
  store_call c s = (Some u, s') ->
  db s' = apply_store_call c (db s)
  /\ notion_log s' = (notion_log s ++ [c])%list.
Proof.
  unfold_store_call. destruct (notion (notion_log s) c); intros H;
    inversion H; subst; now split.
Qed.

Lemma upsert_rows_frame existing data :
  forall ids s, same_bot s (snd (upsert_rows existing data ids s)).
Proof.
  induction data as [|t data IH]; intros ids s; simpl; [apply same_bot_refl|].
  unfold bind.
  pose proof (store_call_frame
                match Dict.get (data_key (st_notion_url t)) existing with
                | Some row_info => pages_update (fst row_info) (props_of t)
                | None => pages_create (props_of t)
                end s) as Hf.
  destruct (store_call _ s) as [[u|] s1]; simpl in Hf; [|exact Hf].
  eapply same_bot_trans; [exact Hf | apply IH].
Qed.

Lemma upsert_rows_some existing data :
  forall ids s ids' s',
    upsert_rows existing data ids s = (Some ids', s') ->
    ids' = (rev (map tuple_key data) ++ ids)%list
    /\ db s' = upsert_db existing data (db s)
    /\ notion_log s' = (notion_log s ++ map (call_for existing) data)%list.
Proof.
  induction data as [|t data IH]; intros ids s ids' s' H; simpl in H.
  - inversion H; subst. simpl. now rewrite app_nil_r.
  - unfold bind in H.
    change (match Dict.get (data_key (st_notion_url t)) existing with
            | Some row_info => pages_update (fst row_info) (props_of t)
            | None => pages_create (props_of t)
            end) with (call_for existing t) in H.
    destruct (store_call (call_for existing t) s) as [[u|] s1] eqn:E;
      [|discriminate].
    apply store_call_some in E. destruct E as [Hdb Hlog].
    apply IH in H. destruct H as (Hids & Hdb' & Hlog').
    split; [|split].
    + rewrite Hids. simpl. now rewrite <- app_assoc.
    + rewrite Hdb', Hdb. reflexivity.
    + rewrite Hlog', Hlog. simpl. now rewrite <- app_assoc.
Qed.

Lemma archive_rows_frame ids items :
  forall s, same_bot s (snd (archive_rows ids items s)).
Proof.
  induction items as [|[k info] items IH]; intros s; simpl; [apply same_bot_refl|].
  destruct (set_mem k ids); [apply IH|].
  unfold bind.
  pose proof (store_call_frame (pages_archive (fst info)) s) as Hf.
  destruct (store_call _ s) as [[u|] s1]; simpl in Hf; [|exact Hf].
  eapply same_bot_trans; [exact Hf | apply IH].
Qed.

Lemma archive_rows_some ids items :
  forall s u s',
    archive_rows ids items s = (Some u, s') ->
    db s' = archive_db ids items (db s)
    /\ notion_log s'
       = (notion_log s ++ map pages_archive (archive_targets ids items))%list.
Proof.
  unfold archive_db, archive_targets.
  induction items as [|[k info] items IH]; intros s u s' H; simpl in H.
  - inversion H; subst. simpl. now rewrite app_nil_r.
  - simpl. destruct (set_mem k ids); simpl.
    + now apply IH in H.
    + unfold bind in H.
      destruct (store_call (pages_archive (fst info)) s) as [[u1|] s1] eqn:E;
        [|discriminate].
      apply store_call_some in E. destruct E as [Hdb Hlog].
      apply IH in H. destruct H as [Hdb' Hlog'].
      split.
      * rewrite Hdb', Hdb. reflexivity.
      * rewrite Hlog', Hlog. now rewrite <- app_assoc.
Qed.

Lemma update_sync_database_frame data s :
  same_bot s (snd (update_sync_database data s)).
Proof.
  unfold_update_sync_database.
  destruct data as [|t data]; [apply same_bot_refl|].
  unfold bind, read_rows.
  pose proof (store_call_frame get_or_create_sync_database s) as H1.
  destruct (store_call get_or_create_sync_database s) as [[u1|] s1];
    simpl in H1; [|exact H1].
  pose proof (store_call_frame databases_query s1) as H2.
  destruct (store_call databases_query s1) as [[u2|] s2];
    simpl in H2; [|eapply same_bot_trans; eassumption].
  pose proof (upsert_rows_frame (existing_rows (query_results (db s2)))
                (t :: data) [] s2) as H3.
  destruct (upsert_rows _ (t :: data) [] s2) as [[ids|] s3];
    simpl in H3; [|eapply same_bot_trans; [exact H1|];
                   eapply same_bot_trans; eassumption].
  pose proof (archive_rows_frame ids (existing_rows (query_results (db s2))) s3) as H4.
  eapply same_bot_trans; [exact H1|]. eapply same_bot_trans; [exact H2|].
  eapply same_bot_trans; [exact H3 | exact H4].
Qed.

Lemma update_sync_database_some data s u s' :
  data <> [] ->
  update_sync_database data s = (Some u, s') ->
  db s' = updated_db data (db s)
  /\ notion_log s' = (notion_log s ++ update_calls data (db s))%list.
Proof.
  intros Hne H. unfold_update_sync_database_in H.
  destruct data as [|t data]; [congruence|].
  unfold bind, read_rows in H.
  destruct (store_call get_or_create_sync_database s) as [[u1|] s1] eqn:E1;
    [|discriminate].
  destruct (store_call databases_query s1) as [[u2|] s2] eqn:E2; [|discriminate].
  apply store_call_some in E1, E2. simpl in E1, E2.
  destruct E1 as [Hd1 Hl1]. destruct E2 as [Hd2 Hl2].
  assert (Hdb2 : db s2 = db s) by congruence.
  rewrite Hdb2 in H.
  destruct (upsert_rows (existing_rows (query_results (db s))) (t :: data) [] s2)
    as [[ids|] s3] eqn:E3; [|discriminate].
  apply upsert_rows_some in E3. destruct E3 as (Hids & Hd3 & Hl3).
  apply archive_rows_some in H. destruct H as [Hd4 Hl4].
  rewrite app_nil_r in Hids.
  unfold updated_db, update_calls, data_keys. split.
  - rewrite Hd4, Hd3, Hdb2, Hids. reflexivity.
  - rewrite Hl4, Hl3, Hl2, Hl1, Hids. now rewrite <- !app_assoc.
Qed.

Lemma get_sync_db_mapping_frame s : same_bot s (snd (get_sync_db_mapping s)).
Proof.
  unfold_get_sync_db_mapping. unfold bind, read_rows, ret.
  pose proof (store_call_frame get_or_create_sync_database s) as H1.
  destruct (store_call get_or_create_sync_database s) as [[u1|] s1];
    simpl in H1; [|exact H1].
  pose proof (store_call_frame databases_query s1) as H2.
  destruct (store_call databases_query s1) as [[u2|] s2];
    simpl in H2; eapply same_bot_trans; eassumption.
Qed.

Lemma get_sync_db_mapping_some s m s' :
  get_sync_db_mapping s = (Some m, s') ->
  m = mapping_of (query_results (db s))
  /\ db s' = db s
  /\ notion_log s'
     = (notion_log s ++ [get_or_create_sync_database; databases_query])%list.
Proof.
  unfold_get_sync_db_mapping. unfold bind, read_rows, ret. intros H.
  destruct (store_call get_or_create_sync_database s) as [[u1|] s1] eqn:E1;
    [|discriminate].
  destruct (store_call databases_query s1) as [[u2|] s2] eqn:E2; [|discriminate].
  apply store_call_some in E1, E2. simpl in E1, E2.
  destruct E1 as [Hd1 Hl1]. destruct E2 as [Hd2 Hl2].
  inversion H; subst. split; [|split]; try congruence.
  rewrite Hl2, Hl1. now rewrite <- app_assoc.
Qed.

End StoreFacts.

Section StoreAnswers.

Variable notion : list StoreCall -> StoreCall -> bool.
Hypothesis notion_answers : forall h c, notion h c = true.

Lemma store_call_answers c s : exists s', store_call notion c s = (Some tt, s').
Proof.
  unfold store_call. rewrite notion_answers. eexists. reflexivity.
Qed.

Lemma upsert_rows_answers existing data :
  forall ids s, exists ids' s', upsert_rows notion existing data ids s = (Some ids', s').
Proof.
  induction data as [|t data IH]; intros ids s; simpl.
  - eexists. eexists. reflexivity.
  - unfold bind.
    destruct (store_call_answers
                match Dict.get (data_key (st_notion_url t)) existing with
                | Some row_info => pages_update (fst row_info) (props_of t)
                | None => pages_create (props_of t)
                end s) as [s1 E].
    rewrite E. apply IH.
Qed.

Lemma archive_rows_answers ids items :
  forall s, exists s', archive_rows notion ids items s = (Some tt, s').
Proof.
  induction items as [|[k info] items IH]; intros s; simpl.
  - eexists. reflexivity.
  - destruct (set_mem k ids); [apply IH|].
    unfold bind. destruct (store_call_answers (pages_archive (fst info)) s) as [s1 E].
    rewrite E. apply IH.
Qed.

Lemma update_sync_database_answers data s :
  exists s', update_sync_database notion data s = (Some tt, s').
Proof.
  unfold update_sync_database. destruct data as [|t data].
  - eexists. reflexivity.
  - unfold bind, read_rows.
    destruct (store_call_answers get_or_create_sync_database s) as [s1 E1].
    rewrite E1.
    destruct (store_call_answers databases_query s1) as [s2 E2]. rewrite E2.
    destruct (upsert_rows_answers (existing_rows (query_results (db s2)))
                (t :: data) [] s2) as [ids [s3 E3]].
    rewrite E3. apply archive_rows_answers.
Qed.

Lemma get_sync_db_mapping_answers s :
  exists m s', get_sync_db_mapping notion s = (Some m, s').
Proof.
  unfold get_sync_db_mapping, bind, read_rows, ret.
  destruct (store_call_answers get_or_create_sync_database s) as [s1 E1].
  rewrite E1.
  destruct (store_call_answers databases_query s1) as [s2 E2]. rewrite E2.
  eexists. eexists. reflexivity.
Qed.

End StoreAnswers.

Section PersistFacts.

Variable notion : list StoreCall -> StoreCall -> bool.

(** [persist] never touches the destination, and it leaves [self.pinned]
    as it was or sets it to the mapping read off the updated rows. *)
Lemma persist_cases data s :
  tg_log (persist notion data s) = tg_log s
  /\ (pinned (persist notion data s) = pinned s
      \/ (data <> []
          /\ pinned (persist notion data s)
             = mapping_of (query_results (updated_db data (db s))))).
Proof.
  unfold persist. destruct data as [|t data]; [split; [reflexivity | now left]|].
  pose proof (update_sync_database_frame notion (t :: data) s) as [Hp1 Hl1].
  destruct (update_sync_database notion (t :: data) s) as [[u|] s1] eqn:E1;
    simpl in Hp1, Hl1; [|split; [exact Hl1 | now left]].
  apply update_sync_database_some in E1; [|discriminate].
  destruct E1 as [Hdb1 _].
  pose proof (get_sync_db_mapping_frame notion s1) as [Hp2 Hl2].
  destruct (get_sync_db_mapping notion s1) as [[m|] s2] eqn:E2;
    simpl in Hp2, Hl2.
  - apply get_sync_db_mapping_some in E2. destruct E2 as (Hm & _ & _).
    simpl. split; [congruence|]. right. split; [discriminate|].
    now rewrite Hm, Hdb1.
  - split; [congruence | left; congruence].
Qed.

(** When the store answers every call, a pass with data ends in the state
    the rows and the calls of [updated_db] and [update_calls] describe. *)
Lemma persist_answers data s :
  (forall h c, notion h c = true) ->
  data <> [] ->
  persist notion data s
  = {| pinned := mapping_of (query_results (updated_db data (db s)));
       db := updated_db data (db s);
       tg_log := tg_log s;
       notion_log :=
         (notion_log s ++ update_calls data (db s)
          ++ [get_or_create_sync_database; databases_query])%list |}.
Proof.
  intros Hok Hne. unfold persist. destruct data as [|t data]; [congruence|].
  destruct (update_sync_database_answers notion Hok (t :: data) s) as [s1 E1].
  rewrite E1.
  pose proof (update_sync_database_frame notion (t :: data) s) as [Hp1 Hl1].
  rewrite E1 in Hp1, Hl1. simpl in Hp1, Hl1.
  apply update_sync_database_some in E1; [|exact Hne]. destruct E1 as [Hdb1 Hlog1].
  destruct (get_sync_db_mapping_answers notion Hok s1) as [m [s2 E2]].
  rewrite E2.
  pose proof (get_sync_db_mapping_frame notion s1) as [Hp2 Hl2].
  rewrite E2 in Hp2, Hl2. simpl in Hp2, Hl2.
  apply get_sync_db_mapping_some in E2. destruct E2 as (Hm & Hdb2 & Hlog2).
  unfold with_pinned. f_equal.
  - now rewrite Hm, Hdb1.
  - congruence.
  - congruence.
  - rewrite Hlog2, Hlog1. now rewrite <- app_assoc.
Qed.

End PersistFacts.

(** ** The rows of the store *)

Lemma nth_error_update_nth_same {A : Type} (f : A -> A) (l : list A) :
  forall i, nth_error (update_nth i f l) i = option_map f (nth_error l i).
Proof.
  induction l as [|x l IH]; intros [|i]; simpl; try reflexivity. apply IH.
Qed.

Lemma nth_error_update_nth_other {A : Type} (f : A -> A) (l : list A) :
  forall i j, i <> j -> nth_error (update_nth i f l) j = nth_error l j.
Proof.
  induction l as [|x l IH]; intros [|i] [|j] Hne; simpl; try reflexivity.
  - congruence.
  - apply IH. congruence.
Qed.

Lemma nth_error_snoc {A : Type} (l : list A) (x : A) (i : nat) (y : A) :
  nth_error (l ++ [x]) i = Some y ->
  nth_error l i = Some y \/ (nth_error l i = None /\ i = List.length l /\ y = x).
Proof.
  intros H. destruct (Nat.lt_ge_cases i (List.length l)) as [Hlt|Hge].
  - left. now rewrite nth_error_app1 in H.
  - right. rewrite nth_error_app2 in H by exact Hge.
    destruct (i - List.length l)%nat as [|n] eqn:E; simpl in H.
    + inversion H; subst. split; [now apply nth_error_None | split; [lia | reflexivity]].
    + destruct n; discriminate.
Qed.

Lemma nth_error_snoc_old {A : Type} (l : list A) (x : A) (i : nat) (y : A) :
  nth_error l i = Some y -> nth_error (l ++ [x]) i = Some y.
Proof.
  intros H. rewrite nth_error_app1; [exact H|].
  apply nth_error_Some. congruence.
Qed.

Lemma in_active_from rows :
  forall n i r,
    In (i, r) (active_from n rows)
    <-> exists j, i = (n + j)%nat /\ nth_error rows j = Some r
                  /\ row_archived r = false.
Proof.
  induction rows as [|x rows IH]; intros n i r; simpl.
  - split; [contradiction | intros [[|j] [_ [H _]]]; discriminate].
  - destruct (row_archived x) eqn:Ha.
    + rewrite IH. split.
      * intros [j [-> [Hn Hr]]]. exists (S j). split; [lia | now split].
      * intros [[|j] [-> [Hn Hr]]]; simpl in Hn.
        -- inversion Hn; subst. congruence.
        -- exists j. split; [lia | now split].
    + simpl. rewrite IH. split.
      * intros [H | [j [-> [Hn Hr]]]].
        -- inversion H; subst. exists 0%nat. split; [lia | now split].
        -- exists (S j). split; [lia | now split].
      * intros [[|j] [-> [Hn Hr]]]; simpl in Hn.
        -- inversion Hn; subst. left. f_equal. lia.
        -- right. exists j. split; [lia | now split].
Qed.

Lemma in_query_results rows i r :
  In (i, r) (query_results rows)
  <-> nth_error rows i = Some r /\ row_archived r = false.
Proof.
  unfold query_results. rewrite in_active_from. split.
  - intros [j [-> H]]. exact H.
  - intros H. now exists i.
Qed.

(** *** The index of the rows by page identifier *)

Section IndexFacts.
Context {V : Type} (g : nat * Row -> V).

Lemma index_sound results :
  forall (d : Dict.t V) k v,
    Dict.get k (fold_left (index_step g) results d) = Some v ->
    Dict.get k d = Some v
    \/ exists ir, In ir results /\ row_key (snd ir) = Some k /\ v = g ir.
Proof.
  induction results as [|ir results IH]; intros d k v H; simpl in H.
  - now left.
  - apply IH in H. destruct H as [H | [ir' [Hin [Hk Hv]]]].
    + unfold index_step in H. destruct (row_key (snd ir)) as [k'|] eqn:Ek;
        [|now left].
      destruct (String.eqb_spec k k') as [->|Hne].
      * rewrite DictFacts.get_set_same in H. inversion H; subst.
        right. exists ir. split; [now left | now split].
      * rewrite DictFacts.get_set_other in H by exact Hne. now left.
    + right. exists ir'. split; [now right | now split].
Qed.

Lemma index_keeps results :
  forall (d : Dict.t V) k,
    (exists v, Dict.get k d = Some v) ->
    exists v, Dict.get k (fold_left (index_step g) results d) = Some v.
Proof.
  induction results as [|ir results IH]; intros d k H; simpl; [exact H|].
  apply IH. unfold index_step. destruct (row_key (snd ir)) as [k'|]; [|exact H].
  destruct (String.eqb_spec k k') as [->|Hne].
  - rewrite DictFacts.get_set_same. now eexists.
  - now rewrite DictFacts.get_set_other by exact Hne.
Qed.

Lemma index_complete results :
  forall (d : Dict.t V) ir k,
    In ir results -> row_key (snd ir) = Some k ->
    exists v, Dict.get k (fold_left (index_step g) results d) = Some v.
Proof.
  induction results as [|ir0 results IH]; intros d ir k Hin Hk; simpl.
  - contradiction.
  - destruct Hin as [->|Hin]; [|eapply IH; eassumption].
    apply index_keeps. unfold index_step. rewrite Hk.
    rewrite DictFacts.get_set_same. now eexists.
Qed.

Lemma index_nodup results :
  forall d : Dict.t V,
    NoDup (Dict.keys d) -> NoDup (Dict.keys (fold_left (index_step g) results d)).
Proof.
  induction results as [|ir results IH]; intros d Hd; simpl; [exact Hd|].
  apply IH. unfold index_step. destruct (row_key (snd ir)); [|exact Hd].
  now apply DictFacts.keys_set_nodup.
Qed.

End IndexFacts.

Lemma existing_rows_index results :
  existing_rows results
  = fold_left (index_step (fun ir => (fst ir, row_title (snd ir)))) results [].
Proof. reflexivity. Qed.

Lemma mapping_of_index results :
  mapping_of results
  = fold_left (index_step (fun ir => entry_of_row (snd ir))) results [].
Proof. reflexivity. Qed.

(** *** Page identifiers read off links *)

Lemma hex_run_length n :
  forall s m, hex_run n s = Some m -> String.length m = n.
Proof.
  induction n as [|n IH]; intros s m H; simpl in H.
  - inversion H. reflexivity.
  - destruct s as [|c r]; [discriminate|].
    destruct (is_hex c); [|discriminate].
    destruct (hex_run n r) as [m'|] eqn:E; [|discriminate].
    inversion H; subst. simpl. f_equal. eapply IH. exact E.
Qed.

Lemma search_hex32_length s :
  forall m, search_hex32 s = Some m -> String.length m = 32%nat.
Proof.
  induction s as [|c r IH]; intros m H.
  - discriminate.
  - unfold search_hex32 in H. fold search_hex32 in H.
    destruct (hex_run 32 (String c r)) as [m'|] eqn:E.
    + inversion H; subst. eapply hex_run_length. exact E.
    + now apply IH.
Qed.

Lemma search_hex32_nonempty s m : search_hex32 s = Some m -> m <> EmptyString.
Proof.
  intros H ->. apply search_hex32_length in H. discriminate.
Qed.

Lemma row_key_nonempty r k : row_key r = Some k -> k <> EmptyString.
Proof.
  unfold row_key. destruct (row_href r) as [link|]; [|discriminate].
  destruct (Py.nonempty link); [|discriminate]. apply search_hex32_nonempty.
Qed.

(** A written row carries the page identifier of its tuple. *)
Lemma row_key_written t a k :
  tuple_key t = k -> k <> EmptyString ->
  row_key (write_row (props_of t) a) = Some k.
Proof.
  unfold tuple_key, data_key, row_key. simpl. intros Hk Hne.
  destruct (st_notion_url t) as [|c u] eqn:Eu.
  - simpl in Hk. congruence.
  - cbn [Py.nonempty]. destruct (search_hex32 (String c u)); congruence.
Qed.

Lemma row_key_written_inv t a k :
  row_key (write_row (props_of t) a) = Some k -> tuple_key t = k.
Proof.
  unfold tuple_key, data_key, row_key. simpl.
  destruct (Py.nonempty (st_notion_url t)); [|discriminate].
  intros H. now rewrite H.
Qed.

(** *** [existing_rows] against the rows it indexes *)

Lemma existing_sound rows0 k i title :
  Dict.get k (existing_rows (query_results rows0)) = Some (i, title) ->
  exists r0, nth_error rows0 i = Some r0 /\ row_archived r0 = false
             /\ row_key r0 = Some k.
Proof.
  rewrite existing_rows_index. intros H.
  apply index_sound in H. destruct H as [H | [[i' r'] [Hin [Hk Hv]]]];
    [discriminate|].
  simpl in Hk, Hv. inversion Hv; subst.
  apply in_query_results in Hin. destruct Hin as [Hn Ha].
  exists r'. now repeat split.
Qed.

Lemma existing_complete rows0 i r0 k :
  unique_keys rows0 ->
  nth_error rows0 i = Some r0 -> row_archived r0 = false ->
  row_key r0 = Some k ->
  exists title, Dict.get k (existing_rows (query_results rows0)) = Some (i, title).
Proof.
  intros Hu Hn Ha Hk.
  destruct (index_complete (fun ir => (fst ir, row_title (snd ir)))
              (query_results rows0) [] (i, r0) k) as [[i' title] Hget].
  { now apply in_query_results. }
  { exact Hk. }
  rewrite <- existing_rows_index in Hget.
  destruct (existing_sound _ _ _ _ Hget) as [r' (Hn' & Ha' & Hk')].
  assert (i' = i) by (eapply Hu; eassumption). subst i'.
  now exists title.
Qed.

Lemma existing_nodup rows0 :
  NoDup (Dict.keys (existing_rows (query_results rows0))).
Proof. rewrite existing_rows_index. apply index_nodup. constructor. Qed.

(** *** The calls of the tuples *)

Lemma upsert_inv_start rows0 : upsert_inv rows0 [] rows0.
Proof.
  split.
  - intros i r0 H. exists r0. now repeat split.
  - intros i r H1 H2. congruence.
Qed.

Lemma upsert_inv_step rows0 done rows t :
  upsert_inv rows0 done rows ->
  upsert_inv rows0 (done ++ [t])
    (apply_store_call (call_for (existing_rows (query_results rows0)) t) rows).
Proof.
  intros [Ha Hc]. unfold call_for.
  destruct (Dict.get (tuple_key t) (existing_rows (query_results rows0)))
    as [[i title]|] eqn:Hget; simpl.
  - (* pages.update on the row of the page *)
    destruct (existing_sound _ _ _ _ Hget) as [r0 (Hn0 & Harch0 & Hk0)].
    split.
    + intros j rj Hj. destruct (Nat.eq_dec i j) as [<-|Hne].
      * rewrite nth_error_update_nth_same.
        destruct (Ha i r0 Hn0) as [r (Hr & Hkr & Har)]. rewrite Hr. simpl.
        eexists. split; [reflexivity|].
        assert (rj = r0) by congruence. subst rj. split; [|exact Har].
        rewrite Hk0. apply row_key_written; [reflexivity|].
        eapply row_key_nonempty. exact Hk0.
      * rewrite nth_error_update_nth_other by exact Hne. now apply Ha.
    + intros j r Hj Hnone.
      assert (Hne : i <> j) by (intros <-; congruence).
      rewrite nth_error_update_nth_other in Hj by exact Hne.
      destruct (Hc j r Hj Hnone) as [Har Hk]. split; [exact Har|].
      intros k Hkey. rewrite map_app. apply in_or_app. left. now apply Hk.
  - (* pages.create *)
    split.
    + intros j rj Hj. destruct (Ha j rj Hj) as [r (Hr & Hkr & Har)].
      exists r. split; [now apply nth_error_snoc_old | now split].
    + intros j r Hj Hnone. apply nth_error_snoc in Hj.
      destruct Hj as [Hj | (_ & _ & ->)].
      * destruct (Hc j r Hj Hnone) as [Har Hk]. split; [exact Har|].
        intros k Hkey. rewrite map_app. apply in_or_app. left. now apply Hk.
      * split; [reflexivity|]. intros k Hkey.
        apply row_key_written_inv in Hkey. rewrite map_app. apply in_or_app.
        right. simpl. now left.
Qed.

Lemma upsert_db_inv rows0 data :
  forall done rows,
    upsert_inv rows0 done rows ->
    upsert_inv rows0 (done ++ data)
      (upsert_db (existing_rows (query_results rows0)) data rows).
Proof.
  unfold upsert_db. induction data as [|t data IH]; intros done rows H; simpl.
  - now rewrite app_nil_r.
  - replace (done ++ t :: data)%list with ((done ++ [t]) ++ data)%list
      by (now rewrite <- app_assoc).
    apply IH. now apply upsert_inv_step.
Qed.

(** *** The archive calls *)

Lemma archive_row_idem r : archive_row (archive_row r) = archive_row r.
Proof. reflexivity. Qed.

Lemma nth_error_archive targets :
  forall rows i,
    nth_error (fold_left (fun d j => update_nth j archive_row d) targets rows) i
    = option_map
        (fun r => if existsb (Nat.eqb i) targets then archive_row r else r)
        (nth_error rows i).
Proof.
  induction targets as [|j targets IH]; intros rows i; simpl.
  - now destruct (nth_error rows i).
  - rewrite IH. destruct (Nat.eqb_spec i j) as [->|Hne]; simpl.
    + rewrite nth_error_update_nth_same.
      destruct (nth_error rows j) as [r|]; simpl; [|reflexivity].
      now destruct (existsb (Nat.eqb j) targets).
    + rewrite nth_error_update_nth_other by congruence. reflexivity.
Qed.

Lemma in_archive_targets ids items i :
  existsb (Nat.eqb i) (archive_targets ids items) = true
  <-> exists k title, In (k, (i, title)) items /\ ~ In k ids.
Proof.
  unfold archive_targets. rewrite existsb_exists. split.
  - intros [j [Hin Heq]]. apply Nat.eqb_eq in Heq. subst j.
    apply in_map_iff in Hin. destruct Hin as [[k [i' title]] [Hi Hin]].
    simpl in Hi. subst i'. apply filter_In in Hin. destruct Hin as [Hin Hf].
    simpl in Hf. apply negb_true_iff, set_mem_not_in in Hf.
    now exists k, title.
  - intros [k [title [Hin Hn]]]. exists i. split; [|apply Nat.eqb_refl].
    apply in_map_iff. exists (k, (i, title)). split; [reflexivity|].
    apply filter_In. split; [exact Hin|]. simpl.
    now apply negb_true_iff, set_mem_not_in.
Qed.

(** *** The rows after [update_sync_database] *)

(** A row that is not archived after the update belongs to a page of the
    data. *)
Lemma updated_db_active_keys data rows0 i r k :
  unique_keys rows0 ->
  nth_error (updated_db data rows0) i = Some r ->
  row_archived r = false -> row_key r = Some k ->
  In k (map tuple_key data).
Proof.
  intros Hu Hn Har Hk. unfold updated_db, archive_db in Hn.
  rewrite nth_error_archive in Hn.
  set (ex := existing_rows (query_results rows0)) in *.
  pose proof (upsert_db_inv rows0 data [] rows0 (upsert_inv_start rows0)) as [Ha Hc].
  simpl in Ha, Hc. fold ex in Ha, Hc.
  destruct (nth_error (upsert_db ex data rows0) i) as [r1|] eqn:E1;
    [|discriminate].
  simpl in Hn.
  destruct (existsb (Nat.eqb i) (archive_targets (data_keys data) ex)) eqn:Et.
  - inversion Hn; subst. discriminate.
  - inversion Hn; subst r1.
    destruct (nth_error rows0 i) as [r0|] eqn:E0.
    + destruct (Ha i r0 E0) as [r' (Hr' & Hk' & Ha')].
      assert (r' = r) by congruence. subst r'.
      destruct (existing_complete rows0 i r0 k Hu E0) as [title Hget];
        [congruence | congruence |].
      destruct (in_dec string_dec k (data_keys data)) as [Hin|Hnin].
      * unfold data_keys in Hin. now apply in_rev in Hin.
      * exfalso. apply not_true_iff_false in Et. apply Et.
        apply in_archive_targets. exists k, title. split; [|exact Hnin].
        apply DictFacts.in_get_nodup; [apply existing_nodup | exact Hget].
    + destruct (Hc i r E1 E0) as [_ Hin]. now apply Hin.
Qed.

(** *** The mapping read off the rows *)

Lemma mapping_keys rows k :
  In k (Dict.keys (mapping_of (query_results rows))) ->
  exists i r, nth_error rows i = Some r /\ row_archived r = false
              /\ row_key r = Some k.
Proof.
  intros H. apply DictFacts.in_keys_get in H. destruct H as [v H].
  rewrite mapping_of_index in H. apply index_sound in H.
  destruct H as [H | [[i r] [Hin [Hk _]]]]; [discriminate|].
  apply in_query_results in Hin. destruct Hin as [Hn Ha].
  exists i, r. now repeat split.
Qed.

Lemma mapping_get rows i r k :
  unique_keys rows ->
  nth_error rows i = Some r -> row_archived r = false -> row_key r = Some k ->
  Dict.get k (mapping_of (query_results rows)) = Some (entry_of_row r).
Proof.
  intros Hu Hn Ha Hk.
  destruct (index_complete (fun ir => entry_of_row (snd ir))
              (query_results rows) [] (i, r) k) as [v Hget].
  { now apply in_query_results. }
  { exact Hk. }
  rewrite <- mapping_of_index in Hget. rewrite Hget.
  rewrite mapping_of_index in Hget. apply index_sound in Hget.
  destruct Hget as [H | [[i' r'] [Hin [Hk' Hv]]]]; [discriminate|].
  simpl in Hk', Hv. apply in_query_results in Hin. destruct Hin as [Hn' Ha'].
  assert (i' = i) by (eapply Hu; eassumption). subst i'.
  assert (r' = r) by congruence. now subst.
Qed.

(** *** Links of well-formed identifiers *)

Lemma search_hex32_skip c r :
  is_hex c = false -> search_hex32 (String c r) = search_hex32 r.
Proof.
  intros H.
  change (search_hex32 (String c r))
    with (match hex_run 32 (String c r) with
          | Some m => Some m
          | None => search_hex32 r
          end).
  cbn [hex_run]. now rewrite H.
Qed.

Lemma search_hex32_here s : hex32 s -> search_hex32 s = Some s.
Proof.
  unfold hex32. intros H. destruct s as [|c r]; [discriminate|].
  change (search_hex32 (String c r))
    with (match hex_run 32 (String c r) with
          | Some m => Some m
          | None => search_hex32 r
          end).
  now rewrite H.
Qed.

Lemma data_key_notion_url p : hex32 p -> data_key (notion_url_of p) = p.
Proof.
  intros H. unfold data_key, notion_url_of. cbn [append].
  repeat (rewrite search_hex32_skip by reflexivity).
  now rewrite (search_hex32_here p H).
Qed.

Lemma tuple_for_key q t :
  hex32 (_normalize_page_id (page_id q)) -> tuple_for q t ->
  tuple_key t = _normalize_page_id (page_id q).
Proof.
  intros Hh (Hu & _ & _). unfold tuple_key. rewrite Hu.
  now apply data_key_notion_url.
Qed.


Lemma Forall2_in_left {A B : Type} (R : A -> B -> Prop) l l' x :
  Forall2 R l l' -> In x l -> exists y, In y l' /\ R x y.
Proof.
  intros H. induction H as [|a b l l' Hab H IH]; intros Hin; [contradiction|].
  destruct Hin as [->|Hin].
  - exists b. split; [now left | exact Hab].
  - destruct (IH Hin) as [y [Hy HR]]. exists y. split; [now right | exact HR].
Qed.


(** *** Tuples of distinct pages *)

Lemma unique_keys_same_shape rows rows' :
  (forall i,
      option_map (fun r => (row_key r, row_archived r)) (nth_error rows' i)
      = option_map (fun r => (row_key r, row_archived r)) (nth_error rows i)) ->
  unique_keys rows -> unique_keys rows'.
Proof.
  intros Hshape Hu i j ri rj k Hi Hj Hai Haj Hki Hkj.
  pose proof (Hshape i) as Si. pose proof (Hshape j) as Sj.
  rewrite Hi in Si. rewrite Hj in Sj. simpl in Si, Sj.
  destruct (nth_error rows i) as [ri'|] eqn:Ei; [|discriminate].
  destruct (nth_error rows j) as [rj'|] eqn:Ej; [|discriminate].
  simpl in Si, Sj. inversion Si. inversion Sj.
  eapply (Hu i j ri' rj' k); try reflexivity; congruence.
Qed.

Lemma row_matches_written t a : row_matches t (write_row (props_of t) a).
Proof. repeat split. Qed.

Lemma upsert_inv2_step rows0 done rows t :
  unique_keys rows0 ->
  upsert_inv rows0 done rows ->
  upsert_inv2 done rows ->
  ~ In (tuple_key t) (map tuple_key done) ->
  tuple_key t <> EmptyString ->
  upsert_inv2 (done ++ [t])
    (apply_store_call (call_for (existing_rows (query_results rows0)) t) rows).
Proof.
  intros Hu0 [Ha Hc] [Hd Hu] Hfresh Hne. unfold call_for.
  destruct (Dict.get (tuple_key t) (existing_rows (query_results rows0)))
    as [[i title]|] eqn:Hget; simpl.
  - (* pages.update *)
    destruct (existing_sound _ _ _ _ Hget) as [r0 (Hn0 & Harch0 & Hk0)].
    destruct (Ha i r0 Hn0) as [r (Hr & Hkr & Har)].
    assert (Hnew : nth_error
                     (update_nth i (fun r => write_row (props_of t) (row_archived r)) rows) i
                   = Some (write_row (props_of t) (row_archived r))).
    { rewrite nth_error_update_nth_same, Hr. reflexivity. }
    split.
    + intros t' Hin. apply in_app_or in Hin. destruct Hin as [Hin | [<- | []]].
      * destruct (Hd t' Hin) as (j & rj & Hj & Haj & Hkj & Hmj).
        assert (Hij : i <> j).
        { intros <-. apply Hfresh. apply in_map_iff. exists t'. split; [|exact Hin].
          rewrite Hr in Hj. inversion Hj; subst rj. congruence. }
        exists j, rj. rewrite nth_error_update_nth_other by exact Hij.
        repeat (split; [assumption|]); assumption.
      * exists i, (write_row (props_of t) (row_archived r)).
        split; [exact Hnew|]. split; [simpl; congruence|].
        split; [now apply row_key_written | apply row_matches_written].
    + eapply unique_keys_same_shape; [|exact Hu].
      intros j. destruct (Nat.eq_dec i j) as [<-|Hij].
      * rewrite Hnew, Hr. simpl. f_equal. f_equal.
        rewrite Hkr, Hk0. now apply row_key_written.
      * now rewrite nth_error_update_nth_other by exact Hij.
  - (* pages.create *)
    split.
    + intros t' Hin. apply in_app_or in Hin. destruct Hin as [Hin | [<- | []]].
      * destruct (Hd t' Hin) as (j & rj & Hj & Haj & Hkj & Hmj).
        exists j, rj. split; [now apply nth_error_snoc_old|].
        repeat (split; [assumption|]); assumption.
      * exists (List.length rows), (write_row (props_of t) false).
        split; [|split; [reflexivity|
                 split; [now apply row_key_written | apply row_matches_written]]].
        rewrite nth_error_app2 by lia. now rewrite Nat.sub_diag.
    + assert (Hclash : forall j rj,
                 nth_error rows j = Some rj -> row_archived rj = false ->
                 row_key rj = Some (tuple_key t) -> False).
      { intros j rj Hj Haj Hkj.
        destruct (nth_error rows0 j) as [r0|] eqn:E0.
        - destruct (Ha j r0 E0) as [r' (Hr' & Hk' & Ha')].
          assert (r' = rj) by congruence. subst r'.
          destruct (existing_complete rows0 j r0 (tuple_key t) Hu0 E0)
            as [title Hsome]; congruence.
        - destruct (Hc j rj Hj E0) as [_ Hin]. apply Hfresh. now apply Hin. }
      intros i j ri rj k Hi Hj Hai Haj Hki Hkj.
      apply nth_error_snoc in Hi. apply nth_error_snoc in Hj.
      destruct Hi as [Hi | (_ & -> & ->)]; destruct Hj as [Hj | (_ & -> & ->)].
      * eapply Hu; eassumption.
      * exfalso. apply (Hclash i ri Hi Hai).
        apply row_key_written_inv in Hkj. congruence.
      * exfalso. apply (Hclash j rj Hj Haj).
        apply row_key_written_inv in Hki. congruence.
      * reflexivity.
Qed.

Lemma upsert_db_inv2 rows0 data :
  unique_keys rows0 ->
  forall done rows,
    NoDup (map tuple_key (done ++ data)) ->
    (forall t, In t data -> tuple_key t <> EmptyString) ->
    upsert_inv rows0 done rows ->
    upsert_inv2 done rows ->
    upsert_inv2 (done ++ data)
      (upsert_db (existing_rows (query_results rows0)) data rows).
Proof.
  intros Hu0. unfold upsert_db.
  induction data as [|t data IH]; intros done rows Hnd Hne H1 H2; simpl.
  - now rewrite app_nil_r.
  - replace (done ++ t :: data)%list with ((done ++ [t]) ++ data)%list in *
      by (now rewrite <- app_assoc).
    apply IH.
    + exact Hnd.
    + intros t' Hin. apply Hne. now right.
    + now apply upsert_inv_step.
    + apply upsert_inv2_step; try assumption.
      * rewrite !map_app in Hnd. apply NoDup_app_remove_r in Hnd.
        simpl in Hnd. apply NoDup_remove_2 in Hnd. now rewrite app_nil_r in Hnd.
      * apply Hne. now left.
Qed.

(** After [update_sync_database]: one live row per page, and for every
    tuple a live row that holds what the tuple says. *)
Lemma updated_db_rows data rows0 :
  unique_keys rows0 ->
  NoDup (map tuple_key data) ->
  (forall t, In t data -> tuple_key t <> EmptyString) ->
  unique_keys (updated_db data rows0)
  /\ forall t, In t data ->
       exists i r, nth_error (updated_db data rows0) i = Some r
                   /\ row_archived r = false
                   /\ row_key r = Some (tuple_key t) /\ row_matches t r.
Proof.
  intros Hu0 Hnd Hne.
  set (ex := existing_rows (query_results rows0)).
  pose proof (upsert_db_inv rows0 data [] rows0 (upsert_inv_start rows0)) as H1.
  assert (H2 : upsert_inv2 ([] ++ data) (upsert_db ex data rows0)).
  { apply upsert_db_inv2; try assumption.
    - apply upsert_inv_start.
    - split; [intros t []|exact Hu0]. }
  simpl in H1, H2. fold ex in H1. destruct H1 as [Ha Hc]. destruct H2 as [Hd Hu].
  unfold updated_db, archive_db. fold ex. split.
  - intros i j ri rj k Hi Hj Hai Haj Hki Hkj.
    rewrite nth_error_archive in Hi, Hj.
    destruct (nth_error (upsert_db ex data rows0) i) as [ri'|] eqn:Ei;
      [|discriminate].
    destruct (nth_error (upsert_db ex data rows0) j) as [rj'|] eqn:Ej;
      [|discriminate].
    simpl in Hi, Hj.
    destruct (existsb (Nat.eqb i) _); inversion Hi; subst ri; [discriminate|].
    destruct (existsb (Nat.eqb j) _); inversion Hj; subst rj; [discriminate|].
    eapply Hu; eassumption.
  - intros t Hin. destruct (Hd t Hin) as (i & r & Hi & Hai & Hki & Hmi).
    exists i, r. split; [|repeat (split; [assumption|]); assumption].
    rewrite nth_error_archive, Hi. simpl.
    destruct (existsb (Nat.eqb i) (archive_targets (data_keys data) ex)) eqn:Et;
      [|reflexivity].
    exfalso. apply in_archive_targets in Et.
    destruct Et as (k & title & Hitem & Hnin).
    apply DictFacts.in_get_nodup in Hitem; [|apply existing_nodup].
    destruct (existing_sound _ _ _ _ Hitem) as [r0 (Hn0 & _ & Hk0)].
    destruct (Ha i r0 Hn0) as [r' (Hr' & Hk' & _)].
    assert (r' = r) by congruence. subst r'.
    apply Hnin. unfold data_keys. apply -> in_rev.
    apply in_map_iff. exists t. split; [congruence | exact Hin].
Qed.

(** *** The data of a pass and the entries read back *)

Lemma hex32_nonempty s : hex32 s -> s <> EmptyString.
Proof. unfold hex32. intros H ->. discriminate. Qed.

Lemma tuple_keys_of_pages l data :
  Forall hex32 (listed_ids l) -> Forall2 tuple_for l data ->
  map tuple_key data = listed_ids l.
Proof.
  intros Hh Hf. induction Hf as [|q t l data Hqt Hf IH]; [reflexivity|].
  simpl in *. inversion Hh; subst. f_equal; [now apply tuple_for_key | now apply IH].
Qed.

Lemma listed_ids_filter_incl (p : Page -> bool) pages k :
  In k (listed_ids (filter p pages)) -> In k (listed_ids pages).
Proof.
  unfold listed_ids. rewrite !in_map_iff. intros [q [Hk Hin]].
  apply filter_In in Hin. exists q. now split.
Qed.

Lemma listed_ids_filter_nodup (p : Page -> bool) pages :
  NoDup (listed_ids pages) -> NoDup (listed_ids (filter p pages)).
Proof.
  induction pages as [|q pages IH]; simpl; intros Hnd; [constructor|].
  inversion Hnd as [|? ? Hnotin Hnd']; subst.
  destruct (p q); simpl; [|now apply IH].
  constructor; [|now apply IH].
  intros Hin. apply Hnotin. eapply listed_ids_filter_incl. exact Hin.
Qed.

Lemma listed_ids_filter_hex32 (p : Page -> bool) pages :
  Forall hex32 (listed_ids pages) -> Forall hex32 (listed_ids (filter p pages)).
Proof.
  rewrite !Forall_forall. intros H k Hin. apply H.
  eapply listed_ids_filter_incl. exact Hin.
Qed.

(** The entry the reload reads for a tuple of the data. *)
Lemma persisted_entry data rows0 t :
  unique_keys rows0 ->
  NoDup (map tuple_key data) ->
  (forall t', In t' data -> tuple_key t' <> EmptyString) ->
  In t data ->
  Dict.get (tuple_key t) (mapping_of (query_results (updated_db data rows0)))
  = Some {| message_id := message_id_of_url (p_telegram (props_of t));
            last_edited := st_dt t;
            entry_title := Some (st_title t) |}.
Proof.
  intros Hu Hnd Hne Hin.
  destruct (updated_db_rows data rows0 Hu Hnd Hne) as [Hu' Hrows].
  destruct (Hrows t Hin) as (i & r & Hn & Ha & Hk & (Hm1 & Hm2 & Hm3)).
  rewrite (mapping_get _ i r _ Hu' Hn Ha Hk).
  unfold entry_of_row. now rewrite Hm1, Hm2, Hm3.
Qed.

(** The hypotheses of [persisted_entry], for the data of a pass. *)
Lemma pass_data_distinct pages data :
  NoDup (listed_ids pages) -> Forall hex32 (listed_ids pages) ->
  Forall2 tuple_for (filter (fun q => negb (skipped q)) pages) data ->
  NoDup (map tuple_key data)
  /\ forall t, In t data -> tuple_key t <> EmptyString.
Proof.
  intros Hnd Hh Hf.
  pose proof (listed_ids_filter_hex32 (fun q => negb (skipped q)) pages Hh) as Hh'.
  rewrite (tuple_keys_of_pages _ _ Hh' Hf) at 1. split.
  - now apply listed_ids_filter_nodup.
  - intros t Hin.
    assert (Hk : In (tuple_key t) (map tuple_key data)) by (now apply in_map).
    rewrite (tuple_keys_of_pages _ _ Hh' Hf) in Hk.
    rewrite Forall_forall in Hh'. apply hex32_nonempty. now apply Hh'.
Qed.

Section QuietFacts.

Variable TELEGRAM_CHAT_ID : string.
Variable date_parse : string -> option Z.
Variable bot : list TgEvent -> TgCall -> TgResult.


Lemma fold_cleanup_listed ids ks :
  forall s, (forall k, In k ks -> In k ids) ->
            fold_left (cleanup_one ids) ks s = s.
Proof.
  induction ks as [|k ks IH]; intros s H; cbn [fold_left]; [reflexivity|].
  assert (Hk : cleanup_one ids s k = s).
  { unfold cleanup_one. now rewrite (proj2 (set_mem_in k ids) (H k (or_introl eq_refl))). }
  rewrite Hk. apply IH. intros k' Hin. apply H. now right.
Qed.

Lemma cleanup_posts_keys ids s k :
  In k (Dict.keys (pinned (cleanup_posts ids s))) -> In k ids.
Proof.
  intros Hin. destruct (in_dec string_dec k ids) as [Hk|Hk]; [exact Hk|].
  exfalso. apply DictFacts.in_keys_get in Hin. destruct Hin as [v Hv].
  unfold cleanup_posts in Hv.
  rewrite (fold_cleanup_entry ids k Hk (Dict.keys (pinned s)) s) in Hv.
  destruct (set_mem k (Dict.keys (pinned s))) eqn:Hmem; [discriminate|].
  apply set_mem_not_in in Hmem. apply Hmem, DictFacts.in_keys_get.
  now exists v.
Qed.

Lemma cleanup_posts_log ids s : tg_log (cleanup_posts ids s) = tg_log s.
Proof. apply fold_cleanup_log. Qed.

Lemma listed_ids_inj pages q q' :
  NoDup (listed_ids pages) -> In q pages -> In q' pages ->
  _normalize_page_id (page_id q') = _normalize_page_id (page_id q) -> q' = q.
Proof.
  unfold listed_ids. induction pages as [|p pages IH]; simpl; intros Hnd Hq Hq' He.
  - contradiction.
  - inversion Hnd as [|? ? Hnotin Hnd']; subst.
    destruct Hq as [->|Hq]; destruct Hq' as [->|Hq'].
    + reflexivity.
    + exfalso. apply Hnotin. rewrite <- He. apply in_map_iff. now exists q'.
    + exfalso. apply Hnotin. rewrite He. apply in_map_iff. now exists q.
    + now apply IH.
Qed.

(** A listed page that has nothing to push: the pass logs no event for
    it, and its entry is the same after the loop and after the cleanup. *)
Lemma quiet_page (notion : list StoreCall -> StoreCall -> bool) pages s q :
  NoDup (listed_ids pages) -> In q pages ->
  unchanged_page date_parse s q ->
  (exists evs,
      tg_log (sync TELEGRAM_CHAT_ID date_parse bot notion pages s)
      = (tg_log s ++ evs)%list
      /\ events_for (_normalize_page_id (page_id q)) evs = [])
  /\ Dict.get (_normalize_page_id (page_id q))
       (pinned (cleanup_posts (listed_ids pages)
                  (fst (fst (sync_loop TELEGRAM_CHAT_ID date_parse bot pages s)))))
     = Dict.get (_normalize_page_id (page_id q)) (pinned s).
Proof.
  intros Hnd Hin Hu. set (X := _normalize_page_id (page_id q)).
  assert (HX : In X (listed_ids pages)).
  { unfold listed_ids. apply in_map_iff. now exists q. }
  assert (Hloop : touches (fun k => k <> X) s
                    (fst (fst (sync_loop TELEGRAM_CHAT_ID date_parse bot pages s)))).
  { unfold sync_loop. apply fold_sync_page_touches.
    - intros k. destruct (string_dec k X); [right | left]; congruence.
    - intros q' Hin'.
      destruct (string_dec (_normalize_page_id (page_id q')) X) as [He|Hne];
        [right | now left].
      now rewrite (listed_ids_inj pages q q' Hnd Hin Hin' He). }
  unfold sync.
  destruct (sync_loop TELEGRAM_CHAT_ID date_parse bot pages s)
    as [[s1 ids] data] eqn:E.
  pose proof (sync_loop_ids TELEGRAM_CHAT_ID date_parse bot pages s) as Hids.
  rewrite E in Hids. simpl in Hids, Hloop. subst ids.
  destruct Hloop as (_ & _ & (ev1 & Hl1 & Hf1) & Hg1).
  pose proof (fold_cleanup_touches (listed_ids pages) (Dict.keys (pinned s1)) s1)
    as (_ & _ & (ev2 & Hl2 & Hf2) & Hg2).
  fold (cleanup_posts (listed_ids pages) s1) in Hl2, Hg2.
  destruct (persist_cases notion data (cleanup_posts (listed_ids pages) s1))
    as [Hl3 _].
  split.
  - exists (ev1 ++ ev2)%list. split.
    + now rewrite Hl3, Hl2, Hl1, app_assoc.
    + rewrite events_for_app.
      rewrite (events_for_none (fun k => k <> X) X ev1 Hf1) by congruence.
      rewrite (events_for_none (fun k => ~ In k (listed_ids pages)) X ev2 Hf2)
        by (intros H; now apply H).
      reflexivity.
  - simpl. rewrite Hg2 by (intros H; now apply H). apply Hg1. congruence.
Qed.

End QuietFacts.

(** ** The message identifier through the link of the store *)

Lemma str_of_int_pos p :
  Py.str_of_int (Zpos p) = NilEmpty.string_of_uint (Pos.to_uint p).
Proof.
  unfold Py.str_of_int. simpl.
  pose proof (Unsigned.to_uint_nonnil p) as Hn.
  destruct (Pos.to_uint p); [congruence | reflexivity ..].
Qed.

Lemma all_digits_string_of_uint d :
  Py.all_digits (NilEmpty.string_of_uint d) = true.
Proof. induction d; simpl; auto. Qed.

Lemma string_of_uint_nonempty d :
  d <> Decimal.Nil -> NilEmpty.string_of_uint d <> EmptyString.
Proof. destruct d; simpl; congruence. Qed.

Lemma int_of_digits_pos p :
  Py.int_of_digits (NilEmpty.string_of_uint (Pos.to_uint p)) = Some (Zpos p).
Proof.
  unfold Py.int_of_digits. rewrite NilEmpty.usu. simpl.
  unfold Z.of_uint. now rewrite Unsigned.of_to.
Qed.

Lemma isdigit_not_newline c :
  Py.isdigit c = true -> Ascii.eqb c (ascii_of_nat 10) = false.
Proof.
  intros H. destruct (Ascii.eqb_spec c (ascii_of_nat 10)) as [->|]; [|reflexivity].
  discriminate.
Qed.

Lemma digits_to_end_digits d :
  Py.all_digits d = true -> d <> EmptyString -> digits_to_end d = Some d.
Proof.
  induction d as [|c r IH]; intros Hd Hne; [congruence|].
  simpl in Hd. apply andb_true_iff in Hd. destruct Hd as [Hc Hr].
  cbn [digits_to_end]. rewrite Hc.
  destruct r as [|c' r'].
  - reflexivity.
  - simpl in Hr. apply andb_true_iff in Hr. destruct Hr as [Hc' Hr'].
    replace (String.eqb (String c' r') EmptyString) with false by reflexivity.
    replace (String.eqb (String c' r') Py.LF) with false.
    + cbn [orb]. rewrite IH; [reflexivity | | discriminate].
      simpl. now rewrite Hc', Hr'.
    + unfold Py.LF. cbn [String.eqb]. now rewrite (isdigit_not_newline c' Hc').
Qed.

Lemma append_slash_not_empty p d :
  String.eqb (p ++ String "/" d) EmptyString = false.
Proof. destruct p; reflexivity. Qed.

Lemma append_slash_not_newline p d :
  String.eqb (p ++ String "/" d) Py.LF = false.
Proof.
  destruct p as [|x p]; [reflexivity|]. unfold Py.LF. cbn [append String.eqb].
  rewrite append_slash_not_empty. now destruct (Ascii.eqb x (ascii_of_nat 10)).
Qed.

Lemma digits_to_end_slash p d : digits_to_end (p ++ String "/" d) = None.
Proof.
  induction p as [|c p IH]; [reflexivity|].
  cbn [append digits_to_end]. destruct (Py.isdigit c); [|reflexivity].
  now rewrite append_slash_not_empty, append_slash_not_newline, IH.
Qed.

Lemma search_message_id_last p d :
  digits_to_end d = Some d -> search_message_id (p ++ String "/" d) = Some d.
Proof.
  intros Hd. induction p as [|c p IH].
  - cbn [append search_message_id]. replace (Ascii.eqb "/" "/") with true by reflexivity.
    now rewrite Hd.
  - cbn [append search_message_id]. destruct (Ascii.eqb c "/"); [|exact IH].
    now rewrite digits_to_end_slash.
Qed.

Lemma message_id_of_tg_url chat p :
  message_id_of_url (Some (tg_url_of chat (Some (Zpos p)))) = Some (Zpos p).
Proof.
  unfold tg_url_of. cbn [truthy_id Z.eqb].
  set (d := Py.str_of_int (Zpos p)).
  assert (Hd : digits_to_end d = Some d).
  { unfold d. rewrite str_of_int_pos. apply digits_to_end_digits.
    - apply all_digits_string_of_uint.
    - apply string_of_uint_nonempty, Unsigned.to_uint_nonnil. }
  replace ("https://t.me/c/" ++ Py.remove "-100" chat ++ "/" ++ d)
    with (("https://t.me/c/" ++ Py.remove "-100" chat) ++ String "/" d)
    by (now rewrite append_assoc).
  unfold message_id_of_url.
  replace (Py.nonempty (("https://t.me/c/" ++ Py.remove "-100" chat) ++ String "/" d))
    with true by reflexivity.
  rewrite (search_message_id_last _ d Hd).
  unfold d. rewrite str_of_int_pos. apply int_of_digits_pos.
Qed.


(** ** What a pass writes and reads back *)

Section ReadBackFacts.

Variable TELEGRAM_CHAT_ID : string.
Variable date_parse : string -> option Z.
Variable bot : list TgEvent -> TgCall -> TgResult.

Local Notation sync_page := (sync_page TELEGRAM_CHAT_ID date_parse bot).
Local Notation sync_loop := (sync_loop TELEGRAM_CHAT_ID date_parse bot).
Local Notation norm q := (_normalize_page_id (page_id q)).

(** The tuple of a page that is not skipped carries the message the
    entry of the page holds when the loop ends. *)
Lemma fold_sync_page_tg_url pages :
  forall s ids data,
    NoDup (listed_ids pages) ->
    forall q, In q pages -> skipped q = false ->
      exists t,
        In t (snd (fold_left sync_page pages (s, ids, data)))
        /\ tuple_for q t
        /\ st_tg_url t
           = tg_url_of TELEGRAM_CHAT_ID
               (pinned_message_id (norm q)
                  (fst (fst (fold_left sync_page pages (s, ids, data))))).
Proof.
  induction pages as [|q0 pages IH]; intros s ids data Hnd q Hin Hsk;
    [contradiction|].
  cbn [fold_left].
  inversion Hnd as [|? ? Hnotin Hnd']; subst.
  pose proof (sync_page_data TELEGRAM_CHAT_ID date_parse bot s ids data q0)
    as [new [Hd Hcase]].
  destruct (sync_page (s, ids, data) q0) as [[s' ids'] data'] eqn:E.
  simpl in Hd, Hcase.
  destruct Hin as [->|Hin]; [|now apply IH].
  destruct Hcase as [[Hs _] | [_ [t [-> [Ht Hurl]]]]]; [congruence|].
  destruct (fold_sync_page_data TELEGRAM_CHAT_ID date_parse bot pages s' ids' data')
    as [new' [Hd' _]].
  exists t. split; [|split; [exact Ht|]].
  - rewrite Hd', Hd. apply in_or_app. left. apply in_or_app. right. now left.
  - rewrite Hurl. f_equal. unfold pinned_message_id.
    pose proof (fold_sync_page_touches TELEGRAM_CHAT_ID date_parse bot
                  (fun k => In k (listed_ids pages))
                  (in_listed_ids_dec pages) pages s' ids' data') as Ht'.
    destruct Ht' as (_ & _ & _ & Hg).
    { intros q' Hq'. left. unfold listed_ids. apply in_map_iff. now exists q'. }
    now rewrite (Hg (norm q) Hnotin).
Qed.

Lemma sync_loop_tg_url pages s q :
  NoDup (listed_ids pages) -> In q pages -> skipped q = false ->
  exists t,
    In t (snd (sync_loop pages s))
    /\ tuple_for q t
    /\ st_tg_url t
       = tg_url_of TELEGRAM_CHAT_ID
           (pinned_message_id (norm q) (fst (fst (sync_loop pages s)))).
Proof. intros. unfold_sync_loop. now apply fold_sync_page_tg_url. Qed.

Variable notion : list StoreCall -> StoreCall -> bool.
Hypothesis notion_answers : forall h c, notion h c = true.

Local Notation sync := (sync TELEGRAM_CHAT_ID date_parse bot notion).

(** With a store that answers: the entry of a listed page that is not
    skipped, when the pass ends, is the one read back from its row. *)
Lemma sync_reads_back pages s q :
  NoDup (listed_ids pages) -> Forall hex32 (listed_ids pages) ->
  unique_keys (db s) ->
  In q pages -> skipped q = false ->
  exists title rest,
    title_texts q = title :: rest
    /\ Dict.get (norm q) (pinned (sync pages s))
       = Some
           {| message_id :=
                message_id_of_url
                  (let u := tg_url_of TELEGRAM_CHAT_ID
                              (pinned_message_id (norm q)
                                 (fst (fst (sync_loop pages s)))) in
                   if Py.nonempty u then Some u else None);
              last_edited := last_edited_time q;
              entry_title := Some title |}.
Proof.
  intros Hnd Hhex Hu Hin Hsk.
  destruct (sync_loop_tg_url pages s q Hnd Hin Hsk) as (t & Htin & Htq & Hurl).
  pose proof (sync_loop_touches TELEGRAM_CHAT_ID date_parse bot pages s) as Ht.
  pose proof (sync_loop_ids TELEGRAM_CHAT_ID date_parse bot pages s) as Hids.
  pose proof (sync_loop_data TELEGRAM_CHAT_ID date_parse bot pages s) as Hdata.
  unfold_sync.
  destruct (sync_loop pages s) as [[s1 ids] data]. simpl in *. subst ids.
  destruct Ht as (Hdb1 & _ & _ & _).
  pose proof (fold_cleanup_touches (listed_ids pages) (Dict.keys (pinned s1)) s1)
    as (Hdb2 & _ & _ & _).
  fold (cleanup_posts (listed_ids pages) s1) in Hdb2.
  assert (Hne : data <> []) by (intros ->; contradiction).
  rewrite (persist_answers notion data _ notion_answers Hne). simpl.
  destruct (pass_data_distinct pages data Hnd Hhex Hdata) as [Hnd' Hne'].
  assert (Hq : In (norm q) (listed_ids pages)).
  { unfold listed_ids. apply in_map_iff. now exists q. }
  rewrite Forall_forall in Hhex.
  pose proof (tuple_for_key q t (Hhex _ Hq) Htq) as Hkey.
  pose proof (persisted_entry data (db (cleanup_posts (listed_ids pages) s1)) t)
    as Hget.
  rewrite Hkey in Hget. rewrite Hget; try assumption.
  - destruct Htq as (_ & Hdt & rest & Htitle).
    exists (st_title t), rest. split; [exact Htitle|].
    unfold props_of. simpl. now rewrite Hurl, Hdt.
  - now rewrite Hdb2, Hdb1.
Qed.

End ReadBackFacts.

(** ** The kinds of calls of each step *)

Lemma logs_only_refl Q s : logs_only Q s s.
Proof. exists []. split; [now rewrite app_nil_r | constructor]. Qed.

Lemma logs_only_trans Q s1 s2 s3 :
  logs_only Q s1 s2 -> logs_only Q s2 s3 -> logs_only Q s1 s3.
Proof.
  intros (e1 & H1 & F1) (e2 & H2 & F2). exists (e1 ++ e2)%list. split.
  - now rewrite H2, H1, app_assoc.
  - apply Forall_app. now split.
Qed.

Section KindFacts.

Variable TELEGRAM_CHAT_ID : string.
Variable date_parse : string -> option Z.
Variable bot : list TgEvent -> TgCall -> TgResult.

Lemma tg_call_logs (Q : TgEvent -> Prop) page c s :
  (forall r, Q {| ev_page := page; ev_call := c; ev_result := r |}) ->
  logs_only Q s (snd (tg_call bot page c s)).
Proof.
  intros HQ. unfold tg_call. simpl. eexists. split; [reflexivity|].
  constructor; [apply HQ | constructor].
Qed.

Lemma with_pinned_logs Q d s : logs_only Q s (with_pinned d s).
Proof. exists []. split; [simpl; now rewrite app_nil_r | constructor]. Qed.

Local Notation is_posting := (fun e => posting e = true).

Lemma create_post_posting page text le s :
  logs_only is_posting s (create_post bot page text le s).
Proof.
  unfold create_post.
  pose proof (tg_call_logs is_posting page (send_message text) s
                (fun _ => eq_refl)) as H1.
  destruct (tg_call bot page (send_message text) s) as [[|mid] s1]; simpl in H1;
    [exact H1|].
  pose proof (tg_call_logs is_posting page (pin_chat_message mid) s1
                (fun _ => eq_refl)) as H2.
  destruct (tg_call bot page (pin_chat_message mid) s1) as [[|x] s2]; simpl in H2.
  - eapply logs_only_trans; eassumption.
  - eapply logs_only_trans; [exact H1|]. eapply logs_only_trans; [exact H2|].
    apply with_pinned_logs.
Qed.

Lemma push_page_posting page message le s :
  logs_only is_posting s (push_page bot page message le s).
Proof.
  unfold push_page.
  destruct (truthy_id (pinned_message_id page s)) as [old|];
    [|apply create_post_posting].
  pose proof (tg_call_logs is_posting page (edit_message_text old message) s
                (fun _ => eq_refl)) as H1.
  destruct (tg_call bot page (edit_message_text old message) s) as [[|x] s1];
    simpl in H1.
  - eapply logs_only_trans; [exact H1 | apply create_post_posting].
  - pose proof (tg_call_logs is_posting page (pin_chat_message old) s1
                  (fun _ => eq_refl)) as H2.
    destruct (tg_call bot page (pin_chat_message old) s1) as [[|y] s2]; simpl in H2.
    + eapply logs_only_trans; [exact H1|]. eapply logs_only_trans; [exact H2|].
      apply create_post_posting.
    + eapply logs_only_trans; [exact H1|]. eapply logs_only_trans; [exact H2|].
      apply with_pinned_logs.
Qed.

Lemma sync_page_posting s ids data q :
  logs_only is_posting s
    (fst (fst (sync_page TELEGRAM_CHAT_ID date_parse bot (s, ids, data) q))).
Proof.
  unfold sync_page.
  destruct (title_texts q) as [|title rest]; [apply logs_only_refl|].
  destruct (Py.startswith_any _ _); [apply logs_only_refl|].
  timestamps.
  destruct (negb _); [|apply logs_only_refl].
  simpl. apply push_page_posting.
Qed.

Lemma sync_loop_posting pages s :
  logs_only is_posting s
    (fst (fst (sync_loop TELEGRAM_CHAT_ID date_parse bot pages s))).
Proof.
  unfold sync_loop. generalize (@nil string) (@nil SyncTuple). revert s.
  induction pages as [|q pages IH]; intros s ids data; cbn [fold_left].
  - apply logs_only_refl.
  - pose proof (sync_page_posting s ids data q) as H1.
    destruct (sync_page TELEGRAM_CHAT_ID date_parse bot (s, ids, data) q)
      as [[s1 ids1] data1]. simpl in H1.
    eapply logs_only_trans; [exact H1 | apply IH].
Qed.

End KindFacts.

(** ** Claims on the reconciler *)

Section ReconcilerClaims.

Variable TELEGRAM_CHAT_ID : string.
Variable date_parse : string -> option Z.
Variable bot : list TgEvent -> TgCall -> TgResult.
Variable notion : list StoreCall -> StoreCall -> bool.

Local Notation sync := (sync TELEGRAM_CHAT_ID date_parse bot notion).
Local Notation sync_loop := (sync_loop TELEGRAM_CHAT_ID date_parse bot).
Local Notation sync_page := (sync_page TELEGRAM_CHAT_ID date_parse bot).
Local Notation ts t := (_to_timestamp date_parse (VTime t)).

(** The three steps of a pass, with what the lemmas above say of each. *)
Lemma sync_steps pages s :
  exists s1 data,
    sync_loop pages s = (s1, listed_ids pages, data)
    /\ sync pages s
       = persist notion data (cleanup_posts (listed_ids pages) s1)
    /\ Forall2 tuple_for (filter (fun q => negb (skipped q)) pages) data.
Proof.
  pose proof (sync_loop_ids TELEGRAM_CHAT_ID date_parse bot pages s) as Hids.
  pose proof (sync_loop_data TELEGRAM_CHAT_ID date_parse bot pages s) as Hdata.
  unfold_sync.
  destruct (sync_loop pages s) as [[s1 ids] data]. simpl in Hids, Hdata.
  subst ids. exists s1, data. now repeat split.
Qed.

(** C5: the cleanup attempts nothing. For an identifier [X] that the
    prior mapping holds and the listing does not, every call a pass makes
    at the destination posts, edits or pins a message, and none is made
    for [X]: neither the unpin nor the delete of the message of [X] is
    attempted. [X] is out of [self.pinned] when the cleanup ends all the
    same. *)
Theorem C5_cleanup_attempts_nothing (pages : list Page) (s : State) (X : string)
    (e : Entry) :
  Dict.get X (pinned s) = Some e ->
  ~ In X (listed_ids pages) ->
  (exists evs,
      tg_log (sync pages s) = (tg_log s ++ evs)%list
      /\ Forall (fun ev => posting ev = true) evs
      /\ events_for X evs = [])
  /\ ~ In X (Dict.keys
               (pinned (cleanup_posts (listed_ids pages)
                          (fst (fst (sync_loop pages s)))))).
Proof.
  intros Hget HX.
  destruct (sync_steps pages s) as (s1 & data & Hloop & Hsync & Hdata).
  pose proof (sync_loop_touches TELEGRAM_CHAT_ID date_parse bot pages s) as Ht.
  pose proof (sync_loop_posting TELEGRAM_CHAT_ID date_parse bot pages s) as Hp.
  rewrite Hloop in Ht, Hp. simpl in Ht, Hp.
  destruct Ht as (_ & _ & (ev1 & Hl1 & Hf1) & _).
  destruct Hp as (ev1' & Hl1' & Hp1).
  assert (ev1' = ev1) by (rewrite Hl1 in Hl1'; now apply app_inv_head in Hl1').
  subst ev1'.
  destruct (persist_cases notion data (cleanup_posts (listed_ids pages) s1))
    as [Hl3 _].
  rewrite Hloop. simpl. rewrite Hsync. split.
  - exists ev1. split; [now rewrite Hl3, cleanup_posts_log|].
    split; [exact Hp1|].
    exact (events_for_none (fun k => In k (listed_ids pages)) X ev1 Hf1 HX).
  - intros Hin. apply HX. eapply cleanup_posts_keys. exact Hin.
Qed.


(** C10, as amended: [_to_timestamp] returns an integer for every
    argument but a float that is not a number or is infinite, and for
    these it raises; it answers 0 to [None], to the empty string, to a
    string the parser rejects, to a float that is zero and to any other
    object that is false or that the parser rejects. Hence for a page
    with such a timestamp and no entry in [self.pinned], the iteration of
    the loop leaves the state as it is and a pass whose listed
    identifiers are distinct logs no destination event for the page, so
    no message is created for it. *)
Theorem C10_to_timestamp_total_on_finite :
  (forall dt : PyValue,
      (exists n, _to_timestamp date_parse dt = Some n)
      <-> dt <> VFloat FNaN /\ forall negative, dt <> VFloat (FInf negative))
  /\ (forall dt : PyValue,
         _to_timestamp date_parse dt = None
         <-> dt = VFloat FNaN \/ exists negative, dt = VFloat (FInf negative))
  /\ ts TNone = Some 0%Z
  /\ ts (TStr EmptyString) = Some 0%Z
  /\ (forall str, date_parse str = None -> ts (TStr str) = Some 0%Z)
  /\ (forall e, _to_timestamp date_parse (VFloat (FFinite 0 e)) = Some 0%Z)
  /\ (forall parsed, _to_timestamp date_parse (VOther false parsed) = Some 0%Z)
  /\ _to_timestamp date_parse (VOther true None) = Some 0%Z
  /\ (forall (pages : list Page) (s : State) (q : Page),
         NoDup (listed_ids pages) -> In q pages ->
         Dict.get (_normalize_page_id (page_id q)) (pinned s) = None ->
         ts (last_edited_time q) = Some 0%Z ->
         (forall ids data, fst (fst (sync_page (s, ids, data) q)) = s)
         /\ exists evs,
              tg_log (sync pages s) = (tg_log s ++ evs)%list
              /\ events_for (_normalize_page_id (page_id q)) evs = []).
Proof.
  assert (Hraises : forall dt : PyValue,
             _to_timestamp date_parse dt = None
             <-> dt = VFloat FNaN \/ exists negative, dt = VFloat (FInf negative)).
  { intros dt. split.
    - destruct dt as [t|f|truthy parsed].
      + destruct (to_timestamp_time date_parse t) as [n Hn]. congruence.
      + destruct f as [|negative|m e]; [now left | right; now exists negative |].
        cbn [_to_timestamp float_truthy int_of_float].
        destruct (negb (m =? 0)%Z); discriminate.
      + cbn [_to_timestamp]. destruct truthy; [|discriminate].
        destruct parsed; discriminate.
    - intros [-> | [negative ->]]; reflexivity. }
  split; [|split; [exact Hraises|]].
  - intros dt. split.
    + intros [n Hn]. split.
      * intros ->. discriminate.
      * intros negative ->. discriminate.
    + intros [Hnan Hinf].
      destruct (_to_timestamp date_parse dt) as [n|] eqn:E; [now exists n|].
      apply Hraises in E. destruct E as [E | [negative E]]; [contradiction|].
      now apply Hinf in E.
  - split; [reflexivity|]. split; [reflexivity|]. split; [|split; [|split; [|split]]].
    + intros str H. cbn [_to_timestamp]. rewrite H. now destruct (Py.nonempty str).
    + reflexivity.
    + reflexivity.
    + reflexivity.
    + intros pages s q Hnd Hin Hnone Hts.
      assert (Hu : unchanged_page date_parse s q).
      { right. unfold pinned_last_edited. now rewrite Hnone, Hts. }
      split.
      * intros ids data. now apply sync_page_unchanged.
      * apply (quiet_page TELEGRAM_CHAT_ID date_parse bot notion pages s q Hnd Hin Hu).
Qed.


(** The iteration of the loop for the page of the scenario, when the
    destination takes the message and the pin. *)
Lemma hello_step (id : string) (t : PyTime) (s : State) ids data (mid r : Z) :
  Dict.get (_normalize_page_id id) (pinned s) = None ->
  ts t <> Some 0%Z ->
  bot (tg_log s) (send_message hello_message) = Returned mid ->
  bot (tg_log s
       ++ [ {| ev_page := _normalize_page_id id;
               ev_call := send_message hello_message;
               ev_result := Returned mid |} ])%list
    (pin_chat_message mid) = Returned r ->
  sync_page (s, ids, data) (hello_page id t)
  = ( {| pinned :=
           Dict.set (_normalize_page_id id)
             {| message_id := Some mid; last_edited := t; entry_title := None |}
             (pinned s);
         db := db s;
         tg_log :=
           (tg_log s
            ++ [ {| ev_page := _normalize_page_id id;
                    ev_call := send_message hello_message;
                    ev_result := Returned mid |};
                 {| ev_page := _normalize_page_id id;
                    ev_call := pin_chat_message mid;
                    ev_result := Returned r |} ])%list;
         notion_log := notion_log s |},
      (ids ++ [_normalize_page_id id])%list,
      (data ++ [ {| st_title := "Hello";
                   st_notion_url := notion_url_of (_normalize_page_id id);
                   st_tg_url := tg_url_of TELEGRAM_CHAT_ID (Some mid);
                   st_dt := t |} ])%list ).
Proof.
  intros Hnone Hts Hsend Hpin.
  unfold_sync_page. unfold hello_page.
  cbn [page_id title_texts last_edited_time page_blocks].
  replace (Py.startswith_any SKIP_TITLE_PREFIXES (Py.strip "Hello"))
    with false by reflexivity.
  unfold pinned_last_edited, pinned_message_id. rewrite Hnone.
  replace (ts TNone) with (Some 0%Z) by reflexivity.
  destruct (to_timestamp_time date_parse t) as [n Hn]. rewrite Hn in Hts |- *.
  destruct (Z.eqb_spec n 0) as [->|_]; [contradiction|].
  cbn [negb].
  replace (message_of "Hello"
             (NotionHandler.get_page_content
                (Some [BParagraph [plain_run "World"]])))
    with hello_message by reflexivity.
  unfold push_page, pinned_message_id. rewrite Hnone. cbn [truthy_id].
  unfold create_post, tg_call. rewrite Hsend. cbn [tg_log pinned db notion_log].
  rewrite Hpin. unfold with_pinned. cbn [tg_log pinned db notion_log].
  rewrite DictFacts.get_set_same. cbn [message_id].
  rewrite <- app_assoc. reflexivity.
Qed.

(** C9: for the page titled Hello with the one paragraph World, no entry
    in [self.pinned], a timestamp that is not 0, a destination that takes
    the message (answering the identifier [mid]) and the pin, and a
    store that answers: the pass posts one message, [hello_message], and
    pins it, these being all it posts; at the end the entry of the page
    holds [mid] and the timestamp of the page, and [self.pinned] is the
    mapping read off the rows of the store. *)
Theorem C9_hello_world (id : string) (t : PyTime) (s : State) (mid : positive)
    (r : Z) :
  hex32 (_normalize_page_id id) ->
  unique_keys (db s) ->
  (forall h c, notion h c = true) ->
  Dict.get (_normalize_page_id id) (pinned s) = None ->
  ts t <> Some 0%Z ->
  bot (tg_log s) (send_message hello_message) = Returned (Zpos mid) ->
  bot (tg_log s
       ++ [ {| ev_page := _normalize_page_id id;
               ev_call := send_message hello_message;
               ev_result := Returned (Zpos mid) |} ])%list
    (pin_chat_message (Zpos mid)) = Returned r ->
  (exists evs,
      tg_log (sync [hello_page id t] s) = (tg_log s ++ evs)%list
      /\ filter posting evs
         = [ {| ev_page := _normalize_page_id id;
                ev_call := send_message hello_message;
                ev_result := Returned (Zpos mid) |};
             {| ev_page := _normalize_page_id id;
                ev_call := pin_chat_message (Zpos mid);
                ev_result := Returned r |} ])
  /\ Dict.get (_normalize_page_id id) (pinned (sync [hello_page id t] s))
     = Some {| message_id := Some (Zpos mid);
               last_edited := t;
               entry_title := Some "Hello" |}
  /\ pinned (sync [hello_page id t] s)
     = mapping_of (query_results (db (sync [hello_page id t] s))).
Proof.
  intros Hhex Hu Hok Hnone Hts Hsend Hpin.
  set (X := _normalize_page_id id) in *.
  assert (Hloop : sync_loop [hello_page id t] s
                  = fold_left sync_page [hello_page id t] (s, [], []))
    by reflexivity.
  cbn [fold_left] in Hloop.
  rewrite (hello_step id t s [] [] (Zpos mid) r Hnone Hts Hsend Hpin) in Hloop.
  fold X in Hloop. cbn [app] in Hloop.
  split; [|split].
  - unfold_sync. rewrite Hloop.
    match goal with
    | |- context [persist notion ?d ?c] =>
        destruct (persist_cases notion d c) as [Hl _]; rewrite Hl
    end.
    rewrite cleanup_posts_log. cbn [tg_log]. eexists. split; reflexivity.
  - assert (Hin : In (hello_page id t) [hello_page id t]) by (now left).
    assert (Hnd : NoDup (listed_ids [hello_page id t])).
    { constructor; [intros [] | constructor]. }
    assert (Hh : Forall hex32 (listed_ids [hello_page id t])).
    { constructor; [exact Hhex | constructor]. }
    destruct (sync_reads_back TELEGRAM_CHAT_ID date_parse bot notion Hok
                [hello_page id t] s (hello_page id t) Hnd Hh Hu Hin eq_refl)
      as (title & rest & Htitle & Hget).
    cbn [hello_page title_texts page_id last_edited_time] in Htitle, Hget.
    fold X in Hget. rewrite Hget. inversion Htitle; subst title rest.
    rewrite Hloop. cbn [fst]. unfold pinned_message_id. cbn [pinned].
    rewrite DictFacts.get_set_same. cbn [message_id].
    replace (Py.nonempty (tg_url_of TELEGRAM_CHAT_ID (Some (Zpos mid))))
      with true by reflexivity.
    cbv zeta. now rewrite message_id_of_tg_url.
  - unfold_sync. rewrite Hloop.
    rewrite persist_answers; [reflexivity | exact Hok | discriminate].
Qed.


(** C6, as amended: for a page that is not skipped, whose timestamp
    differs from the stored one and whose entry holds a message [old],
    when the edit of [old] raises the iteration sends a new message,
    once, whatever the destination answers. When the destination takes
    that message (answering [new]) and its pin, the three calls are all
    the iteration logs, the entry of the page is set to [new] with the
    timestamp of the page, and the tuple of the page carries the link of
    [new]. When the send raises, or the pin of the message sent raises,
    nothing more is called and the entry of the page stays as it was. *)
Theorem C6_fallback_attempts_create (s : State) ids data (q : Page)
    (title : string) (rest : list string) (old : Z) :
  let k := _normalize_page_id (page_id q) in
  let msg := message_of title (NotionHandler.get_page_content (page_blocks q)) in
  let edit := {| ev_page := k;
                 ev_call := edit_message_text old msg;
                 ev_result := Raised |} in
  let sent := fun answer => {| ev_page := k;
                               ev_call := send_message msg;
                               ev_result := answer |} in
  let s' := fst (fst (sync_page (s, ids, data) q)) in
  title_texts q = title :: rest ->
  skipped q = false ->
  ts (last_edited_time q) <> ts (pinned_last_edited k s) ->
  truthy_id (pinned_message_id k s) = Some old ->
  bot (tg_log s) (edit_message_text old msg) = Raised ->
  match bot (tg_log s ++ [edit])%list (send_message msg) with
  | Raised =>
      tg_log s' = (tg_log s ++ [edit; sent Raised])%list
      /\ Dict.get k (pinned s') = Dict.get k (pinned s)
  | Returned new =>
      match bot (tg_log s ++ [edit; sent (Returned new)])%list
              (pin_chat_message new) with
      | Raised =>
          tg_log s'
          = (tg_log s
             ++ [ edit; sent (Returned new);
                  {| ev_page := k;
                     ev_call := pin_chat_message new;
                     ev_result := Raised |} ])%list
          /\ Dict.get k (pinned s') = Dict.get k (pinned s)
      | Returned r =>
          tg_log s'
          = (tg_log s
             ++ [ edit; sent (Returned new);
                  {| ev_page := k;
                     ev_call := pin_chat_message new;
                     ev_result := Returned r |} ])%list
          /\ Dict.get k (pinned s')
             = Some {| message_id := Some new;
                       last_edited := last_edited_time q;
                       entry_title := None |}
          /\ snd (sync_page (s, ids, data) q)
             = (data ++ [ {| st_title := title;
                            st_notion_url := notion_url_of k;
                            st_tg_url := tg_url_of TELEGRAM_CHAT_ID (Some new);
                            st_dt := last_edited_time q |} ])%list
      end
  end.
Proof.
  intros k msg edit sent s' Htitle Hsk Hts Hold Hedit.
  unfold s'.
  rewrite (sync_page_changed TELEGRAM_CHAT_ID date_parse bot s ids data q title
             rest Htitle Hsk Hts).
  fold k msg. cbn [fst snd].
  unfold push_page. rewrite Hold.
  unfold create_post, tg_call. rewrite Hedit. cbn [tg_log pinned db notion_log].
  fold edit.
  destruct (bot (tg_log s ++ [edit])%list (send_message msg)) as [|new] eqn:Hsend.
  - cbn [tg_log pinned]. rewrite <- app_assoc. now split.
  - cbn [tg_log pinned db notion_log]. fold (sent (Returned new)).
    rewrite <- app_assoc. cbn [app].
    destruct (bot (tg_log s ++ [edit; sent (Returned new)])%list
                (pin_chat_message new)) as [|r] eqn:Hpin.
    + cbn [tg_log pinned]. rewrite <- app_assoc. now split.
    + unfold with_pinned, pinned_message_id. cbn [tg_log pinned].
      rewrite DictFacts.get_set_same. cbn [message_id].
      rewrite <- app_assoc. now repeat split.
Qed.


(** *** Retired pages and archived rows *)






End ReconcilerClaims.

(** ** The claims at concrete runs *)

(** C6 as stated fails: page A is synced as message 7, its source is
    edited, and the destination refuses every call. The edit raises, the
    send of the fallback raises too, so no message is created, and the
    entry of the page still refers to message 7 when the pass ends. *)
Lemma C6_counterexample_create_fails :
  tg_log (sync sample_chat sample_parse bot_down store_up
            [page_a second_edit; page_b "Bee"] synced_state)
  = [ {| ev_page := id_a;
         ev_call := edit_message_text 7 hello_message;
         ev_result := Raised |};
      {| ev_page := id_a;
         ev_call := send_message hello_message;
         ev_result := Raised |} ]
  /\ pinned_message_id id_a
       (sync sample_chat sample_parse bot_down store_up
          [page_a second_edit; page_b "Bee"] synced_state)
     = Some 7%Z.
Proof. vm_compute. split; reflexivity. Qed.

(** C4: a new page A whose message cannot be sent. The destination
    refuses the send of the first pass; the pass writes the row of the
    page with the timestamp of the page all the same and reads it back,
    so the entry holds that timestamp and no message. The second pass,
    with a destination that would now take the message, compares equal
    timestamps and calls nothing. *)
Theorem C4_failed_create_is_persisted :
  tg_log (sync sample_chat sample_parse bot_down_then_up store_up
            [page_a first_edit] empty_state)
  = [ {| ev_page := id_a;
         ev_call := send_message hello_message;
         ev_result := Raised |} ]
  /\ Dict.get id_a
       (pinned (sync sample_chat sample_parse bot_down_then_up store_up
                  [page_a first_edit] empty_state))
     = Some {| message_id := None;
               last_edited := first_edit;
               entry_title := Some "Hello" |}
  /\ tg_log (sync sample_chat sample_parse bot_down_then_up store_up
               [page_a first_edit]
               (sync sample_chat sample_parse bot_down_then_up store_up
                  [page_a first_edit] empty_state))
     = tg_log (sync sample_chat sample_parse bot_down_then_up store_up
                 [page_a first_edit] empty_state).
Proof. vm_compute. repeat split; reflexivity. Qed.



(** C10 as stated fails: for a float that is not a number, or that is
    infinite, [int(dt)] raises outside the [try] and [_to_timestamp]
    returns nothing. *)
Lemma C10_counterexample_nonfinite_float :
  _to_timestamp sample_parse (VFloat FNaN) = None
  /\ _to_timestamp sample_parse (VFloat (FInf false)) = None
  /\ _to_timestamp sample_parse (VFloat (FInf true)) = None.
Proof. repeat split; reflexivity. Qed.

(** ** The theorems at concrete runs *)

Lemma unique_keys_nil : unique_keys [].
Proof. intros i j ri rj k Hi. destruct i; discriminate. Qed.




Lemma C5_cleanup_attempts_nothing_witness :
  (exists evs,
      tg_log (sync sample_chat sample_parse bot_up store_up
                [page_a first_edit] synced_state)
      = (tg_log synced_state ++ evs)%list
      /\ Forall (fun ev => posting ev = true) evs
      /\ events_for id_b evs = [])
  /\ ~ In id_b
       (Dict.keys
          (pinned (cleanup_posts (listed_ids [page_a first_edit])
                     (fst (fst (sync_loop sample_chat sample_parse bot_up
                                  [page_a first_edit] synced_state)))))).
Proof.
  apply (C5_cleanup_attempts_nothing sample_chat sample_parse bot_up store_up
           [page_a first_edit] synced_state id_b
           {| message_id := Some 8%Z; last_edited := first_edit;
              entry_title := Some "Bee" |}).
  - reflexivity.
  - intros [H | []]. discriminate.
Defined.

Lemma C6_fallback_attempts_create_witness :
  tg_log (fst (fst (sync_page sample_chat sample_parse bot_edit_fails
                      (synced_state, [], []) (page_a second_edit))))
  = [ {| ev_page := id_a;
         ev_call := edit_message_text 7 hello_message;
         ev_result := Raised |};
      {| ev_page := id_a;
         ev_call := send_message hello_message;
         ev_result := Returned 42 |};
      {| ev_page := id_a;
         ev_call := pin_chat_message 42;
         ev_result := Returned 42 |} ]
  /\ Dict.get id_a
       (pinned (fst (fst (sync_page sample_chat sample_parse bot_edit_fails
                            (synced_state, [], []) (page_a second_edit)))))
     = Some {| message_id := Some 42%Z;
               last_edited := second_edit;
               entry_title := None |}
  /\ snd (sync_page sample_chat sample_parse bot_edit_fails
            (synced_state, [], []) (page_a second_edit))
     = [ {| st_title := "Hello";
            st_notion_url := notion_url_of id_a;
            st_tg_url := tg_url_of sample_chat (Some 42%Z);
            st_dt := second_edit |} ].
Proof.
  assert (Hts : _to_timestamp sample_parse (VTime (last_edited_time (page_a second_edit)))
                <> _to_timestamp sample_parse
                     (VTime (pinned_last_edited
                               (_normalize_page_id (page_id (page_a second_edit)))
                               synced_state))).
  { vm_compute. discriminate. }
  exact (C6_fallback_attempts_create sample_chat sample_parse bot_edit_fails
           synced_state [] [] (page_a second_edit) "Hello" [] 7%Z
           eq_refl eq_refl Hts eq_refl eq_refl).
Defined.

Lemma C9_hello_world_witness :
  (exists evs,
      tg_log (sync sample_chat sample_parse bot_up store_up
                [page_a first_edit] empty_state)
      = (tg_log empty_state ++ evs)%list
      /\ filter posting evs
         = [ {| ev_page := id_a;
                ev_call := send_message hello_message;
                ev_result := Returned 10 |};
             {| ev_page := id_a;
                ev_call := pin_chat_message 10;
                ev_result := Returned 11 |} ])
  /\ Dict.get id_a
       (pinned (sync sample_chat sample_parse bot_up store_up
                  [page_a first_edit] empty_state))
     = Some {| message_id := Some 10%Z;
               last_edited := first_edit;
               entry_title := Some "Hello" |}
  /\ pinned (sync sample_chat sample_parse bot_up store_up
               [page_a first_edit] empty_state)
     = mapping_of
         (query_results
            (db (sync sample_chat sample_parse bot_up store_up
                   [page_a first_edit] empty_state))).
Proof.
  apply (C9_hello_world sample_chat sample_parse bot_up store_up
           "01234567-89ab-cdef-0123-456789abcdef" first_edit empty_state
           10%positive 11%Z).
  - reflexivity.
  - exact unique_keys_nil.
  - reflexivity.
  - reflexivity.
  - vm_compute. discriminate.
  - reflexivity.
  - reflexivity.
Defined.

Lemma C10_unparseable_witness :
  (forall ids data,
      fst (fst (sync_page sample_chat sample_parse bot_up
                  (empty_state, ids, data) undated_page))
      = empty_state)
  /\ exists evs,
       tg_log (sync sample_chat sample_parse bot_up store_up
                 [page_a first_edit; undated_page] empty_state)
       = (tg_log empty_state ++ evs)%list
       /\ events_for id_b evs = [].
Proof.
  destruct (C10_to_timestamp_total_on_finite sample_chat sample_parse bot_up
              store_up) as (_ & _ & _ & _ & _ & _ & _ & _ & H).
  apply (H [page_a first_edit; undated_page] empty_state undated_page).
  - constructor; [intros [H' | []]; discriminate|].
    constructor; [intros [] | constructor].
  - right. now left.
  - reflexivity.
  - reflexivity.
Defined.

(** ** Page identifiers: hyphens, classes and the three readers *)

Lemma remove_hyphen_cons (c : ascii) (r : string) :
  Py.remove "-" (String c r)
  = if Ascii.eqb c "-"%char then Py.remove "-" r else String c (Py.remove "-" r).
Proof.
  unfold Py.remove. cbn [Py.remove_from String.prefix String.length Nat.sub].
  destruct (ascii_dec "-" c) as [E|E].
  - subst c. destruct r; reflexivity.
  - destruct (Ascii.eqb_spec c "-"%char) as [->|]; [congruence | destruct r; reflexivity].
Qed.

Lemma remove_hyphen_nil : Py.remove "-" EmptyString = EmptyString.
Proof. reflexivity. Qed.

Lemma remove_hyphen_app (a b : string) :
  Py.remove "-" (a ++ b) = Py.remove "-" a ++ Py.remove "-" b.
Proof.
  induction a as [|c a IH]; [reflexivity|].
  cbn [append]. rewrite !remove_hyphen_cons, IH.
  now destruct (Ascii.eqb c "-").
Qed.

Lemma all_chars_cons cls c r :
  all_chars cls (String c r) = cls c && all_chars cls r.
Proof. reflexivity. Qed.

Lemma all_chars_app cls a b :
  all_chars cls (a ++ b) = all_chars cls a && all_chars cls b.
Proof.
  induction a as [|c a IH]; [reflexivity|].
  cbn [append]. rewrite !all_chars_cons, IH. now rewrite andb_assoc.
Qed.

Lemma all_chars_weaken (cls cls' : ascii -> bool) s :
  (forall c, cls c = true -> cls' c = true) ->
  all_chars cls s = true -> all_chars cls' s = true.
Proof.
  intros H. induction s as [|c r IH]; [reflexivity|].
  rewrite !all_chars_cons. intros Hs. apply andb_true_iff in Hs.
  destruct Hs as [Hc Hr]. now rewrite (H c Hc), IH.
Qed.

Lemma hex_i_not_hyphen c : is_hex_i c = true -> Ascii.eqb c "-"%char = false.
Proof.
  intros H. destruct (Ascii.eqb_spec c "-"%char) as [->|]; [discriminate|reflexivity].
Qed.

Lemma hex_is_hex_i c : is_hex c = true -> is_hex_i c = true.
Proof. unfold is_hex_i. intros ->. reflexivity. Qed.

(** A string of hexadecimal digits has no hyphen to remove. *)
Lemma remove_hyphen_hex s :
  all_chars is_hex_i s = true -> Py.remove "-" s = s.
Proof.
  induction s as [|c r IH]; [reflexivity|].
  rewrite all_chars_cons, remove_hyphen_cons. intros H.
  apply andb_true_iff in H. destruct H as [Hc Hr].
  now rewrite (hex_i_not_hyphen c Hc), IH.
Qed.

Lemma remove_hyphen_clean s :
  all_chars (fun c => negb (Ascii.eqb c "-"%char)) (Py.remove "-" s) = true.
Proof.
  induction s as [|c r IH]; [reflexivity|].
  rewrite remove_hyphen_cons. destruct (Ascii.eqb c "-") eqn:E; [exact IH|].
  rewrite all_chars_cons, E. exact IH.
Qed.

Lemma remove_hyphen_fixed s :
  all_chars (fun c => negb (Ascii.eqb c "-"%char)) s = true -> Py.remove "-" s = s.
Proof.
  induction s as [|c r IH]; [reflexivity|].
  rewrite all_chars_cons, remove_hyphen_cons. intros H.
  apply andb_true_iff in H. destruct H as [Hc Hr].
  apply negb_true_iff in Hc. now rewrite Hc, IH.
Qed.

Lemma class_run_spec cls n :
  forall s m rest,
    class_run cls n s = Some (m, rest) ->
    s = m ++ rest /\ String.length m = n /\ all_chars cls m = true.
Proof.
  induction n as [|n IH]; intros s m rest H; cbn [class_run] in H.
  - inversion H; subst. now repeat split.
  - destruct s as [|c r]; [discriminate|].
    destruct (cls c) eqn:Ec; [|discriminate].
    destruct (class_run cls n r) as [[m' rest']|] eqn:E; [|discriminate].
    inversion H; subst. destruct (IH _ _ _ E) as (Hs & Hl & Ha).
    repeat split.
    + cbn [append]. now rewrite <- Hs.
    + simpl. now rewrite Hl.
    + now rewrite all_chars_cons, Ec, Ha.
Qed.

Lemma class_run_intro cls m rest :
  all_chars cls m = true ->
  class_run cls (String.length m) (m ++ rest) = Some (m, rest).
Proof.
  induction m as [|c m IH]; [reflexivity|].
  rewrite all_chars_cons. intros H. apply andb_true_iff in H.
  destruct H as [Hc Hm]. cbn [String.length append class_run].
  now rewrite Hc, (IH Hm).
Qed.

(** A run that a character outside the class follows cannot be longer. *)
Lemma class_run_stops cls n k :
  forall s m c r,
    class_run cls n s = Some (m, String c r) -> cls c = false ->
    class_run cls (n + S k) s = None.
Proof.
  induction n as [|n IH]; intros s m c r H Hc; cbn [class_run] in H.
  - inversion H; subst. cbn [Nat.add class_run]. now rewrite Hc.
  - destruct s as [|x s']; [discriminate|].
    destruct (cls x) eqn:Ex; [|discriminate].
    destruct (class_run cls n s') as [[m' rest']|] eqn:E; [|discriminate].
    inversion H; subst. cbn [Nat.add class_run]. rewrite Ex.
    now rewrite (IH _ _ _ _ E Hc).
Qed.

Lemma hex_run_class_run n :
  forall s, hex_run n s = option_map fst (class_run is_hex n s).
Proof.
  induction n as [|n IH]; intros s; [reflexivity|].
  cbn [hex_run class_run]. destruct s as [|c r]; [reflexivity|].
  destruct (is_hex c); [|reflexivity]. rewrite IH.
  now destruct (class_run is_hex n r) as [[m rest]|].
Qed.

Lemma hex32_intro s :
  String.length s = 32%nat -> all_chars is_hex s = true -> hex32 s.
Proof.
  intros Hl Ha. unfold hex32. rewrite hex_run_class_run.
  pose proof (class_run_intro is_hex s EmptyString Ha) as H.
  rewrite append_empty_r, Hl in H. now rewrite H.
Qed.

Lemma hex32_elim s :
  hex32 s -> String.length s = 32%nat /\ all_chars is_hex s = true.
Proof.
  unfold hex32. rewrite hex_run_class_run.
  destruct (class_run is_hex 32 s) as [[m rest]|] eqn:E; [|discriminate].
  simpl. intros H. inversion H; subst.
  destruct (class_run_spec _ _ _ _ _ E) as (_ & Hl & Ha). now split.
Qed.

(** The five groups of a match of the hyphenated alternative. *)
Lemma hyphenated_groups cls s m :
  hyphenated cls [8; 4; 4; 4; 12]%nat s = Some m ->
  exists g1 g2 g3 g4 g5 rest,
    s = m ++ rest
    /\ m = g1 ++ "-" ++ g2 ++ "-" ++ g3 ++ "-" ++ g4 ++ "-" ++ g5
    /\ String.length (g1 ++ g2 ++ g3 ++ g4 ++ g5) = 32%nat
    /\ all_chars cls (g1 ++ g2 ++ g3 ++ g4 ++ g5) = true
    /\ class_run cls 8 s = Some (g1, "-" ++ g2 ++ "-" ++ g3 ++ "-" ++ g4 ++ "-" ++ g5 ++ rest).
Proof.
  cbn [hyphenated]. intros H.
  destruct (class_run cls 8 s) as [[g1 r1]|] eqn:E1; [|discriminate].
  destruct r1 as [|c1 r1]; [discriminate|].
  destruct (Ascii.eqb_spec c1 "-"%char) as [->|]; [|discriminate].
  destruct (class_run cls 4 r1) as [[g2 r2]|] eqn:E2; [|discriminate].
  destruct r2 as [|c2 r2]; [discriminate|].
  destruct (Ascii.eqb_spec c2 "-"%char) as [->|]; [|discriminate].
  destruct (class_run cls 4 r2) as [[g3 r3]|] eqn:E3; [|discriminate].
  destruct r3 as [|c3 r3]; [discriminate|].
  destruct (Ascii.eqb_spec c3 "-"%char) as [->|]; [|discriminate].
  destruct (class_run cls 4 r3) as [[g4 r4]|] eqn:E4; [|discriminate].
  destruct r4 as [|c4 r4]; [discriminate|].
  destruct (Ascii.eqb_spec c4 "-"%char) as [->|]; [|discriminate].
  destruct (class_run cls 12 r4) as [[g5 r5]|] eqn:E5; [|discriminate].
  cbn [option_map fst] in H. inversion H; subst m; clear H.
  destruct (class_run_spec _ _ _ _ _ E1) as (H1 & L1 & A1).
  destruct (class_run_spec _ _ _ _ _ E2) as (H2 & L2 & A2).
  destruct (class_run_spec _ _ _ _ _ E3) as (H3 & L3 & A3).
  destruct (class_run_spec _ _ _ _ _ E4) as (H4 & L4 & A4).
  destruct (class_run_spec _ _ _ _ _ E5) as (H5 & L5 & A5).
  exists g1, g2, g3, g4, g5, r5.
  assert (Hlen : forall a b, String.length (a ++ b) = (String.length a + String.length b)%nat).
  { intros a b. induction a as [|x a IH]; simpl; [reflexivity | now rewrite IH]. }
  repeat split.
  - subst s r1 r2 r3 r4. cbn [append]. rewrite !append_assoc. cbn [append].
    rewrite !append_assoc. cbn [append]. rewrite !append_assoc. cbn [append].
    rewrite !append_assoc. cbn [append]. reflexivity.
  - rewrite !Hlen, L1, L2, L3, L4, L5. reflexivity.
  - rewrite !all_chars_app, A1, A2, A3, A4, A5. reflexivity.
  - subst r1 r2 r3 r4. cbn [append]. reflexivity.
Qed.

Lemma remove_hyphen_groups cls g1 g2 g3 g4 g5 :
  (forall c, cls c = true -> is_hex_i c = true) ->
  all_chars cls (g1 ++ g2 ++ g3 ++ g4 ++ g5) = true ->
  Py.remove "-" (g1 ++ "-" ++ g2 ++ "-" ++ g3 ++ "-" ++ g4 ++ "-" ++ g5)
  = g1 ++ g2 ++ g3 ++ g4 ++ g5.
Proof.
  intros Hcls Ha.
  rewrite !all_chars_app in Ha.
  repeat (apply andb_true_iff in Ha; destruct Ha as [?A Ha]).
  assert (R : forall g, all_chars cls g = true -> Py.remove "-" g = g).
  { intros g Hg. apply remove_hyphen_hex. revert Hg. now apply all_chars_weaken. }
  rewrite !remove_hyphen_app.
  replace (Py.remove "-" "-") with EmptyString by reflexivity.
  cbn [append]. now rewrite !R by assumption.
Qed.
Lemma search_page_id_unfold s :
  search_page_id s
  = match page_id_at s with
    | Some m => Some m
    | None =>
        match s with
        | EmptyString => None
        | String _ r => search_page_id r
        end
    end.
Proof. destruct s; reflexivity. Qed.

Lemma page_id_at_shape s m :
  page_id_at s = Some m ->
  String.length (Py.remove "-" m) = 32%nat
  /\ all_chars is_hex_i (Py.remove "-" m) = true.
Proof.
  unfold page_id_at.
  destruct (class_run is_hex_i 32 s) as [[m' rest]|] eqn:E.
  - intros H. inversion H; subst.
    destruct (class_run_spec _ _ _ _ _ E) as (_ & Hl & Ha).
    now rewrite (remove_hyphen_hex m Ha).
  - intros H. apply hyphenated_groups in H.
    destruct H as (g1 & g2 & g3 & g4 & g5 & rest & _ & -> & Hl & Ha & _).
    rewrite (remove_hyphen_groups is_hex_i) by auto. now split.
Qed.

Lemma search_page_id_shape s :
  forall m, search_page_id s = Some m ->
    String.length (Py.remove "-" m) = 32%nat
    /\ all_chars is_hex_i (Py.remove "-" m) = true.
Proof.
  induction s as [|c r IH]; intros m; rewrite search_page_id_unfold.
  - destruct (page_id_at EmptyString) eqn:E; [|discriminate].
    intros H. inversion H; subst. now apply (page_id_at_shape EmptyString).
  - destruct (page_id_at (String c r)) eqn:E.
    + intros H. inversion H; subst. now apply (page_id_at_shape (String c r)).
    + apply IH.
Qed.

Lemma search_page_id_skip c r :
  is_hex_i c = false -> search_page_id (String c r) = search_page_id r.
Proof.
  intros H. rewrite search_page_id_unfold. unfold page_id_at.
  cbn [class_run hyphenated]. now rewrite H.
Qed.

Lemma search_page_id_here s :
  String.length s = 32%nat -> all_chars is_hex_i s = true ->
  search_page_id s = Some s.
Proof.
  intros Hl Ha. rewrite search_page_id_unfold. unfold page_id_at.
  pose proof (class_run_intro is_hex_i s EmptyString Ha) as H.
  rewrite append_empty_r, Hl in H. now rewrite H.
Qed.

(** X1: whatever the address, [extract_notion_page_id] returns the empty
    string or 32 hexadecimal digits, of either case and without a hyphen. *)
Theorem extract_notion_page_id_shape (url : string) :
  extract_notion_page_id url = EmptyString
  \/ (String.length (extract_notion_page_id url) = 32%nat
      /\ all_chars is_hex_i (extract_notion_page_id url) = true).
Proof.
  unfold extract_notion_page_id.
  destruct (search_page_id url) as [m|] eqn:E; [right | now left].
  now apply (search_page_id_shape url).
Qed.

(** X2: [_normalize_page_id] leaves no hyphen, and normalizing again
    changes nothing: the keys of [self.pinned] the pass writes are fixed
    points of the normalization. *)
Theorem normalize_page_id_idempotent (page_id : string) :
  all_chars (fun c => negb (Ascii.eqb c "-"%char)) (_normalize_page_id page_id) = true
  /\ _normalize_page_id (_normalize_page_id page_id) = _normalize_page_id page_id.
Proof.
  unfold _normalize_page_id. split.
  - apply remove_hyphen_clean.
  - apply remove_hyphen_fixed, remove_hyphen_clean.
Qed.

Lemma class_run_weaken (cls cls' : ascii -> bool) n :
  (forall c, cls c = true -> cls' c = true) ->
  forall s r, class_run cls n s = Some r -> class_run cls' n s = Some r.
Proof.
  intros Hc. induction n as [|n IH]; intros s r H; [exact H|].
  cbn [class_run] in H |- *. destruct s as [|c s']; [discriminate|].
  destruct (cls c) eqn:E; [|discriminate]. rewrite (Hc c E).
  destruct (class_run cls n s') as [[m rest]|] eqn:E'; [|discriminate].
  now rewrite (IH _ _ E').
Qed.

Lemma hyphenated_weaken (cls cls' : ascii -> bool) lens :
  (forall c, cls c = true -> cls' c = true) ->
  forall s m, hyphenated cls lens s = Some m -> hyphenated cls' lens s = Some m.
Proof.
  intros Hc. induction lens as [|n more IH]; intros s m H; [exact H|].
  destruct more as [|n' more'].
  - cbn [hyphenated] in H |- *.
    destruct (class_run cls n s) as [r|] eqn:E; [|discriminate].
    now rewrite (class_run_weaken cls cls' n Hc _ _ E).
  - change (hyphenated cls (n :: n' :: more') s)
      with (match class_run cls n s with
            | Some (m, String c r) =>
                if Ascii.eqb c "-"%char
                then option_map (fun m' => m ++ String c m')
                       (hyphenated cls (n' :: more') r)
                else None
            | _ => None
            end) in H.
    change (hyphenated cls' (n :: n' :: more') s)
      with (match class_run cls' n s with
            | Some (m, String c r) =>
                if Ascii.eqb c "-"%char
                then option_map (fun m' => m ++ String c m')
                       (hyphenated cls' (n' :: more') r)
                else None
            | _ => None
            end).
    destruct (class_run cls n s) as [[g r]|] eqn:E; [|discriminate].
    rewrite (class_run_weaken cls cls' n Hc _ _ E).
    destruct r as [|c r]; [discriminate|].
    destruct (Ascii.eqb c "-"); [|discriminate].
    destruct (hyphenated cls (n' :: more') r) as [m'|] eqn:E'; [|discriminate].
    now rewrite (IH _ _ E').
Qed.

Lemma uuid_normalized u :
  uuid_shaped u ->
  hex32 (_normalize_page_id u)
  /\ class_run is_hex_i 32 u = None
  /\ hyphenated is_hex_i [8; 4; 4; 4; 12]%nat u = Some u.
Proof.
  unfold uuid_shaped. intros H.
  pose proof (hyphenated_groups _ _ _ H) as G.
  destruct G as (g1 & g2 & g3 & g4 & g5 & rest & Hs & Hm & Hl & Ha & Hrun).
  assert (Hrest : rest = EmptyString).
  { assert (L : forall a b, String.length (a ++ b)
                            = (String.length a + String.length b)%nat).
    { intros a b. induction a as [|x a IH]; simpl; [reflexivity | now rewrite IH]. }
    apply (f_equal String.length) in Hs. rewrite L in Hs.
    destruct rest; [reflexivity | simpl in Hs; lia]. }
  subst rest.
  assert (Hai : all_chars is_hex_i (g1 ++ g2 ++ g3 ++ g4 ++ g5) = true).
  { revert Ha. apply all_chars_weaken, hex_is_hex_i. }
  assert (Hn : _normalize_page_id u = g1 ++ g2 ++ g3 ++ g4 ++ g5).
  { unfold _normalize_page_id. rewrite Hm.
    now apply (remove_hyphen_groups is_hex_i). }
  split; [|split].
  - rewrite Hn. now apply hex32_intro.
  - apply (class_run_weaken is_hex is_hex_i 8 hex_is_hex_i) in Hrun.
    apply (class_run_stops is_hex_i 8 23) in Hrun; [exact Hrun | reflexivity].
  - revert H. apply hyphenated_weaken, hex_is_hex_i.
Qed.

(** X3: for an identifier in the hyphenated form of the Notion API, the
    three readers of the program agree: [_normalize_page_id] gives 32
    lowercase hexadecimal digits, [extract_notion_page_id] gives the same
    string, and the key [update_sync_database] reads in the link that
    [sync] writes for the page is that string again. *)
Theorem identifier_readers_agree (u : string) :
  uuid_shaped u ->
  hex32 (_normalize_page_id u)
  /\ extract_notion_page_id u = _normalize_page_id u
  /\ extract_notion_page_id (notion_url_of (_normalize_page_id u))
     = _normalize_page_id u
  /\ data_key (notion_url_of (_normalize_page_id u)) = _normalize_page_id u.
Proof.
  intros Hu. destruct (uuid_normalized u Hu) as (Hh & Hrun & Hhy).
  repeat split.
  - exact Hh.
  - unfold extract_notion_page_id. rewrite search_page_id_unfold.
    unfold page_id_at. now rewrite Hrun, Hhy.
  - destruct (hex32_elim _ Hh) as [Hl Ha].
    assert (Hai : all_chars is_hex_i (_normalize_page_id u) = true).
    { revert Ha. apply all_chars_weaken, hex_is_hex_i. }
    unfold extract_notion_page_id, notion_url_of. cbn [append].
    repeat (rewrite search_page_id_skip by reflexivity).
    rewrite (search_page_id_here _ Hl Hai). now apply remove_hyphen_hex.
  - now apply data_key_notion_url.
Qed.

Lemma identifier_readers_agree_witness :
  hex32 (_normalize_page_id "01234567-89ab-cdef-0123-456789abcdef")
  /\ extract_notion_page_id "01234567-89ab-cdef-0123-456789abcdef"
     = _normalize_page_id "01234567-89ab-cdef-0123-456789abcdef"
  /\ extract_notion_page_id
       (notion_url_of (_normalize_page_id "01234567-89ab-cdef-0123-456789abcdef"))
     = _normalize_page_id "01234567-89ab-cdef-0123-456789abcdef"
  /\ data_key (notion_url_of (_normalize_page_id "01234567-89ab-cdef-0123-456789abcdef"))
     = _normalize_page_id "01234567-89ab-cdef-0123-456789abcdef".
Proof.
  apply (identifier_readers_agree "01234567-89ab-cdef-0123-456789abcdef").
  reflexivity.
Defined.

(** ** More on the renderer *)

(** The escaped text never begins with a character of the class. *)
Lemma escape_markdown_v2_head t c r :
  escape_markdown_v2 t = String c r -> is_markdown_char c = false.
Proof.
  destruct t as [|x t]; [discriminate|]. cbn [escape_markdown_v2].
  destruct (is_markdown_char x) eqn:E; intros H; inversion H; subst;
    [reflexivity | exact E].
Qed.

(** X4: [escape_markdown_v2] loses nothing: two texts with the same
    escaped form are the same text. *)
Theorem escape_markdown_v2_injective (a b : string) :
  escape_markdown_v2 a = escape_markdown_v2 b -> a = b.
Proof.
  revert b. induction a as [|c a IH]; intros [|d b] H.
  - reflexivity.
  - cbn [escape_markdown_v2] in H. destruct (is_markdown_char d); discriminate.
  - cbn [escape_markdown_v2] in H. destruct (is_markdown_char c); discriminate.
  - cbn [escape_markdown_v2] in H.
    destruct (is_markdown_char c) eqn:Ec, (is_markdown_char d) eqn:Ed.
    + inversion H; subst. f_equal. now apply IH.
    + injection H as Hd Hr. symmetry in Hr.
      apply escape_markdown_v2_head in Hr. congruence.
    + injection H as Hc Hr.
      apply escape_markdown_v2_head in Hr. congruence.
    + inversion H; subst. f_equal. now apply IH.
Qed.

Lemma escape_markdown_v2_injective_witness : "a.b" = "a.b".
Proof. apply (escape_markdown_v2_injective "a.b" "a.b"). reflexivity. Defined.

Lemma nicknames_scan_plain_close (h : bool) (m : string) :
  m = "*" \/ m = "~" \/ m = "`" \/ m = EmptyString ->
  nicknames_scan h m = m.
Proof. intros [->|[->|[->| ->]]]; destruct h; reflexivity. Qed.

(** The nickname pass on a styled run whose marker has no underscore. *)
Lemma nicknames_scan_styled (st : option Style) (text : string) :
  st <> Some Italic -> st <> Some Underline ->
  nicknames_scan false
    (style_marker st ++ escape_markdown_v2 text ++ style_marker st)
  = style_marker st ++ escape_markdown_v2 text ++ style_marker st.
Proof.
  intros Hi Hu. rewrite nicknames_scan_marker.
  destruct (nicknames_scan_escaped text (style_marker st) false) as [h' ->].
  rewrite nicknames_scan_plain_close; [reflexivity|].
  destruct st as [[]|]; simpl; auto; congruence.
Qed.

(** X5: on a run whose marker is not made of underscores (bold,
    strikethrough, code or no style) the nickname pass of
    [_parse_rich_text] changes nothing: after [escape_markdown_v2] every
    underscore of the text follows a backslash, which ends the handle. *)
Theorem nickname_pass_idle (seg : Segment) :
  chosen_style (annotations seg) <> Some Italic ->
  chosen_style (annotations seg) <> Some Underline ->
  NotionHandler.parse_segment true seg
  = with_link (href seg)
      (style_marker (chosen_style (annotations seg))
       ++ escape_markdown_v2 (plain_text seg)
       ++ style_marker (chosen_style (annotations seg))).
Proof.
  intros Hi Hu. rewrite RendererFacts.parse_segment_shape.
  cbv zeta. cbn [NotionHandler.esc]. unfold escape_telegram_nicknames.
  now rewrite nicknames_scan_styled.
Qed.

Lemma nickname_pass_idle_witness :
  NotionHandler.parse_segment true bold_italic_run
  = with_link (href bold_italic_run)
      (style_marker (chosen_style (annotations bold_italic_run))
       ++ escape_markdown_v2 (plain_text bold_italic_run)
       ++ style_marker (chosen_style (annotations bold_italic_run))).
Proof. apply (nickname_pass_idle bold_italic_run); discriminate. Defined.

Lemma alnum_not_markdown_char c : is_alnum c = true -> is_markdown_char c = false.
Proof.
  intros H. destruct (is_markdown_char c) eqn:E; [|reflexivity].
  apply markdown_char_cases in E. simpl in E.
  repeat (destruct E as [E | E]; [subst; discriminate |]). contradiction.
Qed.

Lemma escape_markdown_v2_alnum s :
  all_chars is_alnum s = true -> escape_markdown_v2 s = s.
Proof.
  induction s as [|c r IH]; [reflexivity|].
  rewrite all_chars_cons. intros H. apply andb_true_iff in H.
  destruct H as [Hc Hr]. cbn [escape_markdown_v2].
  now rewrite (alnum_not_markdown_char c Hc), (IH Hr).
Qed.

(** Inside a handle the scan goes through letters and digits unchanged and
    escapes the underscores that follow. *)
Lemma nicknames_scan_handle s tail :
  all_chars is_alnum s = true ->
  nicknames_scan true (s ++ tail) = s ++ nicknames_scan true tail.
Proof.
  induction s as [|c r IH]; [reflexivity|].
  rewrite all_chars_cons. intros H. apply andb_true_iff in H.
  destruct H as [Hc Hr]. cbn [append nicknames_scan].
  unfold is_alnum in Hc. apply andb_true_iff in Hc. destruct Hc as [Hh Hn].
  apply negb_true_iff in Hn.
  assert (Hat : is_at c = false).
  { unfold is_at. destruct (Ascii.eqb_spec c "@"%char) as [->|]; [discriminate|reflexivity]. }
  rewrite Hat, Hh, Hn. cbn [andb]. now rewrite (IH Hr).
Qed.

Lemma nicknames_scan_at h tail :
  nicknames_scan h (String "@" tail) = String "@" (nicknames_scan true tail).
Proof. reflexivity. Qed.

(** X6: an italic or underlined run that ends with a handle loses its
    closing marker: the nickname pass takes the underscores of the marker
    for a part of the handle and escapes them, so that the run opens with
    the marker and closes with the escaped marker. *)
Theorem handle_escapes_closing_marker (seg : Segment) (st : Style)
    (before handle : string) :
  chosen_style (annotations seg) = Some st ->
  st = Italic \/ st = Underline ->
  plain_text seg = before ++ "@" ++ handle ->
  all_chars is_alnum handle = true ->
  NotionHandler.parse_segment true seg
  = with_link (href seg)
      (style_marker (Some st)
       ++ escape_markdown_v2 before ++ "@" ++ handle
       ++ escape_markdown_v2 (style_marker (Some st))).
Proof.
  intros Hst Hiu Htext Hh. rewrite RendererFacts.parse_segment_shape.
  cbv zeta. cbn [NotionHandler.esc]. unfold escape_telegram_nicknames.
  rewrite Hst, Htext, nicknames_scan_marker.
  rewrite escape_markdown_v2_app, append_assoc.
  destruct (nicknames_scan_escaped before
              (escape_markdown_v2 ("@" ++ handle) ++ style_marker (Some st)) false)
    as [h' ->].
  cbn [append escape_markdown_v2].
  replace (is_markdown_char "@") with false by reflexivity.
  cbn [append]. rewrite nicknames_scan_at.
  rewrite (escape_markdown_v2_alnum handle Hh).
  rewrite (nicknames_scan_handle handle _ Hh).
  destruct Hiu as [-> | ->]; reflexivity.
Qed.

Lemma handle_escapes_closing_marker_witness :
  NotionHandler.parse_segment true italic_handle_run = "_ask @bob\_".
Proof.
  apply (handle_escapes_closing_marker italic_handle_run Italic "ask " "bob");
    [reflexivity | now left | reflexivity | reflexivity].
Defined.

(** X7: [escape_markdown_v2] does not escape the backslash, so a bold run
    whose text ends with one closes with an escaped asterisk. *)
Theorem backslash_escapes_closing_marker (seg : Segment) (before : string) :
  bold (annotations seg) = true ->
  plain_text seg = before ++ String Py.backslash EmptyString ->
  NotionHandler.parse_segment true seg
  = with_link (href seg)
      ("*" ++ escape_markdown_v2 before ++ String Py.backslash "*").
Proof.
  intros Hb Htext. rewrite RendererFacts.parse_segment_shape.
  cbv zeta. cbn [NotionHandler.esc]. unfold escape_telegram_nicknames.
  assert (Hst : chosen_style (annotations seg) = Some Bold).
  { unfold chosen_style, style_precedence. cbn [find style_flag]. now rewrite Hb. }
  rewrite Hst, nicknames_scan_styled by discriminate.
  cbn [style_marker]. rewrite Htext, escape_markdown_v2_app.
  cbn [escape_markdown_v2].
  replace (is_markdown_char Py.backslash) with false by reflexivity.
  now rewrite append_assoc.
Qed.

Lemma backslash_escapes_closing_marker_witness :
  NotionHandler.parse_segment true bold_backslash_run
  = "*a" ++ String Py.backslash "*".
Proof.
  apply (backslash_escapes_closing_marker bold_backslash_run "a"); reflexivity.
Defined.

(** ** The content of a page and its message *)

Lemma space_width_le s : (Py.space_width s <= String.length s)%nat.
Proof.
  destruct s as [|c [|d [|e r]]]; simpl; try lia.
  - destruct (Py.isspace c); lia.
  - destruct (Py.isspace c); [lia|]. destruct (Py.space2 c d); lia.
  - destruct (Py.isspace c); [lia|]. destruct (Py.space2 c d); [lia|].
    destruct (Py.space3 c d e); lia.
Qed.

(** The width of a white-space character is read off its own bytes. *)
Lemma space_width_app p tail k :
  Py.space_width p = S k -> Py.space_width (p ++ tail) = S k.
Proof.
  destruct p as [|c [|d [|e r]]]; simpl; try discriminate.
  - destruct (Py.isspace c); [auto | discriminate].
  - destruct (Py.isspace c); [auto|]. destruct (Py.space2 c d); [auto | discriminate].
  - destruct (Py.isspace c); [auto|]. destruct (Py.space2 c d); [auto|].
    destruct (Py.space3 c d e); auto.
Qed.

Lemma lstrip_cons c r :
  Py.lstrip (String c r)
  = match Py.space_width (String c r) with
    | O => String c r
    | S k => Py.lstrip_from k r
    end.
Proof. reflexivity. Qed.

Lemma rstrip_cons c r :
  Py.rstrip (String c r)
  = match Py.lstrip (String c r) with
    | EmptyString => EmptyString
    | _ => String c (Py.rstrip r)
    end.
Proof. reflexivity. Qed.

Lemma lstrip_space s : all_chars Py.isspace s = true -> Py.lstrip s = EmptyString.
Proof.
  induction s as [|c r IH]; [reflexivity|].
  rewrite all_chars_cons. intros H. apply andb_true_iff in H.
  destruct H as [Hc Hr]. rewrite lstrip_cons.
  unfold Py.space_width. rewrite Hc. exact (IH Hr).
Qed.

Lemma strip_space s : all_chars Py.isspace s = true -> Py.strip s = EmptyString.
Proof. intros H. unfold Py.strip. now rewrite lstrip_space. Qed.

(** What [lstrip] returns does not begin with white space. *)
Lemma lstrip_from_clean s :
  forall k, Py.space_width (Py.lstrip_from k s) = 0%nat.
Proof.
  induction s as [|c r IH]; intros k; [reflexivity|].
  cbn [Py.lstrip_from]. destruct k as [|k]; [|apply IH].
  destruct (Py.space_width (String c r)) as [|j] eqn:E; [exact E | apply IH].
Qed.

Lemma lstrip_clean s : Py.space_width s = 0%nat -> Py.lstrip s = s.
Proof.
  intros H. destruct s as [|c r]; [reflexivity|]. now rewrite lstrip_cons, H.
Qed.

(** What [rstrip] removes is white space. *)
Lemma rstrip_split s :
  exists w, s = Py.rstrip s ++ w /\ Py.lstrip w = EmptyString.
Proof.
  induction s as [|c r IH]; [now exists EmptyString|].
  rewrite rstrip_cons. destruct (Py.lstrip (String c r)) as [|x y] eqn:E.
  - now exists (String c r).
  - destruct IH as (w & Hw & Hs). exists w. split; [|exact Hs].
    cbn [append]. now rewrite <- Hw.
Qed.

Lemma rstrip_clean s :
  Py.space_width s = 0%nat -> Py.space_width (Py.rstrip s) = 0%nat.
Proof.
  intros H. destruct (rstrip_split s) as (w & Hw & _).
  destruct (Py.space_width (Py.rstrip s)) as [|k] eqn:E; [reflexivity|].
  apply (space_width_app _ w) in E. rewrite <- Hw in E. congruence.
Qed.

(** White space followed by more: the scan goes through the white space. *)
Lemma lstrip_from_app p w :
  forall k, (k <= String.length p)%nat ->
    Py.lstrip_from k p = EmptyString ->
    Py.lstrip_from k (p ++ w) = Py.lstrip w.
Proof.
  induction p as [|c r IH]; intros k Hk H.
  - assert (k = 0%nat) by (simpl in Hk; lia). subst k. reflexivity.
  - cbn [append Py.lstrip_from] in H |- *. destruct k as [|k].
    + pose proof (space_width_le (String c r)) as Hle.
      destruct (Py.space_width (String c r)) as [|j] eqn:E; [discriminate|].
      change (String c (r ++ w)) with (String c r ++ w).
      rewrite (space_width_app _ w _ E). apply IH; [simpl in Hle; lia | exact H].
    + apply IH; [simpl in Hk; lia | exact H].
Qed.

Lemma rstrip_idem s : Py.rstrip (Py.rstrip s) = Py.rstrip s.
Proof.
  induction s as [|c r IH]; [reflexivity|].
  rewrite rstrip_cons. destruct (Py.lstrip (String c r)) as [|x y] eqn:E;
    [reflexivity|].
  rewrite rstrip_cons, IH.
  destruct (Py.lstrip (String c (Py.rstrip r))) as [|x' y'] eqn:E'; [|reflexivity].
  exfalso. destruct (rstrip_split r) as (w & Hw & Hs).
  assert (H : Py.lstrip (String c (Py.rstrip r) ++ w) = EmptyString).
  { unfold Py.lstrip. rewrite lstrip_from_app; [exact Hs | lia | exact E']. }
  cbn [append] in H. rewrite <- Hw in H. congruence.
Qed.

Lemma strip_fixed s :
  Py.lstrip (Py.strip s) = Py.strip s /\ Py.rstrip (Py.strip s) = Py.strip s.
Proof.
  unfold Py.strip. split; [|apply rstrip_idem].
  apply lstrip_clean, rstrip_clean. apply lstrip_from_clean.
Qed.

Lemma concat_space (l : list string) :
  Forall (fun x => all_chars Py.isspace x = true) l ->
  all_chars Py.isspace (String.concat EmptyString l) = true.
Proof.
  induction 1 as [|x l Hx Hl IH]; [reflexivity|].
  destruct l as [|y l'].
  - exact Hx.
  - change (String.concat EmptyString (x :: y :: l'))
      with (x ++ EmptyString ++ String.concat EmptyString (y :: l')).
    cbn [append]. now rewrite all_chars_app, Hx, IH.
Qed.

(** X8: the content [get_page_content] returns neither begins nor ends
    with white space, whatever the blocks: the blank lines the block
    renderers append never end a message. *)
Theorem get_page_content_stripped (blocks : option (list Block)) :
  Py.lstrip (NotionHandler.get_page_content blocks)
  = NotionHandler.get_page_content blocks
  /\ Py.rstrip (NotionHandler.get_page_content blocks)
     = NotionHandler.get_page_content blocks.
Proof.
  destruct blocks as [blocks|]; [|now split].
  cbn [NotionHandler.get_page_content]. apply strip_fixed.
Qed.

(** X9: a page whose blocks all render to white space (empty paragraphs,
    unsupported blocks, blocks whose parsing raised) is posted as its
    title alone, in bold. *)
Theorem blank_page_message (title : string) (blocks : list Block) :
  Forall (fun b => all_chars Py.isspace (NotionHandler.parse_block b) = true) blocks ->
  message_of title (NotionHandler.get_page_content (Some blocks))
  = "*" ++ escape_markdown_v2 title ++ "*".
Proof.
  intros H. cbn [NotionHandler.get_page_content].
  rewrite strip_space; [reflexivity|].
  apply concat_space. apply Forall_forall. intros x Hx.
  apply filter_In in Hx. destruct Hx as [Hx _].
  apply in_map_iff in Hx. destruct Hx as (b & <- & Hb).
  rewrite Forall_forall in H. now apply H.
Qed.

Lemma blank_page_message_witness :
  message_of "Hello"
    (NotionHandler.get_page_content
       (Some [BParagraph []; BUnsupported "embed"; BToggle [] None]))
  = "*" ++ escape_markdown_v2 "Hello" ++ "*".
Proof.
  apply (blank_page_message "Hello"
           [BParagraph []; BUnsupported "embed"; BToggle [] None]).
  repeat constructor.
Defined.

(** ** More on the mapping store *)





Lemma filter_none {A : Type} (p : A -> bool) (l : list A) :
  (forall x, In x l -> p x = false) -> filter p l = [].
Proof.
  induction l as [|x l IH]; intros H; simpl; [reflexivity|].
  rewrite (H x (or_introl eq_refl)). apply IH. intros y Hy. apply H. now right.
Qed.


Section StoreExtras.

Variable notion : list StoreCall -> StoreCall -> bool.
Hypothesis notion_answers : forall h c, notion h c = true.



(** X12: [get_sync_db_mapping] only reads.  Whenever it returns, the rows,
    [self.pinned] and the destination are as they were, the mapping has
    one entry per key, and its keys are the page identifiers found in the
    links of the rows that are not archived. *)
Theorem mapping_mirrors_live_rows (any : list StoreCall -> StoreCall -> bool)
    (s : State) (mapping : Dict.t Entry) (s' : State) :
  get_sync_db_mapping any s = (Some mapping, s') ->
  db s' = db s /\ pinned s' = pinned s /\ tg_log s' = tg_log s
  /\ NoDup (Dict.keys mapping)
  /\ forall k, In k (Dict.keys mapping)
               <-> exists i r, nth_error (db s) i = Some r
                               /\ row_archived r = false /\ row_key r = Some k.
Proof.
  intros E. destruct (get_sync_db_mapping_some any s mapping s' E) as (Hm & Hdb & _).
  pose proof (get_sync_db_mapping_frame any s) as [Hp Hl]. rewrite E in Hp, Hl.
  simpl in Hp, Hl. repeat split; try assumption.
  - rewrite Hm, mapping_of_index. apply index_nodup. constructor.
  - rewrite Hm. apply mapping_keys.
  - intros (i & r & Hn & Ha & Hk). rewrite Hm, mapping_of_index.
    apply DictFacts.in_keys_get.
    apply (index_complete (fun ir => entry_of_row (snd ir)) _ [] (i, r) k);
      [now apply in_query_results | exact Hk].
Qed.

End StoreExtras.


Lemma mapping_mirrors_live_rows_witness :
  db (snd (get_sync_db_mapping store_up synced_state)) = db synced_state
  /\ pinned (snd (get_sync_db_mapping store_up synced_state)) = pinned synced_state
  /\ tg_log (snd (get_sync_db_mapping store_up synced_state)) = tg_log synced_state
  /\ NoDup (Dict.keys (mapping_of (query_results (db synced_state))))
  /\ forall k, In k (Dict.keys (mapping_of (query_results (db synced_state))))
               <-> exists i r, nth_error (db synced_state) i = Some r
                               /\ row_archived r = false /\ row_key r = Some k.
Proof.
  apply (mapping_mirrors_live_rows store_up synced_state
           (mapping_of (query_results (db synced_state)))).
  reflexivity.
Defined.

(** ** More on the pass *)

Section PassExtras.

Variable TELEGRAM_CHAT_ID : string.
Variable date_parse : string -> option Z.
Variable bot : list TgEvent -> TgCall -> TgResult.
Variable notion : list StoreCall -> StoreCall -> bool.

(** The store is out of reach of the loop and of the cleanup. *)
Lemma cleanup_after_loop_store pages s :
  db (cleanup_posts (listed_ids pages)
        (fst (fst (sync_loop TELEGRAM_CHAT_ID date_parse bot pages s))))
  = db s
  /\ notion_log (cleanup_posts (listed_ids pages)
                   (fst (fst (sync_loop TELEGRAM_CHAT_ID date_parse bot pages s))))
     = notion_log s.
Proof.
  pose proof (sync_loop_touches TELEGRAM_CHAT_ID date_parse bot pages s)
    as (Hdb1 & Hn1 & _ & _).
  pose proof (fold_cleanup_touches (listed_ids pages)
                (Dict.keys (pinned (fst (fst (sync_loop TELEGRAM_CHAT_ID date_parse
                                                bot pages s)))))
                (fst (fst (sync_loop TELEGRAM_CHAT_ID date_parse bot pages s))))
    as (Hdb2 & Hn2 & _ & _).
  unfold cleanup_posts. now rewrite Hdb2, Hn2, Hdb1, Hn1.
Qed.

(** X13: the loop of [sync] over any listing, whatever the destination
    answers: [current_page_ids] holds the identifier of every listed page,
    skipped or not, and [sync_data] holds one tuple for each page that is
    not skipped, in the order of the listing, with the link, the timestamp
    and the title of its page, whether or not the page was posted. *)
Theorem sync_data_one_tuple_per_page (pages : list Page) (s : State) :
  snd (fst (sync_loop TELEGRAM_CHAT_ID date_parse bot pages s)) = listed_ids pages
  /\ Forall2 tuple_for (filter (fun q => negb (skipped q)) pages)
       (snd (sync_loop TELEGRAM_CHAT_ID date_parse bot pages s))
  /\ List.length (snd (sync_loop TELEGRAM_CHAT_ID date_parse bot pages s))
     = List.length (filter (fun q => negb (skipped q)) pages).
Proof.
  pose proof (sync_loop_data TELEGRAM_CHAT_ID date_parse bot pages s) as Hd.
  split; [apply sync_loop_ids | split; [exact Hd|]].
  symmetry. eapply Forall2_length. exact Hd.
Qed.

(** X14: a pass only posts.  The events of a pass are calls that send,
    edit or pin a message, all for listed pages, and they are the events
    of the loop: neither the cleanup nor the store functions make a call
    at the destination, so no message is ever unpinned or deleted. *)
Theorem pass_only_posts (pages : list Page) (s : State) :
  exists posted,
    tg_log (sync TELEGRAM_CHAT_ID date_parse bot notion pages s)
    = (tg_log s ++ posted)%list
    /\ tg_log (sync TELEGRAM_CHAT_ID date_parse bot notion pages s)
       = tg_log (fst (fst (sync_loop TELEGRAM_CHAT_ID date_parse bot pages s)))
    /\ Forall (fun e => posting e = true /\ In (ev_page e) (listed_ids pages))
         posted.
Proof.
  destruct (sync_steps TELEGRAM_CHAT_ID date_parse bot notion pages s)
    as (s1 & data & Hloop & Hsync & _).
  pose proof (sync_loop_touches TELEGRAM_CHAT_ID date_parse bot pages s) as Ht.
  pose proof (sync_loop_posting TELEGRAM_CHAT_ID date_parse bot pages s) as Hp.
  rewrite Hloop in Ht, Hp |- *. simpl in Ht, Hp |- *.
  destruct Ht as (_ & _ & (ev1 & Hl1 & Hf1) & _).
  destruct Hp as (ev1' & Hl1' & Hp1).
  assert (ev1' = ev1) by (rewrite Hl1 in Hl1'; now apply app_inv_head in Hl1').
  subst ev1'.
  destruct (persist_cases notion data (cleanup_posts (listed_ids pages) s1))
    as [Hl3 _].
  assert (Hlog : tg_log (sync TELEGRAM_CHAT_ID date_parse bot notion pages s)
                 = tg_log s1)
    by (now rewrite Hsync, Hl3, cleanup_posts_log).
  exists ev1. split; [|split].
  - now rewrite Hlog.
  - exact Hlog.
  - rewrite Forall_forall in *. intros e He. split; [now apply Hp1 | now apply Hf1].
Qed.

(** X15: a pass that keeps no page (an empty listing, or every listed page
    skipped) makes no call to the store: the rows stay as they are, and
    the entries left in [self.pinned] are those of listed pages. With an
    empty listing [self.pinned] ends empty. *)
Theorem pass_without_data (pages : list Page) (s : State) :
  (forall q, In q pages -> skipped q = true) ->
  db (sync TELEGRAM_CHAT_ID date_parse bot notion pages s) = db s
  /\ notion_log (sync TELEGRAM_CHAT_ID date_parse bot notion pages s) = notion_log s
  /\ (forall k,
        In k (Dict.keys (pinned (sync TELEGRAM_CHAT_ID date_parse bot notion pages s)))
        -> In k (listed_ids pages))
  /\ (pages = [] ->
      pinned (sync TELEGRAM_CHAT_ID date_parse bot notion pages s) = []).
Proof.
  intros Hsk.
  destruct (sync_steps TELEGRAM_CHAT_ID date_parse bot notion pages s)
    as (s1 & data & Hloop & Hsync & Hdata).
  assert (Hnil : filter (fun q => negb (skipped q)) pages = []).
  { apply filter_none. intros q Hq. now rewrite (Hsk q Hq). }
  rewrite Hnil in Hdata. inversion Hdata; subst data.
  cbn [persist] in Hsync.
  pose proof (cleanup_after_loop_store pages s) as [Hdb Hlog].
  rewrite Hloop in Hdb, Hlog. cbn [fst] in Hdb, Hlog.
  assert (Hkeys : forall k,
            In k (Dict.keys (pinned (sync TELEGRAM_CHAT_ID date_parse bot notion
                                       pages s)))
            -> In k (listed_ids pages)).
  { intros k Hk. rewrite Hsync in Hk. eapply cleanup_posts_keys. exact Hk. }
  repeat split.
  - now rewrite Hsync.
  - now rewrite Hsync.
  - exact Hkeys.
  - intros ->.
    destruct (pinned (sync TELEGRAM_CHAT_ID date_parse bot notion [] s))
      as [|[k e] rest]; [reflexivity|].
    exfalso. apply (Hkeys k). now left.
Qed.

(** The entry of a skipped page does not survive a pass that reaches the
    store. *)
Lemma excluded_entry_dropped (pages : list Page) (s : State) (q kept : Page) :
  (forall h c, notion h c = true) ->
  NoDup (listed_ids pages) ->
  Forall hex32 (listed_ids pages) ->
  unique_keys (db s) ->
  In q pages -> skipped q = true ->
  In kept pages -> skipped kept = false ->
  Dict.get (_normalize_page_id (page_id q))
    (pinned (sync TELEGRAM_CHAT_ID date_parse bot notion pages s))
  = None.
Proof.
  intros Hans Hnd Hhex Hu Hq Hsk Hkept Hksk.
  destruct (sync_steps TELEGRAM_CHAT_ID date_parse bot notion pages s)
    as (s1 & data & Hloop & Hsync & Hdata).
  pose proof (cleanup_after_loop_store pages s) as [Hdb _].
  rewrite Hloop in Hdb. cbn [fst] in Hdb.
  assert (Hne : data <> []).
  { intros ->. inversion Hdata as [Hnil|].
    assert (Hin : In kept (filter (fun q => negb (skipped q)) pages)).
    { apply filter_In. split; [exact Hkept | now rewrite Hksk]. }
    rewrite <- Hnil in Hin. contradiction. }
  rewrite Hsync, (persist_answers notion data _ Hans Hne). cbn [pinned].
  apply DictFacts.not_in_keys_get. intros Hin.
  apply mapping_keys in Hin. destruct Hin as (i & r & Hn & Ha & Hk).
  rewrite Hdb in Hn.
  pose proof (updated_db_active_keys data (db s) i r _ Hu Hn Ha Hk) as Hkey.
  pose proof (listed_ids_filter_hex32 (fun q => negb (skipped q)) pages Hhex)
    as Hhex'.
  rewrite (tuple_keys_of_pages _ _ Hhex' Hdata) in Hkey.
  unfold listed_ids in Hkey. apply in_map_iff in Hkey.
  destruct Hkey as (q' & Hid & Hq').
  apply filter_In in Hq'. destruct Hq' as [Hq' Hsk'].
  assert (q' = q) by (now apply (listed_ids_inj pages q q' Hnd Hq Hq')).
  subst q'. rewrite Hsk in Hsk'. discriminate.
Qed.


(** X16: an excluded page is forgotten.  In a pass that reaches the store
    (some listed page is kept, the calls of the client succeed), a listed
    page that is skipped gets no destination call, so its message stays
    as it is, and yet its entry is gone from [self.pinned] when the pass
    ends. *)
Theorem excluded_page_forgotten (pages : list Page) (s : State) (q kept : Page) :
  (forall h c, notion h c = true) ->
  NoDup (listed_ids pages) ->
  Forall hex32 (listed_ids pages) ->
  unique_keys (db s) ->
  In q pages -> skipped q = true ->
  In kept pages -> skipped kept = false ->
  (exists evs,
      tg_log (sync TELEGRAM_CHAT_ID date_parse bot notion pages s)
      = (tg_log s ++ evs)%list
      /\ events_for (_normalize_page_id (page_id q)) evs = [])
  /\ Dict.get (_normalize_page_id (page_id q))
       (pinned (sync TELEGRAM_CHAT_ID date_parse bot notion pages s))
     = None.
Proof.
  intros Hans Hnd Hhex Hu Hq Hsk Hkept Hksk. split.
  - apply (quiet_page TELEGRAM_CHAT_ID date_parse bot notion pages s q Hnd Hq).
    now left.
  - now apply (excluded_entry_dropped pages s q kept).
Qed.

(** X17: [self.pinned] records a message only once it is pinned, and a
    page is sent at most once.  Whatever the destination answers, the
    push of a page makes at most four calls, at most one of them a
    [send_message], and either leaves [self.pinned] as it was or sets the
    entry of the page to a message whose pin is the last call it made,
    and succeeded. *)
Theorem push_page_records_pinned_message (page_id message : string)
    (last_edited : PyTime) (s : State) :
  exists evs,
    tg_log (push_page bot page_id message last_edited s) = (tg_log s ++ evs)%list
    /\ (List.length evs <= 4)%nat
    /\ (List.length (filter is_send evs) <= 1)%nat
    /\ (pinned (push_page bot page_id message last_edited s) = pinned s
        \/ exists m before r,
             evs = (before ++ [ {| ev_page := page_id;
                                   ev_call := pin_chat_message m;
                                   ev_result := Returned r |} ])%list
             /\ pinned (push_page bot page_id message last_edited s)
                = Dict.set page_id
                    {| message_id := Some m;
                       last_edited := last_edited;
                       entry_title := None |}
                    (pinned s)).
Proof.
  unfold push_page, create_post, tg_call, with_pinned.
  destruct (truthy_id (pinned_message_id page_id s)) as [old|].
  - destruct (bot (tg_log s) (edit_message_text old message)) as [|r1] eqn:E1;
      cbn [tg_log pinned db notion_log].
    + destruct (bot _ (send_message message)) as [|mid] eqn:E2;
        cbn [tg_log pinned db notion_log].
      * eexists. rewrite <- app_assoc. split; [reflexivity|].
        cbn. repeat split; try lia. now left.
      * destruct (bot _ (pin_chat_message mid)) as [|r3] eqn:E3;
          cbn [tg_log pinned db notion_log].
        -- eexists. rewrite <- !app_assoc. split; [reflexivity|].
           cbn. repeat split; try lia. now left.
        -- eexists. rewrite <- !app_assoc. split; [reflexivity|].
           cbn. repeat split; try lia. right.
           exists mid, [ {| ev_page := page_id;
                            ev_call := edit_message_text old message;
                            ev_result := Raised |};
                         {| ev_page := page_id;
                            ev_call := send_message message;
                            ev_result := Returned mid |} ], r3.
           now split.
    + destruct (bot _ (pin_chat_message old)) as [|r2] eqn:E2;
        cbn [tg_log pinned db notion_log].
      * destruct (bot _ (send_message message)) as [|mid] eqn:E3;
          cbn [tg_log pinned db notion_log].
        -- eexists. rewrite <- !app_assoc. split; [reflexivity|].
           cbn. repeat split; try lia. now left.
        -- destruct (bot _ (pin_chat_message mid)) as [|r4] eqn:E4;
             cbn [tg_log pinned db notion_log].
           ++ eexists. rewrite <- !app_assoc. split; [reflexivity|].
              cbn. repeat split; try lia. now left.
           ++ eexists. rewrite <- !app_assoc. split; [reflexivity|].
              cbn. repeat split; try lia. right.
              exists mid, [ {| ev_page := page_id;
                               ev_call := edit_message_text old message;
                               ev_result := Returned r1 |};
                            {| ev_page := page_id;
                               ev_call := pin_chat_message old;
                               ev_result := Raised |};
                            {| ev_page := page_id;
                               ev_call := send_message message;
                               ev_result := Returned mid |} ], r4.
              now split.
      * eexists. rewrite <- !app_assoc. split; [reflexivity|].
        cbn. repeat split; try lia. right.
        exists old, [ {| ev_page := page_id;
                         ev_call := edit_message_text old message;
                         ev_result := Returned r1 |} ], r2.
        now split.
  - destruct (bot (tg_log s) (send_message message)) as [|mid] eqn:E1;
      cbn [tg_log pinned db notion_log].
    + eexists. split; [reflexivity|]. cbn. repeat split; try lia. now left.
    + destruct (bot _ (pin_chat_message mid)) as [|r2] eqn:E2;
        cbn [tg_log pinned db notion_log].
      * eexists. rewrite <- !app_assoc. split; [reflexivity|].
        cbn. repeat split; try lia. now left.
      * eexists. rewrite <- !app_assoc. split; [reflexivity|].
        cbn. repeat split; try lia. right.
        exists mid, [ {| ev_page := page_id;
                         ev_call := send_message message;
                         ev_result := Returned mid |} ], r2.
        now split.
Qed.

(** X18: when the edit succeeds and the pin that follows it raises, the
    page is posted a second time: the edited message stays in the chat
    with the new text, a new message with the same text is sent and
    pinned, and the entry of the page now holds the new message. *)
Theorem failed_repin_posts_again (page_id message : string) (last_edited : PyTime)
    (s : State) (old r1 new r2 : Z) :
  truthy_id (pinned_message_id page_id s) = Some old ->
  bot (tg_log s) (edit_message_text old message) = Returned r1 ->
  bot (tg_log s
       ++ [ {| ev_page := page_id;
               ev_call := edit_message_text old message;
               ev_result := Returned r1 |} ])%list
    (pin_chat_message old)
  = Raised ->
  bot (tg_log s
       ++ [ {| ev_page := page_id;
               ev_call := edit_message_text old message;
               ev_result := Returned r1 |};
            {| ev_page := page_id;
               ev_call := pin_chat_message old;
               ev_result := Raised |} ])%list
    (send_message message)
  = Returned new ->
  bot (tg_log s
       ++ [ {| ev_page := page_id;
               ev_call := edit_message_text old message;
               ev_result := Returned r1 |};
            {| ev_page := page_id;
               ev_call := pin_chat_message old;
               ev_result := Raised |};
            {| ev_page := page_id;
               ev_call := send_message message;
               ev_result := Returned new |} ])%list
    (pin_chat_message new)
  = Returned r2 ->
  tg_log (push_page bot page_id message last_edited s)
  = (tg_log s
     ++ [ {| ev_page := page_id;
             ev_call := edit_message_text old message;
             ev_result := Returned r1 |};
          {| ev_page := page_id;
             ev_call := pin_chat_message old;
             ev_result := Raised |};
          {| ev_page := page_id;
             ev_call := send_message message;
             ev_result := Returned new |};
          {| ev_page := page_id;
             ev_call := pin_chat_message new;
             ev_result := Returned r2 |} ])%list
  /\ pinned_message_id page_id (push_page bot page_id message last_edited s)
     = Some new.
Proof.
  intros Hold Hedit Hpin Hsend Hpin2.
  unfold push_page. rewrite Hold.
  unfold create_post, tg_call. rewrite Hedit. cbn [tg_log pinned db notion_log].
  rewrite Hpin. cbn [tg_log pinned db notion_log].
  rewrite <- app_assoc. cbn [app]. rewrite Hsend. cbn [tg_log pinned db notion_log].
  rewrite <- app_assoc. cbn [app]. rewrite Hpin2.
  unfold with_pinned, pinned_message_id. cbn [tg_log pinned db notion_log].
  rewrite DictFacts.get_set_same. cbn [message_id].
  rewrite <- app_assoc. cbn [app]. now split.
Qed.

End PassExtras.
Lemma unique_keys_synced_state : unique_keys (db synced_state).
Proof.
  intros i j ri rj k Hi Hj _ _ Hki Hkj.
  destruct i as [|[|i]]; simpl in Hi; [| |destruct i; discriminate];
    destruct j as [|[|j]]; simpl in Hj; try (destruct j; discriminate);
    try reflexivity;
    inversion Hi; subst ri; inversion Hj; subst rj;
    vm_compute in Hki, Hkj; congruence.
Qed.

Lemma pass_without_data_witness :
  db (sync sample_chat sample_parse bot_up store_up
        [page_b "[DRAFT] Bee"] synced_state)
  = db synced_state
  /\ notion_log (sync sample_chat sample_parse bot_up store_up
                   [page_b "[DRAFT] Bee"] synced_state)
     = notion_log synced_state
  /\ (forall k,
        In k (Dict.keys (pinned (sync sample_chat sample_parse bot_up store_up
                                   [page_b "[DRAFT] Bee"] synced_state)))
        -> In k (listed_ids [page_b "[DRAFT] Bee"]))
  /\ ([page_b "[DRAFT] Bee"] = [] ->
      pinned (sync sample_chat sample_parse bot_up store_up
                [page_b "[DRAFT] Bee"] synced_state) = []).
Proof.
  apply (pass_without_data sample_chat sample_parse bot_up store_up
           [page_b "[DRAFT] Bee"] synced_state).
  intros q [<- | []]. reflexivity.
Defined.

Lemma excluded_page_forgotten_witness :
  (exists evs,
      tg_log (sync sample_chat sample_parse bot_up store_up
                [page_a first_edit; page_b "[DRAFT] Bee"] synced_state)
      = (tg_log synced_state ++ evs)%list
      /\ events_for (_normalize_page_id (page_id (page_b "[DRAFT] Bee"))) evs = [])
  /\ Dict.get (_normalize_page_id (page_id (page_b "[DRAFT] Bee")))
       (pinned (sync sample_chat sample_parse bot_up store_up
                  [page_a first_edit; page_b "[DRAFT] Bee"] synced_state))
     = None.
Proof.
  apply (excluded_page_forgotten sample_chat sample_parse bot_up store_up
           [page_a first_edit; page_b "[DRAFT] Bee"] synced_state
           (page_b "[DRAFT] Bee") (page_a first_edit)).
  - reflexivity.
  - constructor; [intros [H | []]; discriminate|].
    constructor; [intros [] | constructor].
  - constructor; [reflexivity|]. constructor; [reflexivity | constructor].
  - exact unique_keys_synced_state.
  - right. now left.
  - reflexivity.
  - now left.
  - reflexivity.
Defined.

Lemma failed_repin_posts_again_witness :
  tg_log (push_page bot_pin_fails id_a hello_message second_edit synced_state)
  = (tg_log synced_state
     ++ [ {| ev_page := id_a;
             ev_call := edit_message_text 7 hello_message;
             ev_result := Returned 42 |};
          {| ev_page := id_a;
             ev_call := pin_chat_message 7;
             ev_result := Raised |};
          {| ev_page := id_a;
             ev_call := send_message hello_message;
             ev_result := Returned 42 |};
          {| ev_page := id_a;
             ev_call := pin_chat_message 42;
             ev_result := Returned 42 |} ])%list
  /\ pinned_message_id id_a
       (push_page bot_pin_fails id_a hello_message second_edit synced_state)
     = Some 42%Z.
Proof.
  apply (failed_repin_posts_again bot_pin_fails id_a hello_message second_edit
           synced_state 7%Z 42%Z 42%Z 42%Z); reflexivity.
Defined.

(** ** Listing the pages *)

Section ListingFacts.

Variable children_list : list (option string) -> option string -> option Listing.
Variable pages_retrieve : list string -> string -> option Page.

(** Once the loop has ended, more iterations change nothing. *)
Lemma fetch_children_more fuel :
  forall asked cursor acc extra,
    fetch_children children_list fuel asked cursor acc <> Running ->
    fetch_children children_list (fuel + extra) asked cursor acc
    = fetch_children children_list fuel asked cursor acc.
Proof.
  induction fuel as [|fuel IH]; intros asked cursor acc extra H.
  - now contradiction H.
  - cbn [Nat.add fetch_children] in H |- *.
    destruct (children_list asked cursor) as [[results next]|]; [|reflexivity].
    destruct (truthy_cursor next); [|reflexivity]. now apply IH.
Qed.

Lemma fetch_children_chain chain :
  forall asked cursor acc,
    answers_chain children_list asked cursor chain ->
    fetch_children children_list (List.length chain) asked cursor acc
    = Returns (acc ++ List.concat (map fst chain))%list.
Proof.
  induction chain as [|[results next] rest IH]; intros asked cursor acc H.
  - contradiction.
  - destruct H as [Hcall Hrest]. cbn [List.length fetch_children].
    rewrite Hcall. destruct rest as [|answer rest'].
    + cbn [snd] in Hrest. rewrite Hrest. simpl. now rewrite app_nil_r.
    + destruct Hrest as (c & Hc & Hchain). cbn [snd] in Hc. rewrite Hc.
      rewrite (IH _ _ _ Hchain). simpl. now rewrite <- app_assoc.
Qed.

Lemma retrieve_pages_one_each children :
  forall retrieved pages,
    retrieve_pages pages_retrieve retrieved children = Some pages ->
    Forall2 (fun b p => exists h, pages_retrieve h (child_id b) = Some p)
      (filter is_child_page children) pages.
Proof.
  induction children as [|b rest IH]; intros retrieved pages H;
    cbn [retrieve_pages filter] in H |- *.
  - inversion H. constructor.
  - destruct (is_child_page b); [|now apply IH in H].
    destruct (pages_retrieve retrieved (child_id b)) as [p|] eqn:Ep; [|discriminate].
    destruct (retrieve_pages pages_retrieve (retrieved ++ [child_id b]) rest)
      as [ps|] eqn:Er; [|discriminate].
    inversion H; subst. constructor; [now exists retrieved | now apply IH in Er].
Qed.

(** X19: [get_first_level_pages] returns all the pages or none.  When it
    returns a list that is not empty, no call raised: the loop went through
    every answer of the listing, and the list holds one retrieved page for
    each block of type child_page, in the order of the blocks. *)
Theorem listing_all_or_nothing (fuel : nat) (pages : list Page) :
  get_first_level_pages children_list pages_retrieve fuel = Some pages ->
  pages <> [] ->
  exists all_children,
    fetch_children children_list fuel [] None [] = Returns all_children
    /\ retrieve_pages pages_retrieve [] all_children = Some pages
    /\ Forall2 (fun b p => exists h, pages_retrieve h (child_id b) = Some p)
         (filter is_child_page all_children) pages.
Proof.
  unfold get_first_level_pages. intros H Hne.
  destruct (fetch_children children_list fuel [] None []) as [children| |];
    [|inversion H; congruence | discriminate].
  destruct (retrieve_pages pages_retrieve [] children) as [ps|] eqn:Er;
    [|inversion H; congruence].
  inversion H; subst ps. exists children.
  split; [reflexivity | split; [exact Er|]].
  now apply retrieve_pages_one_each in Er.
Qed.

(** X20: the loop follows the cursors to the end.  When the answers of the
    listing form a chain of [n] answers, each but the last with a cursor,
    the function returns after [n] calls, for any bound from [n] on, and
    what it retrieves are the child pages of all the answers, in order. *)
Theorem listing_follows_cursors (chain : list Listing) (fuel : nat) :
  answers_chain children_list [] None chain ->
  (List.length chain <= fuel)%nat ->
  get_first_level_pages children_list pages_retrieve fuel
  = Some match retrieve_pages pages_retrieve [] (List.concat (map fst chain)) with
         | Some pages => pages
         | None => []
         end.
Proof.
  intros Hchain Hfuel. unfold get_first_level_pages.
  replace fuel with (List.length chain + (fuel - List.length chain))%nat by lia.
  rewrite fetch_children_more;
    rewrite (fetch_children_chain chain [] None [] Hchain); [|discriminate].
  cbn [app]. now destruct (retrieve_pages pages_retrieve [] (List.concat (map fst chain))).
Qed.

End ListingFacts.

Lemma listing_all_or_nothing_witness :
  exists all_children,
    fetch_children two_answers 5 [] None [] = Returns all_children
    /\ retrieve_pages retrieve_up [] all_children
       = Some [page_a first_edit; page_b "Bee"]
    /\ Forall2 (fun b p => exists h, retrieve_up h (child_id b) = Some p)
         (filter is_child_page all_children) [page_a first_edit; page_b "Bee"].
Proof.
  apply (listing_all_or_nothing two_answers retrieve_up 5
           [page_a first_edit; page_b "Bee"]).
  - reflexivity.
  - discriminate.
Defined.

Lemma listing_follows_cursors_witness :
  get_first_level_pages two_answers retrieve_up 5
  = Some [page_a first_edit; page_b "Bee"].
Proof.
  apply (listing_follows_cursors two_answers retrieve_up
           [ ([ {| child_id := "01234567-89ab-cdef-0123-456789abcdef";
                   child_type := "child_page" |};
                {| child_id := "d"; child_type := "child_database" |} ],
              Some "next");
             ([ {| child_id := id_b; child_type := "child_page" |} ], None) ]
           5).
  - simpl. split; [reflexivity|]. exists "next".
    split; [reflexivity|]. split; reflexivity.
  - simpl. lia.
Defined.

Section ListingPass.

Variable children_list : list (option string) -> option string -> option Listing.
Variable pages_retrieve : list string -> string -> option Page.
Variable TELEGRAM_CHAT_ID : string.
Variable date_parse : string -> option Z.
Variable bot : list TgEvent -> TgCall -> TgResult.
Variable notion : list StoreCall -> StoreCall -> bool.

Lemma sync_nil s :
  sync TELEGRAM_CHAT_ID date_parse bot notion [] s = cleanup_posts [] s.
Proof. reflexivity. Qed.

(** X21: a failed listing empties the mapping in memory.  When a call of
    the listing raises (a page of children or the retrieval of one page),
    the pass goes on with no page: the cleanup deletes every entry, so
    [self.pinned] ends empty; no call is made at the destination (the
    unpin and the delete of the cleanup are never awaited), and the store
    is not called, so its rows stay. *)
Theorem failed_listing_forgets_all (fuel : nat) (s : State) :
  fetch_children children_list fuel [] None [] = Raises
  \/ (exists all_children,
         fetch_children children_list fuel [] None [] = Returns all_children
         /\ retrieve_pages pages_retrieve [] all_children = None) ->
  exists s',
    sync_listed children_list pages_retrieve TELEGRAM_CHAT_ID date_parse bot
      notion fuel s = Some s'
    /\ pinned s' = []
    /\ db s' = db s
    /\ notion_log s' = notion_log s
    /\ tg_log s' = tg_log s.
Proof.
  intros Hfail.
  assert (Hpages : get_first_level_pages children_list pages_retrieve fuel = Some []).
  { unfold get_first_level_pages.
    destruct Hfail as [-> | (children & -> & ->)]; reflexivity. }
  unfold sync_listed. rewrite Hpages. cbn [option_map].
  eexists. split; [reflexivity|].
  rewrite sync_nil.
  pose proof (fold_cleanup_touches [] (Dict.keys (pinned s)) s)
    as (Hdb & Hlog & _ & _).
  fold (cleanup_posts [] s) in Hdb, Hlog.
  repeat split; [| exact Hdb | exact Hlog | apply cleanup_posts_log].
  destruct (pinned (cleanup_posts [] s)) as [|[k e] rest] eqn:Ep;
    [reflexivity|].
  exfalso. apply (cleanup_posts_keys [] s k). rewrite Ep. now left.
Qed.

End ListingPass.
Lemma failed_listing_forgets_all_witness :
  exists s',
    sync_listed listing_down retrieve_up sample_chat sample_parse bot_up
      store_up 1 synced_state = Some s'
    /\ pinned s' = []
    /\ db s' = db synced_state
    /\ notion_log s' = notion_log synced_state
    /\ tg_log s' = tg_log synced_state.
Proof.
  apply (failed_listing_forgets_all listing_down retrieve_up sample_chat
           sample_parse bot_up store_up 1 synced_state).
  left. reflexivity.
Defined.

(** ** The cleanup, exactly *)

Section CleanupExact.

Lemma filter_filter {A : Type} (p q : A -> bool) (l : list A) :
  filter p (filter q l) = filter (fun x => q x && p x) l.
Proof.
  induction l as [|x l IH]; [reflexivity|]. simpl.
  destruct (q x); simpl; [destruct (p x)|]; now rewrite IH.
Qed.

Lemma filter_ext_in' {A : Type} (p q : A -> bool) (l : list A) :
  (forall x, In x l -> p x = q x) -> filter p l = filter q l.
Proof.
  induction l as [|x l IH]; intros H; [reflexivity|]. simpl.
  rewrite (H x (or_introl eq_refl)), IH; [reflexivity|].
  intros y Hy. apply H. now right.
Qed.

Lemma get_none_filter {V : Type} (k : string) (d : Dict.t V) :
  Dict.get k d = None ->
  filter (fun kv => negb (String.eqb (fst kv) k)) d = d.
Proof.
  induction d as [|[k' v] d IH]; [reflexivity|]. simpl.
  destruct (String.eqb k' k); [discriminate|]. intros H. simpl. now rewrite IH.
Qed.

(** The entries one step of the cleanup keeps. *)
Lemma cleanup_one_pinned ids s k :
  pinned (cleanup_one ids s k)
  = filter (fun kv => set_mem (fst kv) ids || negb (String.eqb (fst kv) k))
      (pinned s).
Proof.
  unfold cleanup_one. destruct (set_mem k ids) eqn:Ek.
  - symmetry. rewrite (filter_ext_in' _ (fun _ => true)).
    + clear. induction (pinned s) as [|x l IH]; simpl; [reflexivity | now rewrite IH].
    + intros [k' v] _. simpl. destruct (String.eqb_spec k' k) as [->|].
      * now rewrite Ek.
      * now rewrite orb_true_r.
  - destruct (Dict.get k (pinned s)) as [e|] eqn:Eg.
    + unfold with_pinned, tg_call. cbn [snd pinned]. unfold Dict.del.
      apply filter_ext_in'. intros [k' v] _. simpl.
      destruct (String.eqb_spec k' k) as [->|]; [now rewrite Ek|].
      now rewrite orb_true_r.
    + rewrite <- (get_none_filter k (pinned s) Eg) at 1.
      apply filter_ext_in'. intros [k' v] _. simpl.
      destruct (String.eqb_spec k' k) as [->|]; [now rewrite Ek|].
      now rewrite orb_true_r.
Qed.

Lemma fold_cleanup_pinned ids ks :
  forall s,
    pinned (fold_left (cleanup_one ids) ks s)
    = filter (fun kv => set_mem (fst kv) ids || negb (set_mem (fst kv) ks))
        (pinned s).
Proof.
  induction ks as [|k ks IH]; intros s; cbn [fold_left].
  - symmetry. rewrite (filter_ext_in' _ (fun _ => true)).
    + induction (pinned s) as [|x l IHl]; simpl; [reflexivity | now rewrite IHl].
    + intros kv _. simpl. now rewrite orb_true_r.
  - rewrite IH, cleanup_one_pinned, filter_filter.
    apply filter_ext_in'. intros [k' v] _. cbn [fst set_mem existsb].
    fold (set_mem k' ks).
    destruct (set_mem k' ids); [reflexivity|]. cbn [orb].
    now destruct (String.eqb k' k), (set_mem k' ks).
Qed.

(** X22: what [cleanup_posts] leaves of [self.pinned] is exactly its
    entries for the identifiers of [current_ids], in their order; it makes
    no call at the destination, the rows of the store are untouched, and
    a second cleanup with the same identifiers does nothing at all. *)
Theorem cleanup_posts_exact (current_ids : list string) (s : State) :
  pinned (cleanup_posts current_ids s)
  = filter (fun kv => set_mem (fst kv) current_ids) (pinned s)
  /\ tg_log (cleanup_posts current_ids s) = tg_log s
  /\ db (cleanup_posts current_ids s) = db s
  /\ cleanup_posts current_ids (cleanup_posts current_ids s)
     = cleanup_posts current_ids s.
Proof.
  split; [|split; [|split]].
  - unfold cleanup_posts. rewrite fold_cleanup_pinned.
    apply filter_ext_in'. intros [k v] Hin. cbn [fst].
    assert (Hk : set_mem k (Dict.keys (pinned s)) = true).
    { apply set_mem_in. unfold Dict.keys. apply in_map_iff.
      now exists (k, v). }
    rewrite Hk. now rewrite orb_false_r.
  - apply cleanup_posts_log.
  - pose proof (fold_cleanup_touches current_ids (Dict.keys (pinned s)) s)
      as (Hdb & _).
    exact Hdb.
  - unfold cleanup_posts at 1. apply fold_cleanup_listed.
    intros k Hk. eapply cleanup_posts_keys. exact Hk.
Qed.

End CleanupExact.

(** ** A store that is down *)

Section StoreDown.

Variable TELEGRAM_CHAT_ID : string.
Variable date_parse : string -> option Z.
Variable bot : list TgEvent -> TgCall -> TgResult.
Variable notion : list StoreCall -> StoreCall -> bool.

(** X23: a pass with the store down.  When the first call of
    [update_sync_database] raises, the pass has posted as it would have
    otherwise, the rows are as they were, and [self.pinned]
    keeps the entries of the loop and the cleanup, those of the pages
    posted in this pass included. *)
Theorem store_down_keeps_memory (pages : list Page) (s : State) :
  (forall h, notion h get_or_create_sync_database = false) ->
  db (sync TELEGRAM_CHAT_ID date_parse bot notion pages s) = db s
  /\ pinned (sync TELEGRAM_CHAT_ID date_parse bot notion pages s)
     = pinned (cleanup_posts (listed_ids pages)
                 (fst (fst (sync_loop TELEGRAM_CHAT_ID date_parse bot pages s))))
  /\ tg_log (sync TELEGRAM_CHAT_ID date_parse bot notion pages s)
     = tg_log (cleanup_posts (listed_ids pages)
                 (fst (fst (sync_loop TELEGRAM_CHAT_ID date_parse bot pages s)))).
Proof.
  intros Hdown.
  destruct (sync_steps TELEGRAM_CHAT_ID date_parse bot notion pages s)
    as (s1 & data & Hloop & Hsync & _).
  pose proof (cleanup_after_loop_store TELEGRAM_CHAT_ID date_parse bot pages s)
    as [Hdb _].
  rewrite Hloop in Hdb |- *. cbn [fst] in Hdb |- *. rewrite Hsync.
  set (s2 := cleanup_posts (listed_ids pages) s1) in *.
  destruct data as [|t data]; [now repeat split|].
  unfold persist, update_sync_database, bind, store_call.
  rewrite Hdown. cbn [db pinned tg_log]. now repeat split.
Qed.

End StoreDown.
Lemma store_down_keeps_memory_witness :
  db (sync sample_chat sample_parse bot_up store_down [page_a first_edit]
        empty_state)
  = db empty_state
  /\ pinned (sync sample_chat sample_parse bot_up store_down [page_a first_edit]
               empty_state)
     = pinned (cleanup_posts (listed_ids [page_a first_edit])
                 (fst (fst (sync_loop sample_chat sample_parse bot_up
                              [page_a first_edit] empty_state))))
  /\ tg_log (sync sample_chat sample_parse bot_up store_down [page_a first_edit]
               empty_state)
     = tg_log (cleanup_posts (listed_ids [page_a first_edit])
                 (fst (fst (sync_loop sample_chat sample_parse bot_up
                              [page_a first_edit] empty_state)))).
Proof.
  apply (store_down_keeps_memory sample_chat sample_parse bot_up store_down
           [page_a first_edit] empty_state).
  reflexivity.
Defined.

(** ** The links of the store *)

Lemma remove_from_no_hyphen d :
  all_chars (fun c => negb (Ascii.eqb c "-"%char)) d = true ->
  Py.remove_from "-100" 0 d = d.
Proof.
  induction d as [|c r IH]; [reflexivity|].
  rewrite all_chars_cons. intros H. apply andb_true_iff in H.
  destruct H as [Hc Hr]. apply negb_true_iff in Hc.
  cbn [Py.remove_from String.prefix].
  destruct (ascii_dec "-" c) as [E|E].
  - subst c. discriminate.
  - now rewrite (IH Hr).
Qed.

(** The chat identifier of a supergroup without its prefix. *)
Lemma remove_supergroup_prefix d :
  all_chars (fun c => negb (Ascii.eqb c "-"%char)) d = true ->
  Py.remove "-100" ("-100" ++ d) = d.
Proof.
  intros H. unfold Py.remove. cbn [append].
  cbn [Py.remove_from String.prefix String.length Nat.sub].
  destruct (ascii_dec "-" "-") as [_|E]; [|congruence].
  destruct (ascii_dec "1" "1") as [_|E]; [|congruence].
  destruct (ascii_dec "0" "0") as [_|E]; [|congruence].
  assert (Hp : String.prefix EmptyString d = true) by (destruct d; reflexivity).
  rewrite Hp. cbn [Py.remove_from]. now apply remove_from_no_hyphen.
Qed.

(** X24: the message of a page through the store.  For a chat identifier
    [-100] followed by characters without a hyphen and a positive message
    identifier, the link [sync] writes is the address of the message in
    the chat without its prefix, and the row written for a tuple with that
    link and the link of a page of 32 hexadecimal digits is read back by
    [get_sync_db_mapping] under that page with that message, the
    timestamp and the title of the tuple. *)
Theorem tuple_through_the_store (d title p : string) (m : positive) (dt : PyTime)
    (archived : bool) :
  all_chars (fun c => negb (Ascii.eqb c "-"%char)) d = true ->
  hex32 p ->
  tg_url_of ("-100" ++ d) (Some (Zpos m))
  = "https://t.me/c/" ++ d ++ "/" ++ Py.str_of_int (Zpos m)
  /\ row_key
       (write_row
          (props_of {| st_title := title;
                       st_notion_url := notion_url_of p;
                       st_tg_url := tg_url_of ("-100" ++ d) (Some (Zpos m));
                       st_dt := dt |})
          archived)
     = Some p
  /\ entry_of_row
       (write_row
          (props_of {| st_title := title;
                       st_notion_url := notion_url_of p;
                       st_tg_url := tg_url_of ("-100" ++ d) (Some (Zpos m));
                       st_dt := dt |})
          archived)
     = {| message_id := Some (Zpos m);
          last_edited := dt;
          entry_title := Some title |}.
Proof.
  intros Hd Hp. split; [|split].
  - unfold tg_url_of. cbn [truthy_id Z.eqb]. now rewrite remove_supergroup_prefix.
  - apply row_key_written.
    + unfold tuple_key. cbn [st_notion_url]. now apply data_key_notion_url.
    + now apply hex32_nonempty.
  - unfold entry_of_row, write_row, props_of.
    cbn [row_telegram row_updated row_title p_telegram p_updated p_title
         st_title st_tg_url st_dt].
    replace (Py.nonempty (tg_url_of ("-100" ++ d) (Some (Zpos m))))
      with true by reflexivity.
    now rewrite message_id_of_tg_url.
Qed.

Lemma tuple_through_the_store_witness :
  tg_url_of ("-100" ++ "1234") (Some 7%Z)
  = "https://t.me/c/" ++ "1234" ++ "/" ++ Py.str_of_int 7
  /\ row_key
       (write_row
          (props_of {| st_title := "Hello";
                       st_notion_url := notion_url_of id_a;
                       st_tg_url := tg_url_of ("-100" ++ "1234") (Some 7%Z);
                       st_dt := first_edit |})
          false)
     = Some id_a
  /\ entry_of_row
       (write_row
          (props_of {| st_title := "Hello";
                       st_notion_url := notion_url_of id_a;
                       st_tg_url := tg_url_of ("-100" ++ "1234") (Some 7%Z);
                       st_dt := first_edit |})
          false)
     = {| message_id := Some 7%Z;
          last_edited := first_edit;
          entry_title := Some "Hello" |}.
Proof.
  apply (tuple_through_the_store "1234" "Hello" id_a 7%positive first_edit false);
    reflexivity.
Defined.

(** ** The error context *)

Lemma substring_length_le s :
  forall n m, (String.length (substring n m s) <= m)%nat.
Proof.
  induction s as [|c s IH]; intros [|n] [|m]; simpl; try lia.
  - specialize (IH 0%nat m). lia.
  - specialize (IH n 0%nat). lia.
  - apply IH.
Qed.

(** X25: the window of [_get_error_context].  The text returned is a
    header, the decoded snippet, a line feed and the marker.  For an
    offset that is not negative the snippet holds at most 100 bytes and
    the marker is indented by at most 50 spaces; when the offset falls
    inside the text, the byte of the snippet at the indentation of the
    marker is the byte of the text at the offset. *)
Theorem error_context_window (decode : string -> string) (text : string)
    (error_pos : Z) :
  (0 <= error_pos)%Z ->
  (exists header,
      ErrorContext._get_error_context decode text error_pos
      = header ++ decode (ErrorContext.snippet_bytes text error_pos)
        ++ Py.LF ++ ErrorContext.marker error_pos)
  /\ (String.length (ErrorContext.snippet_bytes text error_pos) <= 100)%nat
  /\ ErrorContext.marker error_pos
     = string_of_list_ascii
         (repeat " "%char (Z.to_nat (error_pos - ErrorContext.context_start error_pos)))
       ++ ErrorContext.arrow
  /\ (0 <= error_pos - ErrorContext.context_start error_pos <= 50)%Z
  /\ ((error_pos < Z.of_nat (String.length text))%Z ->
      String.get (Z.to_nat (error_pos - ErrorContext.context_start error_pos))
        (ErrorContext.snippet_bytes text error_pos)
      = String.get (Z.to_nat error_pos) text).
Proof.
  intros Hpos. split.
  { exists ("Error position: " ++ Py.str_of_int error_pos
            ++ " (total bytes: "
            ++ Py.str_of_int (Z.of_nat (String.length text)) ++ ")"
            ++ Py.LF ++ "Context:" ++ Py.LF).
    unfold ErrorContext._get_error_context. cbv zeta.
    now rewrite !append_assoc. }
  unfold ErrorContext.snippet_bytes, ErrorContext.slice, ErrorContext.clip,
    ErrorContext.context_start, ErrorContext.context_end, ErrorContext.marker,
    ErrorContext.repeat_char.
  set (len := Z.of_nat (String.length text)).
  assert (Hlen : (0 <= len)%Z) by (unfold len; lia).
  destruct (Z.ltb_spec (Z.max 0 (error_pos - 50)) 0) as [H1|H1]; [lia|].
  destruct (Z.ltb_spec (Z.min len (error_pos + 50)) 0) as [H2|H2]; [lia|].
  split; [|split; [reflexivity | split; [lia|]]].
  - eapply Nat.le_trans; [apply substring_length_le|]. lia.
  - intros Hin. rewrite substring_correct1 by lia. f_equal. lia.
Qed.

Lemma error_context_window_witness :
  (exists header,
      ErrorContext._get_error_context (fun b => b) "*Hello*" 6
      = header ++ (fun b : string => b) (ErrorContext.snippet_bytes "*Hello*" 6)
        ++ Py.LF ++ ErrorContext.marker 6)
  /\ (String.length (ErrorContext.snippet_bytes "*Hello*" 6) <= 100)%nat
  /\ ErrorContext.marker 6
     = string_of_list_ascii
         (repeat " "%char (Z.to_nat (6 - ErrorContext.context_start 6)))
       ++ ErrorContext.arrow
  /\ (0 <= 6 - ErrorContext.context_start 6 <= 50)%Z
  /\ ((6 < Z.of_nat (String.length "*Hello*"))%Z ->
      String.get (Z.to_nat (6 - ErrorContext.context_start 6))
        (ErrorContext.snippet_bytes "*Hello*" 6)
      = String.get (Z.to_nat 6) "*Hello*").
Proof. apply (error_context_window (fun b => b) "*Hello*" 6). lia. Defined.

(** ** A pushed page through a whole pass *)

Section PushedPage.

Variable TELEGRAM_CHAT_ID : string.
Variable date_parse : string -> option Z.
Variable bot : list TgEvent -> TgCall -> TgResult.
Variable notion : list StoreCall -> StoreCall -> bool.
Hypothesis notion_answers : forall h c, notion h c = true.









End PushedPage.


(** ** Runs side by side *)

Lemma concat_empty_app (a b : list string) :
  String.concat EmptyString (a ++ b)%list
  = String.concat EmptyString a ++ String.concat EmptyString b.
Proof.
  induction a as [|x a IH]; [reflexivity|].
  destruct a as [|y a'].
  - cbn [app]. destruct b as [|z b']; [now rewrite append_empty_r | reflexivity].
  - change (String.concat EmptyString ((x :: y :: a') ++ b)%list)
      with (x ++ EmptyString ++ String.concat EmptyString ((y :: a') ++ b)%list).
    rewrite IH.
    change (String.concat EmptyString (x :: y :: a'))
      with (x ++ EmptyString ++ String.concat EmptyString (y :: a')).
    cbn [append]. now rewrite append_assoc.
Qed.

(** X28: [_parse_rich_text] renders the runs one by one: the text of two
    lists of runs put end to end is the text of the first followed by the
    text of the second, with and without escaping, so a run is rendered
    the same wherever it stands. *)
Theorem parse_rich_text_app (a b : RichText) (escape : bool) :
  NotionHandler._parse_rich_text (a ++ b)%list escape
  = NotionHandler._parse_rich_text a escape
    ++ NotionHandler._parse_rich_text b escape.
Proof.
  unfold NotionHandler._parse_rich_text. now rewrite map_app, concat_empty_app.
Qed.

(** ** The mapping in memory and the mapping in the store *)

Section Restart.

Variable TELEGRAM_CHAT_ID : string.
Variable date_parse : string -> option Z.
Variable bot : list TgEvent -> TgCall -> TgResult.
Variable notion : list StoreCall -> StoreCall -> bool.


End Restart.


(** ** Excluding a page, then including it again *)

Section Undrafted.

Variable TELEGRAM_CHAT_ID : string.
Variable date_parse : string -> option Z.
Variable bot : list TgEvent -> TgCall -> TgResult.
Variable notion : list StoreCall -> StoreCall -> bool.
Hypothesis notion_answers : forall h c, notion h c = true.


End Undrafted.

